(** * A shallow embedding of the blog engine of [main.go]

    The program turns Markdown files into post records, sorts them by
    date and renders pages, either over HTTP or into a static site on
    disk.  Go strings and byte slices are modelled as [string] (a
    sequence of bytes), Go's [(value, error)] results as pairs whose
    second component is [None] for a nil error, and the routines of
    the packages the program imports which the program cannot run
    without (file system, front matter, Markdown, templates, URL
    parsing, title casing) as the fields of a class [Collaborators]. *)

From Stdlib Require Import ZArith String Ascii.
From stdpp Require Import base list sorting strings gmap.

Open Scope string_scope.
Open Scope nat_scope.
Open Scope list_scope.
Open Scope stdpp_scope.

(** ** Go values *)

(** Go's [error] values, as far as the program tells them apart:
    [os.IsNotExist] recognises a missing file; everything else is
    opaque to [main.go]. *)
Inductive error : Type :=
  | ErrNotExist (path : string)
  | ErrPermission (path : string)
  | ErrOther (msg : string).

(** [os.IsNotExist(err)]; a nil error is not a not-exist error. *)
Definition os_IsNotExist (err : option error) : bool :=
  match err with
  | Some (ErrNotExist _) => true
  | _ => false
  end.

(** [time.Time] as the instant it denotes: seconds since year 1 and
    nanoseconds within the second.  The zero value is the zero instant. *)
Record Time : Type := mkTime { sec : Z; nsec : Z }.

Definition Time_zero : Time := mkTime 0 0.

(** [t.After(u)]: [ts > us || ts == us && t.nsec() > u.nsec()]. *)
Definition After (t u : Time) : bool :=
  (sec u <? sec t)%Z || ((sec t =? sec u)%Z && (nsec u <? nsec t)%Z).

(** [t.IsZero()]: [t.sec() == 0 && t.nsec() == 0]. *)
Definition IsZero (t : Time) : bool :=
  (sec t =? 0)%Z && (nsec t =? 0)%Z.

(** [os.FileInfo], of which the program reads only [ModTime()]. *)
Record FileInfo : Type := mkFileInfo { ModTime : Time }.

Definition FileInfo_zero : FileInfo := mkFileInfo Time_zero.

(** ** The [strings] and [path/filepath] routines the program calls *)

Module strings.

(** [strings.HasPrefix]. *)
Fixpoint HasPrefix (s prefix : string) {struct prefix} : bool :=
  match prefix, s with
  | EmptyString, _ => true
  | String p prefix', String c s' =>
      if Ascii.eqb p c then HasPrefix s' prefix' else false
  | String _ _, EmptyString => false
  end.

(** [strings.TrimSuffix(s, suffix)]: [s] without the trailing
    [suffix], or [s] itself when it does not end in [suffix]. *)
Fixpoint TrimSuffix (s suffix : string) : string :=
  if String.eqb s suffix then EmptyString
  else match s with
       | EmptyString => EmptyString
       | String c s' =>
           if Nat.leb (String.length s) (String.length suffix) then s
           else String c (TrimSuffix s' suffix)
       end.

(** [s[n:]] for [n <= len(s)]. *)
Fixpoint drop (n : nat) (s : string) : string :=
  match n, s with
  | O, _ => s
  | S n', String _ s' => drop n' s'
  | S _, EmptyString => EmptyString
  end.

(** [strings.ReplaceAll(s, old, new)] for a non-empty [old]: the
    non-overlapping occurrences of [old], found left to right, are
    replaced by [new].  The program calls it with one-byte patterns
    only; an empty [old] (never passed) leaves [s] as it is here. *)
Fixpoint ReplaceAll_go (fuel : nat) (s old new : string) : string :=
  match fuel with
  | O => s
  | S fuel' =>
      match s with
      | EmptyString => EmptyString
      | String c s' =>
          if HasPrefix s old
          then new +:+ ReplaceAll_go fuel' (drop (String.length old) s) old new
          else String c (ReplaceAll_go fuel' s' old new)
      end
  end.

Definition ReplaceAll (s old new : string) : string :=
  match old with
  | EmptyString => s
  | _ => ReplaceAll_go (String.length s) s old new
  end.

End strings.

Module filepath.

Definition IsPathSeparator (c : ascii) : bool := Ascii.eqb c "/".

(** The loop of [filepath.Ext], over the bytes of the path from the
    last one backwards: [acc] holds the bytes already passed. *)
Fixpoint Ext_scan (backwards acc : list ascii) : list ascii :=
  match backwards with
  | [] => []
  | c :: rest =>
      if IsPathSeparator c then []
      else if Ascii.eqb c "." then c :: acc
      else Ext_scan rest (c :: acc)
  end.

(** [filepath.Ext(path)]: the suffix beginning at the final dot of
    the final element of [path]; empty if there is no dot. *)
Definition Ext (path : string) : string :=
  string_of_list_ascii (Ext_scan (rev (list_ascii_of_string path)) []).

Fixpoint strip_separators (backwards : list ascii) : list ascii :=
  match backwards with
  | c :: rest => if IsPathSeparator c then strip_separators rest else backwards
  | [] => []
  end.

Fixpoint last_element (backwards acc : list ascii) : list ascii :=
  match backwards with
  | [] => acc
  | c :: rest => if IsPathSeparator c then acc else last_element rest (c :: acc)
  end.

(** [filepath.Base(path)]: the last element of [path], trailing
    separators removed first; ["."] for the empty path and ["/"] for
    a path of separators only. *)
Definition Base (path : string) : string :=
  match path with
  | EmptyString => "."
  | _ =>
      match last_element (strip_separators (rev (list_ascii_of_string path))) [] with
      | [] => "/"
      | elem => string_of_list_ascii elem
      end
  end.

(** Splitting at separators: the elements of a path, empty ones
    included. *)
Fixpoint elements (s : string) (cur : string) : list string :=
  match s with
  | EmptyString => [cur]
  | String c s' =>
      if IsPathSeparator c then cur :: elements s' EmptyString
      else elements s' (cur +:+ String c EmptyString)
  end.

(** One step of [filepath.Clean] on the elements kept so far (last
    kept element first): empty and ["."] elements are dropped, and
    [".."] removes the element before it, unless there is none (then
    it is kept for a relative path and dropped for a rooted one) or
    that element is itself a kept [".."]. *)
Definition Clean_step (rooted : bool) (kept : list string) (e : string) : list string :=
  if String.eqb e "" || String.eqb e "." then kept
  else if String.eqb e ".." then
    match kept with
    | [] => if rooted then [] else [".."]
    | k :: kept' => if String.eqb k ".." then e :: kept else kept'
    end
  else e :: kept.

Fixpoint join_with (sep : string) (l : list string) : string :=
  match l with
  | [] => EmptyString
  | [e] => e
  | e :: l' => e +:+ sep +:+ join_with sep l'
  end.

(** [filepath.Clean(path)] for slash-separated paths: the shortest
    path equivalent to [path] by purely lexical processing. *)
Definition Clean (path : string) : string :=
  match path with
  | EmptyString => "."
  | String c _ =>
      let rooted := IsPathSeparator c in
      let kept := rev (fold_left (Clean_step rooted) (elements path EmptyString) []) in
      match kept, rooted with
      | [], false => "."
      | [], true => "/"
      | _, false => join_with "/" kept
      | _, true => "/" +:+ join_with "/" kept
      end
  end.

Fixpoint drop_empty (elem : list string) : list string :=
  match elem with
  | e :: rest => if String.eqb e "" then drop_empty rest else elem
  | [] => []
  end.

(** [filepath.Join(elem...)]: the elements from the first non-empty
    one on, joined by separators and cleaned; [""] when there is no
    non-empty element. *)
Definition Join (elem : list string) : string :=
  match drop_empty elem with
  | [] => EmptyString
  | l => Clean (join_with "/" l)
  end.

(** The bytes of [path] up to and including its last separator,
    given backwards. *)
Fixpoint upto_last_separator (backwards : list ascii) : list ascii :=
  match backwards with
  | c :: rest => if IsPathSeparator c then backwards else upto_last_separator rest
  | [] => []
  end.

(** [filepath.Dir(path)]: all but the last element of [path], cleaned. *)
Definition Dir (path : string) : string :=
  Clean (string_of_list_ascii
           (rev (upto_last_separator (rev (list_ascii_of_string path))))).

End filepath.

(** ** [sort.Slice]

    [loadPostsFromDirectory] sorts with [sort.Slice], which runs the
    pattern-defeating quicksort of Go's [sort] package
    ([pdqsort_func]) on the slice through the two operations
    [Less(i, j)] and [Swap(i, j)].  The slice is a list updated in
    place; loops carry their bound as fuel. *)

Module sort.
Section Slice.
Context {A : Type} (less : A -> A -> bool).

(** [data.Less(i, j)]: the caller's [less] on the elements now at
  [i] and [j]. *)
Definition Less (data : list A) (i j : nat) : bool :=
match data !! i, data !! j with
| Some x, Some y => less x y
| _, _ => false
end.

(** [data.Swap(i, j)]. *)
Definition Swap (data : list A) (i j : nat) : list A :=
match data !! i, data !! j with
| Some x, Some y => <[i:=y]> (<[j:=x]> data)
| _, _ => data
end.

(** [for j := i; j > a && data.Less(j, j-1); j-- { data.Swap(j, j-1) }] *)
Fixpoint insert_down (data : list A) (a j : nat) : list A :=
match j with
| O => data
| S j' =>
    if (a <? j) && Less data j j'
    then insert_down (Swap data j j') a j'
    else data
end.

(** [for i := a + 1; i < b; i++ { ... }], with [n] iterations left. *)
Fixpoint insertion_loop (data : list A) (a i n : nat) : list A :=
match n with
| O => data
| S n' => insertion_loop (insert_down data a i) a (S i) n'
end.

Definition insertionSort (data : list A) (a b : nat) : list A :=
insertion_loop data a (a + 1) (b - (a + 1)).

(** [siftDown]: restores the heap property below [lo] in
  [data[first+lo : first+hi]]. *)
Fixpoint siftDown_loop (fuel : nat) (data : list A) (root hi first : nat) : list A :=
match fuel with
| O => data
| S fuel' =>
    let child := 2 * root + 1 in
    if hi <=? child then data
    else
      let child :=
        if (child + 1 <? hi) && Less data (first + child) (first + child + 1)
        then child + 1 else child in
      if negb (Less data (first + root) (first + child)) then data
      else siftDown_loop fuel' (Swap data (first + root) (first + child)) child hi first
end.

Definition siftDown (data : list A) (lo hi first : nat) : list A :=
siftDown_loop hi data lo hi first.

(** [for i := (hi - 1) / 2; i >= 0; i-- { siftDown(data, i, hi, first) }] *)
Fixpoint heapify (data : list A) (i hi first : nat) : list A :=
let data := siftDown data i hi first in
match i with
| O => data
| S i' => heapify data i' hi first
end.

(** [for i := hi - 1; i >= 0; i-- { data.Swap(first, first+i); siftDown(data, lo, i, first) }],
  with [n] the number of iterations left, so [i = n - 1]. *)
Fixpoint popAll (data : list A) (n first : nat) : list A :=
match n with
| O => data
| S i => popAll (siftDown (Swap data first (first + i)) 0 i first) i first
end.

Definition heapSort (data : list A) (a b : nat) : list A :=
let first := a in
let hi := b - a in
popAll (heapify data ((hi - 1) / 2) hi first) hi first.

Inductive sortedHint : Type := unknownHint | increasingHint | decreasingHint.

(** [order2]: the two indices in the order of their elements,
  counting a swap when they were out of order. *)
Definition order2 (data : list A) (a b swaps : nat) : nat * nat * nat :=
if Less data b a then (b, a, S swaps) else (a, b, swaps).

(** [median]: the index, among [a], [b], [c], of the median element. *)
Definition median (data : list A) (a b c swaps : nat) : nat * nat :=
let '(a, b, swaps) := order2 data a b swaps in
let '(b, c, swaps) := order2 data b c swaps in
let '(a, b, swaps) := order2 data a b swaps in
(b, swaps).

Definition medianAdjacent (data : list A) (a swaps : nat) : nat * nat :=
median data (a - 1) a (a + 1) swaps.

Definition shortestNinther : nat := 50.
Definition maxSwaps : nat := 4 * 3.

Definition choosePivot (data : list A) (a b : nat) : nat * sortedHint :=
let l := b - a in
let swaps := 0 in
let i := a + l / 4 * 1 in
let j := a + l / 4 * 2 in
let k := a + l / 4 * 3 in
let '(j, swaps) :=
  if 8 <=? l then
    let '(i, j, k, swaps) :=
      if shortestNinther <=? l then
        let '(i, swaps) := medianAdjacent data i swaps in
        let '(j, swaps) := medianAdjacent data j swaps in
        let '(k, swaps) := medianAdjacent data k swaps in
        (i, j, k, swaps)
      else (i, j, k, swaps) in
    median data i j k swaps
  else (j, swaps) in
if swaps =? 0 then (j, increasingHint)
else if swaps =? maxSwaps then (j, decreasingHint)
else (j, unknownHint).

(** [for i < j { data.Swap(i, j); i++; j-- }] *)
Fixpoint reverse_loop (fuel : nat) (data : list A) (i j : nat) : list A :=
match fuel with
| O => data
| S fuel' =>
    if i <? j then reverse_loop fuel' (Swap data i j) (S i) (j - 1) else data
end.

Definition reverseRange (data : list A) (a b : nat) : list A :=
reverse_loop (b - a) data a (b - 1).

(** [for i < b && !data.Less(i, i-1) { i++ }] *)
Fixpoint skip_ordered (fuel : nat) (data : list A) (i b : nat) : nat :=
match fuel with
| O => i
| S fuel' =>
    if (i <? b) && negb (Less data i (i - 1))
    then skip_ordered fuel' data (S i) b else i
end.

(** [for j := i - 1; j >= 1; j-- { if !data.Less(j, j-1) { break }; data.Swap(j, j-1) }] *)
Fixpoint shift_left (data : list A) (j : nat) : list A :=
match j with
| O => data
| S j' => if negb (Less data j j') then data else shift_left (Swap data j j') j'
end.

(** [for j := i + 1; j < b; j++ { if !data.Less(j, j-1) { break }; data.Swap(j, j-1) }] *)
Fixpoint shift_right (fuel : nat) (data : list A) (j b : nat) : list A :=
match fuel with
| O => data
| S fuel' =>
    if j <? b then
      if negb (Less data j (j - 1)) then data
      else shift_right fuel' (Swap data j (j - 1)) (S j) b
    else data
end.

Definition maxSteps : nat := 5.
Definition shortestShifting : nat := 50.

Fixpoint partialInsertionSort_loop (steps : nat) (data : list A) (a b i : nat)
: list A * bool :=
match steps with
| O => (data, false)
| S steps' =>
    let i := skip_ordered (b - i) data i b in
    if i =? b then (data, true)
    else if b - a <? shortestShifting then (data, false)
    else
      let data := Swap data i (i - 1) in
      let data := if 2 <=? i - a then shift_left data (i - 1) else data in
      let data := if 2 <=? b - i then shift_right (b - (i + 1)) data (i + 1) b else data in
      partialInsertionSort_loop steps' data a b i
end.

(** [partialInsertionSort]: a few insertion steps; [true] when the
  range is sorted at the end. *)
Definition partialInsertionSort (data : list A) (a b : nat) : list A * bool :=
partialInsertionSort_loop maxSteps data a b (a + 1).

(** [bits.Len(x)]: the number of bits needed to write [x]. *)
Definition bits_Len (x : nat) : nat :=
match x with
| O => 0
| _ => S (Nat.log2 x)
end.

Definition uint64 (z : Z) : Z := (z mod 2 ^ 64)%Z.

(** [xorshift.Next]. *)
Definition xorshift_Next (r : Z) : Z :=
let r := Z.lxor r (uint64 (Z.shiftl r 13)) in
let r := Z.lxor r (Z.shiftr r 7) in
let r := Z.lxor r (uint64 (Z.shiftl r 17)) in
r.

Definition nextPowerOfTwo (length : nat) : Z :=
Z.shiftl 1 (Z.of_nat (bits_Len length)).

(** The three swaps of [breakPatterns], [n] of them left to do.  Which
  elements they move decides the order in which equivalent elements
  come out of a long slice; the properties proved of the sort use of
  [breakPatterns] only that it rearranges its range. *)
Fixpoint breakPatterns_loop (n : nat) (data : list A) (a length idx i : nat)
(random modulus : Z) : list A :=
match n with
| O => data
| S n' =>
    let random := xorshift_Next random in
    let other := Z.to_nat (Z.land random (modulus - 1)) in
    let other := if length <=? other then other - length else other in
    breakPatterns_loop n' (Swap data (idx - 1 + i) (a + other)) a length idx (S i)
      random modulus
end.

Definition breakPatterns (data : list A) (a b : nat) : list A :=
let length := b - a in
if 8 <=? length then
  let random := Z.of_nat length in
  let modulus := nextPowerOfTwo length in
  let idx := a + length / 4 * 2 - 1 in
  breakPatterns_loop 3 data a length idx 0 random modulus
else data.

(** [for i <= j && data.Less(i, a) { i++ }] *)
Fixpoint scan_up (P : nat -> bool) (fuel i j : nat) : nat :=
match fuel with
| O => i
| S fuel' => if (i <=? j) && P i then scan_up P fuel' (S i) j else i
end.

(** [for i <= j && !data.Less(j, a) { j-- }]; the index may step
  below zero in Go only when [a = 0] and [i = 0], which does not
  occur since [i > a]. *)
Fixpoint scan_down (P : nat -> bool) (fuel i j : nat) : nat :=
match fuel with
| O => j
| S fuel' => if (i <=? j) && P j then scan_down P fuel' i (j - 1) else j
end.

(** The main loop of [partition] and [partitionEqual]: [below i]
  holds for the elements that stay left, [above j] for those that
  stay right. *)
Fixpoint partition_loop (fuel : nat) (data : list A) (a i j : nat)
(equal : bool) : list A * nat * nat :=
match fuel with
| O => (data, i, j)
| S fuel' =>
    let below := fun k => if equal then negb (Less data a k) else Less data k a in
    let above := fun k => if equal then Less data a k else negb (Less data k a) in
    let i := scan_up below (S j - i) i j in
    let j := scan_down above (S j - i) i j in
    if j <? i then (data, i, j)
    else partition_loop fuel' (Swap data i j) a (S i) (j - 1) equal
end.

(** [partition]: one quicksort partition of [data[a:b]] around
  [data[pivot]]; returns the pivot's new index and whether the
  range was already partitioned. *)
Definition partition (data : list A) (a b pivot : nat) : list A * nat * bool :=
let data := Swap data a pivot in
let i := a + 1 in
let j := b - 1 in
let i := scan_up (fun k => Less data k a) (S j - i) i j in
let j := scan_down (fun k => negb (Less data k a)) (S j - i) i j in
if j <? i then (Swap data j a, j, true)
else
  let data := Swap data i j in
  let '(data, i, j) := partition_loop (b - a) data a (S i) (j - 1) false in
  (Swap data j a, j, false).

(** [partitionEqual]: the elements equal to [data[pivot]] first,
  then the greater ones; returns the index of the first greater
  one. *)
Definition partitionEqual (data : list A) (a b pivot : nat) : list A * nat :=
let data := Swap data a pivot in
let '(data, i, j) := partition_loop (S (b - a)) data a (a + 1) (b - 1) true in
(data, i).

Definition maxInsertion : nat := 12.

(** [pdqsort_func(data, a, b, limit)]; the two flags are the loop's
  local variables, and the loop continues by a call on the rest of
  the range. *)
Fixpoint pdqsort_func (fuel : nat) (data : list A) (a b limit : nat)
(wasBalanced wasPartitioned : bool) : list A :=
let length := b - a in
if length <=? maxInsertion then insertionSort data a b
else if limit =? 0 then heapSort data a b
else
  match fuel with
  | O => data
  | S fuel' =>
      let '(data, limit) :=
        if negb wasBalanced then (breakPatterns data a b, limit - 1)
        else (data, limit) in
      let '(pivot, hint) := choosePivot data a b in
      let '(data, pivot, hint) :=
        match hint with
        | decreasingHint =>
            (reverseRange data a b, (b - 1) - (pivot - a), increasingHint)
        | _ => (data, pivot, hint)
        end in
      let '(data, sorted) :=
        match wasBalanced && wasPartitioned, hint with
        | true, increasingHint => partialInsertionSort data a b
        | _, _ => (data, false)
        end in
      if sorted then data
      else if (0 <? a) && negb (Less data (a - 1) pivot) then
        let '(data, mid) := partitionEqual data a b pivot in
        pdqsort_func fuel' data mid b limit wasBalanced wasPartitioned
      else
        let '(data, mid, alreadyPartitioned) := partition data a b pivot in
        let leftLen := mid - a in
        let rightLen := b - mid in
        let balanceThreshold := length / 8 in
        if leftLen <? rightLen then
          let data := pdqsort_func fuel' data a mid limit true true in
          pdqsort_func fuel' data (mid + 1) b limit
            (balanceThreshold <=? leftLen) alreadyPartitioned
        else
          let data := pdqsort_func fuel' data (mid + 1) b limit true true in
          pdqsort_func fuel' data a mid limit
            (balanceThreshold <=? rightLen) alreadyPartitioned
  end.

(** [sort.Slice(x, less)]. *)
Definition Slice (x : list A) : list A :=
let length := List.length x in
let limit := bits_Len length in
pdqsort_func length x 0 length limit true true.

End Slice.
End sort.

(** ** The data model of [main.go] *)

(** [PostFrontmatter]: the front matter of a Markdown file. *)
Record PostFrontmatter : Type := mkPostFrontmatter {
  fm_Title : string;
  fm_Date : Time
}.

Definition PostFrontmatter_zero : PostFrontmatter := mkPostFrontmatter "" Time_zero.

(** [PostData]: a blog post; [Content] is the HTML converted from
    Markdown. *)
Record PostData : Type := mkPostData {
  Title : string;
  Date : Time;
  Slug : string;
  Content : string
}.

Definition PostData_zero : PostData := mkPostData "" Time_zero "" "".

(** [TemplateData]: what a listing template receives. *)
Record TemplateData : Type := mkTemplateData {
  td_Title : string;
  Posts : list PostData
}.

(** The anonymous struct [AboutHandler] passes to its template. *)
Record PageData : Type := mkPageData {
  page_Title : string;
  page_Content : string
}.

(** The values the program hands to [tmpl.Execute]. *)
Inductive TemplateArg : Type :=
  | ArgPost (post : PostData)
  | ArgListing (data : TemplateData)
  | ArgPage (data : PageData).

(** [url.URL], of which the program reads only [Path]; and
    [http.Request], whose [URL] pointer may be nil. *)
Record URL : Type := mkURL { Path : string }.
Record Request : Type := mkRequest { req_URL : option URL }.

(** ** The packages the program calls into

    Each field stands for one routine of an imported package.  A
    routine that reads the disk takes the disk's state [FS]; one that
    writes it returns the new state. *)
Class Collaborators : Type := {
  FS : Type;
  (** [os.ReadFile(name)] *)
  os_ReadFile : FS -> string -> string * option error;
  (** [os.Stat(name)] *)
  os_Stat : FS -> string -> FileInfo * option error;
  (** [filepath.Glob(pattern)] *)
  filepath_Glob : FS -> string -> list string * option error;
  (** [os.MkdirAll(path, 0755)] *)
  os_MkdirAll : FS -> string -> FS * option error;
  (** [os.WriteFile(name, data, 0644)] *)
  os_WriteFile : FS -> string -> string -> FS * option error;
  (** [frontmatter.Parse(reader, &fm)] on a zero [fm]: the rest of the
      document, what was decoded into [fm], and the error. *)
  frontmatter_Parse : string -> string * PostFrontmatter * option error;
  (** [goldmark.New(...).Convert(source, &buf)]: the bytes left in
      [buf], and the error. *)
  goldmark_Convert : string -> string * option error;
  (** [cases.Title(language.English).String(s)] *)
  cases_Title : string -> string;
  Template : Type;
  (** [template.ParseFiles(filenames...)] *)
  template_ParseFiles : FS -> list string -> Template * option error;
  (** [tmpl.Execute(w, data)]: the bytes written to [w], and the error. *)
  template_Execute : Template -> TemplateArg -> string * option error;
  (** [url.Parse(rawURL)]: a nil URL comes with an error. *)
  url_Parse : string -> option URL * option error
}.

(** ** [http.ResponseWriter] and its two implementations *)

Abbreviation HeaderMap := (gmap string string).

Class ResponseWriter (W : Type) : Type := {
  (** [w.Header()], and the effect of changing the map it returns *)
  Header : W -> HeaderMap;
  set_Header : W -> HeaderMap -> W;
  (** [w.Write(b)] *)
  Write : W -> string -> W;
  (** [w.WriteHeader(statusCode)] *)
  WriteHeader : W -> Z -> W
}.

Definition StatusOK : Z := 200.
Definition StatusNotFound : Z := 404.
Definition StatusInternalServerError : Z := 500.

(** [mockResponseWriter]: the minimal writer static generation uses. *)
Record mockResponseWriter : Type := mkMock {
  buf : string;
  header : HeaderMap;
  status : Z
}.

#[export] Instance mockResponseWriter_ResponseWriter : ResponseWriter mockResponseWriter := {
  Header m := header m;
  set_Header m h := mkMock (buf m) h (status m);
  Write m b := mkMock (buf m +:+ b) (header m) (status m);
  WriteHeader m statusCode := mkMock (buf m) (header m) statusCode
}.

(** [responseWriter]: wraps a [ResponseWriter]; the embedded
    interface's methods are promoted unchanged. *)
Record responseWriter (W : Type) : Type := mkResponseWriter { inner : W }.
Arguments mkResponseWriter {W} _.
Arguments inner {W} _.

#[export] Instance responseWriter_ResponseWriter {W} `{ResponseWriter W}
  : ResponseWriter (responseWriter W) := {
  Header w := Header (inner w);
  set_Header w h := mkResponseWriter (set_Header (inner w) h);
  Write w b := mkResponseWriter (Write (inner w) b);
  WriteHeader w statusCode := mkResponseWriter (WriteHeader (inner w) statusCode)
}.

(** The writer [net/http] hands to a handler in live mode: the status
    line goes out with the first [WriteHeader], or with the first
    [Write] (as 200) when there was none; a later [WriteHeader] is
    ignored. *)
Record liveResponse : Type := mkLive {
  wroteHeader : bool;
  live_status : Z;
  live_header : HeaderMap;
  live_body : string
}.

Definition liveResponse_new : liveResponse := mkLive false 0 ∅ "".

Definition live_WriteHeader (w : liveResponse) (statusCode : Z) : liveResponse :=
  if wroteHeader w then w
  else mkLive true statusCode (live_header w) (live_body w).

#[export] Instance liveResponse_ResponseWriter : ResponseWriter liveResponse := {
  Header w := live_header w;
  set_Header w h := mkLive (wroteHeader w) (live_status w) h (live_body w);
  Write w b :=
    let w := live_WriteHeader w StatusOK in
    mkLive (wroteHeader w) (live_status w) (live_header w) (live_body w +:+ b);
  WriteHeader := live_WriteHeader
}.

(** What running a handler leaves: it returned, or it panicked. *)
Inductive outcome (W : Type) : Type :=
  | Returned (w : W)
  | Panicked (w : W).
Arguments Returned {W} _.
Arguments Panicked {W} _.

Section Blog.
Context `{Collaborators}.

(** [CleanTitle]: the file name without its extension, dashes and
    underscores turned into spaces, each word capitalised. *)
Definition CleanTitle (filename : string) : string :=
  let title := strings.TrimSuffix filename (filepath.Ext filename) in
  let title := strings.ReplaceAll title "-" " " in
  let title := strings.ReplaceAll title "_" " " in
  let title := cases_Title title in
  title.

(** The front-matter step of [LoadPostFromFile]: when parsing
    fails, the loader continues with the bytes as read and an empty
    front matter. *)
Definition parseFrontmatter (mdBytes : string) : string * PostFrontmatter :=
  let '(remainingMd, fm, err) := frontmatter_Parse mdBytes in
  match err with
  | Some _ => (mdBytes, PostFrontmatter_zero)
  | None => (remainingMd, fm)
  end.

(** [LoadPostFromFile]: loads a post from a file, parsing front
    matter for title and date. *)
Definition LoadPostFromFile (fs : FS) (filePath : string) : PostData * option error :=
  let '(mdBytes, err) := os_ReadFile fs filePath in
  match err with
  | Some e => (PostData_zero, Some e)
  | None =>
      let '(remainingMd, fm) := parseFrontmatter mdBytes in
      let '(fileInfo, err) := os_Stat fs filePath in
      match err with
      | Some e => (PostData_zero, Some e)
      | None =>
          let filename := filepath.Base filePath in
          let slug := strings.TrimSuffix filename (filepath.Ext filename) in
          let title := fm_Title fm in
          let title := if String.eqb title "" then CleanTitle filename else title in
          let date := fm_Date fm in
          let date := if IsZero date then ModTime fileInfo else date in
          let '(html, err) := goldmark_Convert remainingMd in
          match err with
          | Some e => (PostData_zero, Some e)
          | None => (mkPostData title date slug html, None)
          end
      end
  end.

(** [RenderMarkdown]: [None] when it panics (on a conversion error). *)
Definition RenderMarkdown (fs : FS) (filePath : string) : option (string * option error) :=
  let '(mdBytes, err) := os_ReadFile fs filePath in
  match err with
  | Some e => Some ("", Some e)
  | None =>
      let '(remainingMd, _, err) := frontmatter_Parse mdBytes in
      let remainingMd := match err with Some _ => mdBytes | None => remainingMd end in
      let '(html, err) := goldmark_Convert remainingMd in
      match err with
      | Some _ => None
      | None => Some (html, None)
      end
  end.

(** The loop of [loadPostsFromDirectory] over the matched files;
    [posts] is the slice appended to. *)
Fixpoint loadPosts_loop (fs : FS) (files : list string) (posts : list PostData)
  : list PostData * option error :=
  match files with
  | [] => (posts, None)
  | file :: files' =>
      let '(post, err) := LoadPostFromFile fs file in
      match err with
      | Some e => ([], Some e)
      | None => loadPosts_loop fs files' (posts ++ [post])
      end
  end.

(** The [less] closure handed to [sort.Slice]. *)
Definition byDateDesc (p q : PostData) : bool := After (Date p) (Date q).

Definition loadPostsFromDirectory (fs : FS) (pattern : string)
  : list PostData * option error :=
  let '(files, err) := filepath_Glob fs pattern in
  match err with
  | Some e => ([], Some e)
  | None =>
      let '(posts, err) := loadPosts_loop fs files [] in
      match err with
      | Some e => ([], Some e)
      | None => (sort.Slice byDateDesc posts, None)
      end
  end.

Definition LoadBlogPosts (fs : FS) := loadPostsFromDirectory fs "posts/*.md".
Definition LoadThoughtsPosts (fs : FS) := loadPostsFromDirectory fs "thoughts/*.md".

(** [LoadPost]: the post of a slug, looked up under [posts] and
    then under [thoughts]. *)
Definition LoadPost (fs : FS) (slug : string) : PostData * option error :=
  let file := filepath.Join ["posts"; slug +:+ ".md"] in
  let '(_, err) := os_Stat fs file in
  if os_IsNotExist err then
    let file := filepath.Join ["thoughts"; slug +:+ ".md"] in
    let '(_, err) := os_Stat fs file in
    if os_IsNotExist err then (PostData_zero, err)
    else LoadPostFromFile fs file
  else LoadPostFromFile fs file.

Section Handlers.
Context {W : Type} `{ResponseWriter W}.

(** [w.Header().Set(key, value)] and [w.Header().Del(key)]. *)
Definition Header_Set (w : W) (key value : string) : W :=
  set_Header w (<[key:=value]> (Header w)).
Definition Header_Del (w : W) (key : string) : W :=
  set_Header w (delete key (Header w)).

(** [http.Error(w, error, code)]. *)
Definition http_Error (w : W) (msg : string) (code : Z) : W :=
  let w := Header_Del w "Content-Length" in
  let w := Header_Set w "Content-Type" "text/plain; charset=utf-8" in
  let w := Header_Set w "X-Content-Type-Options" "nosniff" in
  let w := WriteHeader w code in
  Write w (msg +:+ String "010" "").

(** [tmpl.Execute(w, data)] as [w] sees it.  The template writes to
    [w] while it runs, so that what it wrote before an error stays
    written; an execution that fails before it has a byte to write has
    not called [w.Write].  After an execution without error the writer
    is taken as having been written to, which for a page without
    bytes is how the server completes the response. *)
Definition tmpl_Execute (w : W) (tmpl : Template) (data : TemplateArg)
  : W * option error :=
  let '(out, err) := template_Execute tmpl data in
  match err, out with
  | Some _, EmptyString => (w, err)
  | _, _ => (Write w out, err)
  end.

(** [PostHandler].  Reading [r.URL.Path] through a nil [URL], or
    slicing a path shorter than the prefix, panics, and so does
    [template.Must] on a parse error. *)
Definition PostHandler (fs : FS) (w : W) (r : Request) : outcome W :=
  let w := Header_Set w "Content-Type" "text/html; charset=utf-8" in
  match req_URL r with
  | None => Panicked w
  | Some u =>
      if String.length (Path u) <? String.length "/post/" then Panicked w
      else
        let slug := strings.drop (String.length "/post/") (Path u) in
        let '(post, err) := LoadPost fs slug in
        match err with
        | Some _ => Returned (http_Error w "Post not found" StatusNotFound)
        | None =>
            let '(tmpl, err) :=
              template_ParseFiles fs
                [filepath.Join ["templates"; "base.gohtml"];
                 filepath.Join ["templates"; "post.gohtml"]] in
            match err with
            | Some _ => Panicked w
            | None =>
                let '(w, err) := tmpl_Execute w tmpl (ArgPost post) in
                match err with
                | Some _ =>
                    Returned (http_Error w "Error executing template"
                                StatusInternalServerError)
                | None => Returned w
                end
            end
        end
  end.

(** [postsHandler]: the generic handler of the listing pages.  Its
    two log lines go to the process's standard error and are left
    out. *)
Definition postsHandler (fs : FS) (w : W)
  (loadPosts : FS -> list PostData * option error) (title templateName : string)
  : outcome W :=
  let '(posts, err) := loadPosts fs in
  match err with
  | Some _ => Returned (http_Error w "Error loading posts" StatusInternalServerError)
  | None =>
      let data := mkTemplateData title posts in
      let '(tmpl, err) :=
        template_ParseFiles fs
          [filepath.Join ["templates"; "base.gohtml"];
           filepath.Join ["templates"; templateName]] in
      match err with
      | Some _ => Panicked w
      | None =>
          let '(w, err) := tmpl_Execute w tmpl (ArgListing data) in
          match err with
          | Some _ =>
              Returned (http_Error w "Error executing template"
                          StatusInternalServerError)
          | None => Returned w
          end
      end
  end.

Definition HomeHandler (fs : FS) (w : W) (r : Request) : outcome W :=
  postsHandler fs w LoadBlogPosts "Home" "home.gohtml".

Definition ThoughtsHandler (fs : FS) (w : W) (r : Request) : outcome W :=
  postsHandler fs w LoadThoughtsPosts "Thoughts" "thoughts.gohtml".

Definition AboutHandler (fs : FS) (w : W) (r : Request) : outcome W :=
  match RenderMarkdown fs "nav/about.md" with
  | None => Panicked w
  | Some (content, err) =>
      match err with
      | Some _ => Returned (http_Error w "Error loading about page" StatusInternalServerError)
      | None =>
          let data := mkPageData "About Me" content in
          let '(tmpl, err) :=
            template_ParseFiles fs
              [filepath.Join ["templates"; "base.gohtml"];
               filepath.Join ["templates"; "about.gohtml"]] in
          match err with
          | Some _ => Panicked w
          | None =>
              let '(w, err) := tmpl_Execute w tmpl (ArgPage data) in
              match err with
              | Some _ =>
                  Returned (http_Error w "Error executing template"
                              StatusInternalServerError)
              | None => Returned w
              end
          end
      end
  end.
End Handlers.

(** *** Static generation *)

(** The disk during a generation run, with the files written so far
    (path and bytes of each [os.WriteFile] that returned no error,
    oldest first). *)
Record Disk : Type := mkDisk {
  disk_fs : FS;
  written : list (string * string)
}.

(** A step of the run: it finishes with a value, or the process dies
    in a panic. *)
Inductive run (A : Type) : Type :=
  | Completed (a : A) (d : Disk)
  | Crashed (d : Disk).
Arguments Completed {A} _ _.
Arguments Crashed {A} _.

(** [if err := step; err != nil { return err }; rest]. *)
Definition orReturn (step rest : Disk -> run (option error)) (d : Disk)
  : run (option error) :=
  match step d with
  | Crashed d' => Crashed d'
  | Completed (Some e) d' => Completed (Some e) d'
  | Completed None d' => rest d'
  end.

Definition PageWriter : Type := responseWriter mockResponseWriter.

(** [generatePage]: runs a handler against a buffer and writes the
    buffer to [outputDir/filename]. *)
Definition generatePage (outputDir filename : string)
  (handler : FS -> PageWriter -> outcome PageWriter * option error) (d : Disk)
  : run (option error) :=
  let w := mkResponseWriter (mkMock "" ∅ 0) in
  match handler (disk_fs d) w with
  | (Panicked _, _) => Crashed d
  | (Returned _, Some e) => Completed (Some e) d
  | (Returned w, None) =>
      let outputPath := filepath.Join [outputDir; filename] in
      let '(fs, err) := os_MkdirAll (disk_fs d) (filepath.Dir outputPath) in
      match err with
      | Some e => Completed (Some e) (mkDisk fs (written d))
      | None =>
          let bytes := buf (inner w) in
          let '(fs, err) := os_WriteFile fs outputPath bytes in
          match err with
          | Some e => Completed (Some e) (mkDisk fs (written d))
          | None => Completed None (mkDisk fs (written d ++ [(outputPath, bytes)]))
          end
      end
  end.

(** The body of the two loops of [GenerateStaticSite] over the
    Markdown files of a directory. *)
Definition generatePostPage (outputDir file : string) : Disk -> run (option error) :=
  let slug := strings.TrimSuffix (filepath.Base file) (filepath.Ext file) in
  let postPath := filepath.Join ["post"; slug; "index.html"] in
  let '(reqURL, _) := url_Parse ("/post/" +:+ slug) in
  let req := mkRequest reqURL in
  generatePage outputDir postPath (fun fs w => (PostHandler fs w req, None)).

Fixpoint generatePostPages (outputDir : string) (files : list string)
  : Disk -> run (option error) :=
  match files with
  | [] => fun d => Completed None d
  | file :: files' =>
      orReturn (generatePostPage outputDir file) (generatePostPages outputDir files')
  end.

(** [files, err := filepath.Glob(pattern)] and the loop over [files]. *)
Definition generateDirectory (outputDir pattern : string) (d : Disk)
  : run (option error) :=
  let '(files, err) := filepath_Glob (disk_fs d) pattern in
  match err with
  | Some e => Completed (Some e) d
  | None => generatePostPages outputDir files d
  end.

(** [GenerateStaticSite]: generates static HTML files for all pages. *)
Definition GenerateStaticSite (outputDir : string) (d : Disk) : run (option error) :=
  let emptyRequest := mkRequest None in
  orReturn
    (fun d =>
       let '(fs, err) := os_MkdirAll (disk_fs d) outputDir in
       Completed err (mkDisk fs (written d)))
    (orReturn
       (generatePage outputDir "index.html"
          (fun fs w => (HomeHandler fs w emptyRequest, None)))
       (orReturn
          (generatePage outputDir "about.html"
             (fun fs w => (AboutHandler fs w emptyRequest, None)))
          (orReturn
             (generatePage outputDir "thoughts.html"
                (fun fs w => (ThoughtsHandler fs w emptyRequest, None)))
             (orReturn
                (generateDirectory outputDir "posts/*.md")
                (generateDirectory outputDir "thoughts/*.md")))))
    d.

(** *** Notions the properties are stated with *)

(** A file that loads. *)
Definition loads (fs : FS) (file : string) : Prop :=
  snd (LoadPostFromFile fs file) = None.

(** The two places [LoadPost] looks a slug up. *)
Definition primaryPath (slug : string) : string :=
  filepath.Join ["posts"; slug +:+ ".md"].
Definition secondaryPath (slug : string) : string :=
  filepath.Join ["thoughts"; slug +:+ ".md"].

(** The request [net/http] routes to [PostHandler] for a slug. *)
Definition postRequest (slug : string) : Request :=
  mkRequest (Some (mkURL ("/post/" +:+ slug))).
(** The slug [GenerateStaticSite] derives from a matched file, the
    path it writes that file's page to, and the request it hands to
    [PostHandler]. *)
Definition slugOf (file : string) : string :=
  strings.TrimSuffix (filepath.Base file) (filepath.Ext file).
Definition postOutputPath (outputDir file : string) : string :=
  filepath.Join [outputDir; filepath.Join ["post"; slugOf file; "index.html"]].
Definition requestFor (file : string) : Request :=
  mkRequest (fst (url_Parse ("/post/" +:+ slugOf file))).

(** The Markdown files of the two content directories, as listed. *)
Definition contentFiles (fs : FS) : list string :=
  fst (filepath_Glob fs "posts/*.md") ++ fst (filepath_Glob fs "thoughts/*.md").

(** The files a generation run reads: the about page, the content
    files, and the two places [LoadPost] looks each requested slug up. *)
Definition lookupPaths (r : Request) : list string :=
  match req_URL r with
  | None => []
  | Some u =>
      let slug := strings.drop (String.length "/post/") (Path u) in
      [primaryPath slug; secondaryPath slug]
  end.
Definition sourcePaths (fs : FS) : list string :=
  "nav/about.md" :: contentFiles fs
  ++ flat_map (fun file => lookupPaths (requestFor file)) (contentFiles fs).

Definition templatePages : list string :=
  ["home.gohtml"; "about.gohtml"; "thoughts.gohtml"; "post.gohtml"].
Definition templateFiles (page : string) : list string :=
  [filepath.Join ["templates"; "base.gohtml"]; filepath.Join ["templates"; page]].

(** Unchanged inputs: the disk [fs] shows the same Markdown files,
    with the same bytes and modification times, and the same
    templates as the disk [fs0]. *)
Record same_sources (fs0 fs : FS) : Prop := {
  same_posts : filepath_Glob fs "posts/*.md" = filepath_Glob fs0 "posts/*.md";
  same_thoughts : filepath_Glob fs "thoughts/*.md" = filepath_Glob fs0 "thoughts/*.md";
  same_read : forall p, p ∈ sourcePaths fs0 -> os_ReadFile fs p = os_ReadFile fs0 p;
  same_stat : forall p, p ∈ sourcePaths fs0 -> os_Stat fs p = os_Stat fs0 p;
  same_templates : forall page, page ∈ templatePages ->
    template_ParseFiles fs (templateFiles page) = template_ParseFiles fs0 (templateFiles page)
}.

(** The files a generation run writes. *)
Definition outputPaths (fs0 : FS) (outputDir : string) : list string :=
  map (fun name => filepath.Join [outputDir; name]) ["index.html"; "about.html"; "thoughts.html"]
  ++ map (postOutputPath outputDir) (contentFiles fs0).

(** The output tree lies apart from the inputs: creating the output
    directories and writing the output files leaves the inputs as
    they are. *)
Definition output_apart (fs0 : FS) (outputDir : string) : Prop :=
  forall fs, same_sources fs0 fs ->
    same_sources fs0 (fst (os_MkdirAll fs outputDir)) /\
    forall p, p ∈ outputPaths fs0 outputDir ->
      same_sources fs0 (fst (os_MkdirAll fs (filepath.Dir p))) /\
      forall bytes, same_sources fs0 (fst (os_WriteFile fs p bytes)).

(** The bytes a handler has put into its buffer. *)
Definition bytesOf (o : outcome PageWriter) : string :=
  match o with
  | Returned w | Panicked w => buf (inner w)
  end.

Definition freshWriter : PageWriter := mkResponseWriter (mkMock "" ∅ 0).

(** The site as the spec describes it: the home page at [index.html],
    the two named pages, and one [post/<slug>/index.html] for every
    Markdown file of [posts] and then of [thoughts]. *)
Definition expectedSite (fs0 : FS) (outputDir : string) : list (string * string) :=
  [ (filepath.Join [outputDir; "index.html"],
      bytesOf (HomeHandler fs0 freshWriter (mkRequest None)));
    (filepath.Join [outputDir; "about.html"],
      bytesOf (AboutHandler fs0 freshWriter (mkRequest None)));
    (filepath.Join [outputDir; "thoughts.html"],
      bytesOf (ThoughtsHandler fs0 freshWriter (mkRequest None))) ]
  ++ map (fun file => (postOutputPath outputDir file,
                       bytesOf (PostHandler fs0 freshWriter (requestFor file))))
       (contentFiles fs0).
End Blog.

Arguments Completed {_ _} _ _.
Arguments Crashed {_ _} _.

(** ** A small site to run the program on

    A disk of a few files, listed in directory order, with stand-ins
    for the imported packages that are simple enough to evaluate. *)

Module Fixture.

Definition nl : string := String "010" "".

Record File : Type := mkFile {
  content : string;
  mtime : Time;
  read_err : option error;
  stat_err : option error
}.

Definition Files : Type := list (string * File).

Fixpoint lookup (fs : Files) (name : string) : option File :=
  match fs with
  | [] => None
  | (n, f) :: fs' => if String.eqb n name then Some f else lookup fs' name
  end.

Fixpoint store (fs : Files) (name : string) (f : File) : Files :=
  match fs with
  | [] => [(name, f)]
  | (n, g) :: fs' => if String.eqb n name then (n, f) :: fs' else (n, g) :: store fs' name f
  end.

Definition ReadFile (fs : Files) (name : string) : string * option error :=
  match lookup fs name with
  | None => ("", Some (ErrNotExist name))
  | Some f =>
      match read_err f with
      | Some e => ("", Some e)
      | None => (content f, None)
      end
  end.

Definition Stat (fs : Files) (name : string) : FileInfo * option error :=
  match lookup fs name with
  | None => (FileInfo_zero, Some (ErrNotExist name))
  | Some f =>
      match stat_err f with
      | Some e => (FileInfo_zero, Some e)
      | None => (mkFileInfo (mtime f), None)
      end
  end.

Fixpoint contains (c : ascii) (s : string) : bool :=
  match s with
  | EmptyString => false
  | String d s' => Ascii.eqb c d || contains c s'
  end.

Definition HasSuffix (s suffix : string) : bool :=
  negb (String.eqb (strings.TrimSuffix s suffix) s) || String.eqb suffix "".

(** Patterns of the shape [dir/*.ext], the only ones the program uses. *)
Definition matches (dir ext name : string) : bool :=
  strings.HasPrefix name dir && HasSuffix name ext
  && (String.length dir + String.length ext <=? String.length name)
  && negb (contains "/" (strings.drop (String.length dir) name)).

(** [filepath.Glob] returns the names it matched sorted, byte by byte. *)
Fixpoint insert_name (name : string) (names : list string) : list string :=
  match names with
  | [] => [name]
  | n :: names' =>
      if String.leb name n then name :: names else n :: insert_name name names'
  end.

Definition sorted_names (names : list string) : list string :=
  fold_right insert_name [] names.

Definition Glob (fs : Files) (pattern : string) : list string * option error :=
  if String.eqb pattern "posts/*.md"
  then (sorted_names (filter (fun n => matches "posts/" ".md" n = true) (map fst fs)), None)
  else if String.eqb pattern "thoughts/*.md"
  then (sorted_names (filter (fun n => matches "thoughts/" ".md" n = true) (map fst fs)), None)
  else ([], Some (ErrOther "syntax error in pattern")).

Definition MkdirAll (fs : Files) (path : string) : Files * option error := (fs, None).

Definition WriteFile (fs : Files) (name data : string) : Files * option error :=
  match lookup fs name with
  | Some f =>
      match read_err f with
      | Some e => (fs, Some e)
      | None => (store fs name (mkFile data (mkTime 2 0) None None), None)
      end
  | None => (store fs name (mkFile data (mkTime 2 0) None None), None)
  end.

(** The part of [s] before the first [c] and what follows it. *)
Fixpoint cut_at (c : ascii) (s : string) : string * option string :=
  match s with
  | EmptyString => ("", None)
  | String d s' =>
      if Ascii.eqb d c then ("", Some s')
      else let '(before, rest) := cut_at c s' in (String d before, rest)
  end.

(** The first line of [s] and what follows its newline. *)
Definition cut_line (s : string) : string * option string := cut_at "010" s.

Fixpoint digits (s : string) (acc : Z) : option Z :=
  match s with
  | EmptyString => Some acc
  | String c s' =>
      let n := nat_of_ascii c in
      if (48 <=? n) && (n <=? 57) then digits s' (acc * 10 + Z.of_nat (n - 48))%Z
      else None
  end.

Definition number (s : string) : option Z :=
  if String.eqb s "" then None else digits s 0.

(** The days from the first of January of year 1 to a day of the
    proleptic Gregorian calendar. *)
Definition civil_days (y m d : Z) : Z :=
  let y := if (m <=? 2)%Z then (y - 1)%Z else y in
  let era := (y / 400)%Z in
  let yoe := (y - era * 400)%Z in
  let doy := ((153 * ((m + 9) mod 12) + 2) / 5 + d - 1)%Z in
  let doe := (yoe * 365 + yoe / 4 - yoe / 100 + doy)%Z in
  (era * 146097 + doe - 306)%Z.

(** A date of the form [YYYY-MM-DD], at midnight UTC. *)
Definition parse_date (s : string) : option Time :=
  match cut_at "-" s with
  | (year, Some s') =>
      match cut_at "-" s' with
      | (month, Some day) =>
          match number year, number month, number day with
          | Some y, Some m, Some d =>
              if ((1 <=? m) && (m <=? 12) && (1 <=? d) && (d <=? 31))%Z
              then Some (mkTime (civil_days y m d * 86400) 0)
              else None
          | _, _, _ => None
          end
      | _ => None
      end
  | _ => None
  end.

(** The lines of a block up to the line of three dashes that closes
    it, and what follows that line; [None] for a block that is never
    closed. *)
Fixpoint block_lines (fuel : nat) (s : string) : option (list string * string) :=
  match fuel with
  | O => None
  | S fuel' =>
      match cut_line s with
      | (_, None) => None
      | (line, Some rest) =>
          if String.eqb line "---" then Some ([], rest)
          else match block_lines fuel' rest with
               | Some (lines, rest') => Some (line :: lines, rest')
               | None => None
               end
      end
  end.

(** Decoding the lines of a block: [title: ...] and
    [date: YYYY-MM-DD] are read, other keys and empty lines are
    skipped; a line without a key, or a date that is none, is an
    error. *)
Fixpoint decode (lines : list string) (fm : PostFrontmatter)
  : PostFrontmatter * option error :=
  match lines with
  | [] => (fm, None)
  | line :: lines' =>
      if String.eqb line "" then decode lines' fm
      else
        match cut_at ":" line with
        | (_, None) => (fm, Some (ErrOther "could not find expected ':'"))
        | (key, Some value) =>
            let value := if strings.HasPrefix value " " then strings.drop 1 value else value in
            if String.eqb key "title"
            then decode lines' (mkPostFrontmatter value (fm_Date fm))
            else if String.eqb key "date"
            then match parse_date value with
                 | Some t => decode lines' (mkPostFrontmatter (fm_Title fm) t)
                 | None => (fm, Some (ErrOther "cannot unmarshal into time.Time"))
                 end
            else decode lines' fm
        end
  end.

(** Front matter is a block between two lines of three dashes at the
    start of the document.  A document without such a block, also one
    whose block is never closed, has no front matter and is returned
    whole; a block that does not decode is an error. *)
Definition Parse (doc : string) : string * PostFrontmatter * option error :=
  if strings.HasPrefix doc ("---" +:+ nl)
  then match block_lines (String.length doc) (strings.drop 4 doc) with
       | None => (doc, PostFrontmatter_zero, None)
       | Some (lines, rest) =>
           match decode lines PostFrontmatter_zero with
           | (fm, Some e) => ("", fm, Some e)
           | (fm, None) => (rest, fm, None)
           end
       end
  else (doc, PostFrontmatter_zero, None).

(** Conversion wraps the source in a paragraph; like the converter
    the program configures, writing to a buffer, it does not fail. *)
Definition Convert (source : string) : string * option error :=
  ("<p>" +:+ source +:+ "</p>", None).

Definition upper (c : ascii) : ascii :=
  let n := nat_of_ascii c in
  if (97 <=? n) && (n <=? 122) then ascii_of_nat (n - 32) else c.

Definition lower (c : ascii) : ascii :=
  let n := nat_of_ascii c in
  if (65 <=? n) && (n <=? 90) then ascii_of_nat (n + 32) else c.

(** Modelled from the spec: [golang.org/x/text/cases] is not part of
    the sources; "title-case each word" is taken, for ASCII text, as
    an upper-case first letter and lower-case letters after it in
    every word, words being separated by spaces. *)
Fixpoint Title_from (start : bool) (s : string) : string :=
  match s with
  | EmptyString => EmptyString
  | String c s' =>
      if Ascii.eqb c " " then String c (Title_from true s')
      else String (if start then upper c else lower c) (Title_from false s')
  end.

Definition TitleCase (s : string) : string := Title_from true s.

(** A parsed template is the list of its files; parsing fails when
    one of them cannot be read. *)
Fixpoint first_unreadable (fs : Files) (names : list string) : option error :=
  match names with
  | [] => None
  | n :: names' =>
      match snd (ReadFile fs n) with
      | Some e => Some e
      | None => first_unreadable fs names'
      end
  end.

Definition ParseFiles (fs : Files) (names : list string) : list string * option error :=
  match first_unreadable fs names with
  | Some e => ([], Some e)
  | None => (names, None)
  end.

Definition listing (posts : list PostData) : string :=
  fold_right (fun p acc => "<li>" +:+ Title p +:+ "</li>" +:+ acc) "" posts.

(** Execution writes a heading and the content; for a post titled
    [Boom] it fails after writing the opening tag, and for a post
    titled [Bang], or a page that holds nothing but that word, before
    writing anything. *)
Definition Execute (tmpl : list string) (data : TemplateArg) : string * option error :=
  match data with
  | ArgPost post =>
      if String.eqb (Title post) "Boom" then ("<html>", Some (ErrOther "execution failed"))
      else if String.eqb (Title post) "Bang" then ("", Some (ErrOther "execution failed"))
      else ("<html><h1>" +:+ Title post +:+ "</h1>" +:+ Content post +:+ "</html>", None)
  | ArgListing d =>
      ("<html><h1>" +:+ td_Title d +:+ "</h1><ul>" +:+ listing (Posts d) +:+ "</ul></html>", None)
  | ArgPage d =>
      if String.eqb (page_Content d) "<p>Bang</p>" then ("", Some (ErrOther "execution failed"))
      else ("<html><h1>" +:+ page_Title d +:+ "</h1>" +:+ page_Content d +:+ "</html>", None)
  end.

(** A raw URL with a percent sign is rejected; otherwise it is its
    own path. *)
Definition ParseURL (raw : string) : option URL * option error :=
  if contains "%" raw then (None, Some (ErrOther "invalid URL escape"))
  else (Some (mkURL raw), None).

#[global] Instance collaborators : Collaborators := {
  FS := Files;
  os_ReadFile := ReadFile;
  os_Stat := Stat;
  filepath_Glob := Glob;
  os_MkdirAll := MkdirAll;
  os_WriteFile := WriteFile;
  frontmatter_Parse := Parse;
  goldmark_Convert := Convert;
  cases_Title := TitleCase;
  Template := list string;
  template_ParseFiles := ParseFiles;
  template_Execute := Execute;
  url_Parse := ParseURL
}.

Definition plain (text : string) (seconds : Z) : File :=
  mkFile text (mkTime seconds 0) None None.

(** The site: a post with a title and a date in its front matter,
    one without front matter, one whose front matter does not decode,
    a thought, the about page and the templates.  Modification times
    are small numbers, the date of the front matter is not. *)
Definition site : Files :=
  [ ("posts/hello-world.md",
      plain ("---" +:+ nl +:+ "title: Hello" +:+ nl +:+ "date: 2023-11-14" +:+ nl
             +:+ "---" +:+ nl +:+ "Hi") 10);
    ("posts/my-first_post.md", plain "First" 1500);
    ("posts/open.md",
      plain ("---" +:+ nl +:+ "title: Lost" +:+ nl +:+ "date: tomorrow" +:+ nl
             +:+ "---" +:+ nl +:+ "Body") 1600);
    ("thoughts/idea.md",
      plain ("---" +:+ nl +:+ "title: Idea" +:+ nl +:+ "---" +:+ nl +:+ "Hm") 1200);
    ("nav/about.md", plain "Me" 5);
    ("templates/base.gohtml", plain "base" 1);
    ("templates/post.gohtml", plain "post" 1);
    ("templates/home.gohtml", plain "home" 1);
    ("templates/thoughts.gohtml", plain "thoughts" 1);
    ("templates/about.gohtml", plain "about" 1) ].

(** The same site with a post that is there but cannot be read. *)
Definition site_broken : Files :=
  ("posts/broken.md", mkFile "Secret" (mkTime 1800 0) (Some (ErrPermission "posts/broken.md")) None)
  :: site.

(** The same site with a post that can be read but not stat'ed. *)
Definition site_nostat : Files :=
  ("posts/ghost.md", mkFile "Boo" (mkTime 1900 0) None (Some (ErrPermission "posts/ghost.md")))
  :: site.

(** The same site with a post under [posts] whose directory cannot
    be searched: stat fails, and not with a not-exist error. *)
Definition site_denied : Files :=
  ("posts/idea.md", mkFile "" Time_zero (Some (ErrPermission "posts/idea.md"))
                      (Some (ErrPermission "posts/idea.md")))
  :: site.

(** Thirteen posts, dated by their modification times, two of them
    (the first two listed) at the same second; and the first twelve
    of them. *)
Definition site12 : Files :=
  [ ("posts/a.md", plain "a" 5); ("posts/b.md", plain "b" 5); ("posts/c.md", plain "c" 4);
    ("posts/d.md", plain "d" 9); ("posts/e.md", plain "e" 4); ("posts/f.md", plain "f" 4);
    ("posts/g.md", plain "g" 7); ("posts/h.md", plain "h" 4); ("posts/i.md", plain "i" 4);
    ("posts/j.md", plain "j" 3); ("posts/k.md", plain "k" 2); ("posts/l.md", plain "l" 2) ].

Definition site13 : Files := site12 ++ [("posts/m.md", plain "m" 1)].

End Fixture.

(** What a generation run into [public] leaves of the small site, and
    what a second run on that disk leaves. *)
Definition site_generated : Disk :=
  Eval vm_compute in
    match GenerateStaticSite "public" (mkDisk Fixture.site []) with
    | Completed _ d | Crashed d => d
    end.

Definition site_regenerated : Disk :=
  Eval vm_compute in
    match GenerateStaticSite "public" (mkDisk (disk_fs site_generated) []) with
    | Completed _ d | Crashed d => d
    end.

(** ** More disks

    Variations of the small site for the properties of the handlers
    and of static generation. *)

(** The small site with a post whose template execution fails
    half-way, with one whose template execution fails at once, with a
    post whose name does not parse as a URL, and with a post whose
    name gives the slug of two dots; and a site without templates. *)
Definition site_boom : Fixture.Files :=
  ("posts/boom.md",
    Fixture.plain ("---" +:+ Fixture.nl +:+ "title: Boom" +:+ Fixture.nl
                   +:+ "---" +:+ Fixture.nl +:+ "x") 1)
  :: Fixture.site.

Definition site_bang : Fixture.Files :=
  ("posts/bang.md",
    Fixture.plain ("---" +:+ Fixture.nl +:+ "title: Bang" +:+ Fixture.nl
                   +:+ "---" +:+ Fixture.nl +:+ "x") 1)
  :: ("nav/about.md", Fixture.plain "Bang" 5)
  :: Fixture.site.

Definition site_percent : Fixture.Files :=
  ("posts/100%.md", Fixture.plain "x" 3) :: Fixture.site.


Definition site_untemplated : Fixture.Files :=
  [("posts/a.md", Fixture.plain "a" 5); ("nav/about.md", Fixture.plain "Me" 5)].

(** The small site with a post that has the slug of the thought. *)
Definition site_shadow : Fixture.Files :=
  ("posts/idea.md", Fixture.plain "Post" 7) :: Fixture.site.

(** What a generation run leaves of the site with the unparsable
    name, and what generating the page of the post that cannot be
    read leaves. *)
Definition site_percent_run : run (option error) :=
  Eval vm_compute in GenerateStaticSite "public" (mkDisk site_percent []).

Definition site_broken_page : run (option error) :=
  Eval vm_compute in
    generatePostPage "public" "posts/broken.md" (mkDisk Fixture.site_broken []).


(** ** Notions the properties of [sort.Slice] are stated with *)

(** [less] is a strict weak order, as [sort.Slice] requires of the
    function it is given. *)
Record strict_weak {A : Type} (less : A -> A -> bool) : Prop := {
  less_irrefl : forall x, less x x = false;
  less_trans : forall x y z, less x y = true -> less y z = true -> less x z = true;
  less_incomparable : forall x y z, less x y = false -> less y z = false -> less x z = false
}.

(** The range [[a, b)] is in order: no element is less than one before it. *)
Definition sorted_range {A : Type} (less : A -> A -> bool) (d : list A) (a b : nat) : Prop :=
  forall i k x y, a <= i -> i < k -> k < b ->
    d !! i = Some x -> d !! k = Some y -> less y x = false.

(** A list changed only between [a] and [b]. *)
Definition frame {A : Type} (a b : nat) (d d' : list A) : Prop :=
  length d' = length d /\ forall k, ~ (a <= k < b) -> d' !! k = d !! k.

(** What a step on the range leaves: a permutation of the list that
    moved nothing outside the range. *)
Definition rearranged {A : Type} (a b : nat) (d d' : list A) : Prop :=
  frame a b d d' /\ d ≡ₚ d'.

(** Every element of the range [[u, v)] satisfies [P]. *)
Definition all_in {A : Type} (d : list A) (u v : nat) (P : A -> Prop) : Prop :=
  forall k x, u <= k < v -> d !! k = Some x -> P x.

(** Neither element is less than the other. *)
Definition equivb {A : Type} (less : A -> A -> bool) (x y : A) : bool :=
  negb (less x y) && negb (less y x).

(** Elements that are equivalent keep their relative order: for every
    [x], the elements equivalent to [x] come in the same sequence. *)
Definition same_order_of_equals {A : Type} (less : A -> A -> bool) (d d' : list A) : Prop :=
  forall x, List.filter (equivb less x) d' = List.filter (equivb less x) d.

(** What [partition_loop] sorts elements by: on the left go the
    elements less than the pivot [p] or, for [partitionEqual], the
    elements not greater than it. *)
Definition goes_left {A : Type} (less : A -> A -> bool) (equal : bool) (p x : A) : bool :=
  if equal then negb (less p x) else less x p.

(** The two tests of [partition_loop] on the element at [k]. *)
Definition below {A : Type} (less : A -> A -> bool) (equal : bool) (d : list A)
  (a k : nat) : bool :=
  if equal then negb (sort.Less less d a k) else sort.Less less d k a.
Definition above {A : Type} (less : A -> A -> bool) (equal : bool) (d : list A)
  (a k : nat) : bool :=
  if equal then sort.Less less d a k else negb (sort.Less less d k a).

(** No element of the range [[a, b)] is less than the element just
    before the range, if there is one. *)
Definition lower_bounded {A : Type} (less : A -> A -> bool) (d : list A) (a b : nat) : Prop :=
  forall L k x, 0 < a -> d !! (a - 1) = Some L -> a <= k < b -> d !! k = Some x ->
    less x L = false.

(** In the heap laid out at [d[first : first + hi]], node [r] is not
    less than its children. *)
Definition heap_at {A : Type} (less : A -> A -> bool) (d : list A) (first hi r : nat) : Prop :=
  forall c x y, c = 2 * r + 1 \/ c = 2 * r + 2 -> c < hi ->
    d !! (first + r) = Some x -> d !! (first + c) = Some y -> less x y = false.

Definition heap_from {A : Type} (less : A -> A -> bool) (d : list A) (first lo hi : nat) : Prop :=
  forall r, lo <= r -> r < hi -> heap_at less d first hi r.

(** The post [q] carries the date [t]: neither is after the other. *)
Definition sameDate (t : Time) (q : PostData) : bool :=
  negb (After t (Date q)) && negb (After (Date q) t).

(** ** Notions the further properties are stated with *)

(** A path separator occurs in [s]. *)
Fixpoint has_separator (s : string) : bool :=
  match s with
  | EmptyString => false
  | String c s' => filepath.IsPathSeparator c || has_separator s'
  end.

(** A path element that [filepath.Clean] keeps as it is. *)
Definition plain_element (e : string) : Prop :=
  has_separator e = false /\ e <> "" /\ e <> "." /\ e <> "..".

(** Static generation and the server run a handler to the same end:
    both runs return or both panic, and on return the buffer that
    goes to the file holds the body the server sent. *)
Definition served_alike (static : outcome PageWriter) (live : outcome liveResponse) : Prop :=
  match static, live with
  | Returned w, Returned w' => buf (inner w) = live_body w'
  | Panicked _, Panicked _ => True
  | _, _ => False
  end.

Section RunNotions.
Context `{Collaborators}.

(** The disk a run ends on, however it ends. *)
Definition disk_of (r : run (option error)) : Disk :=
  match r with
  | Completed _ d | Crashed d => d
  end.

(** What [generatePage] does to the disk for a page, given as its
    path and bytes: it creates the directory of the path and writes
    the bytes to the path. *)
Definition putPage (fs : FS) (page : string * string) : FS :=
  fst (os_WriteFile (fst (os_MkdirAll fs (filepath.Dir (fst page)))) (fst page) (snd page)).

Definition putPages (fs : FS) (pages : list (string * string)) : FS :=
  fold_left putPage pages fs.

(** Putting [pages] on [fs] one after the other, every [os.MkdirAll]
    and every [os.WriteFile] returns without error. *)
Fixpoint all_put (fs : FS) (pages : list (string * string)) : Prop :=
  match pages with
  | [] => True
  | page :: pages' =>
      snd (os_MkdirAll fs (filepath.Dir (fst page))) = None
      /\ snd (os_WriteFile (fst (os_MkdirAll fs (filepath.Dir (fst page))))
                (fst page) (snd page)) = None
      /\ all_put (putPage fs page) pages'
  end.

(** The steps of [GenerateStaticSite] after the output directory is
    created. *)
Definition generatePages (outputDir : string) : Disk -> run (option error) :=
  let emptyRequest := mkRequest None in
  orReturn
    (generatePage outputDir "index.html"
       (fun fs w => (HomeHandler fs w emptyRequest, None)))
    (orReturn
       (generatePage outputDir "about.html"
          (fun fs w => (AboutHandler fs w emptyRequest, None)))
       (orReturn
          (generatePage outputDir "thoughts.html"
             (fun fs w => (ThoughtsHandler fs w emptyRequest, None)))
          (orReturn
             (generateDirectory outputDir "posts/*.md")
             (generateDirectory outputDir "thoughts/*.md")))).

(** A step that, started on a disk showing the inputs of [fs0],
    writes the files [pages] in this order: when it completes without
    error it has put them all on the disk, every call succeeding, and
    left the inputs alone; when it stops early it has written the
    first few of them. *)
Definition writes_upto (fs0 : FS) (step : Disk -> run (option error))
  (pages : list (string * string)) : Prop :=
  forall d, same_sources fs0 (disk_fs d) ->
    match step d with
    | Completed None d' =>
        written d' = written d ++ pages
        /\ disk_fs d' = putPages (disk_fs d) pages
        /\ all_put (disk_fs d) pages
        /\ same_sources fs0 (disk_fs d')
    | Completed (Some _) d' | Crashed d' =>
        exists done, written d' = written d ++ done /\ done `prefix_of` pages
    end.



End RunNotions.

(** ** The spec's words, for comparison with the code *)

(** What the spec calls the humanized file name, before title
    casing: the name without its extension, with every dash and
    underscore turned into a space. *)
Definition spaced (c : ascii) : ascii :=
  if Ascii.eqb c "-" || Ascii.eqb c "_" then " "%char else c.

Fixpoint string_map (f : ascii -> ascii) (s : string) : string :=
  match s with
  | EmptyString => EmptyString
  | String c s' => String (f c) (string_map f s')
  end.

Definition humanized (filename : string) : string :=
  string_map spaced (strings.TrimSuffix filename (filepath.Ext filename)).

(** An equation between closed terms, by evaluation. *)
Ltac computed :=
  lazymatch goal with
  | |- ?l = ?r => exact (eq_refl r <: l = r)
  end.

(** * Properties *)

(** ** The model on a few inputs *)

Example Ext_md : filepath.Ext "posts/my-first_post.md" = ".md".
Proof. reflexivity. Qed.
Example Ext_none : filepath.Ext "posts.d/README" = "".
Proof. reflexivity. Qed.
Example Base_md : filepath.Base "posts/my-first_post.md" = "my-first_post.md".
Proof. reflexivity. Qed.
Example Base_slashes : filepath.Base "///" = "/".
Proof. reflexivity. Qed.
Example Join_post : filepath.Join ["post"; "hello-world"; "index.html"] = "post/hello-world/index.html".
Proof. reflexivity. Qed.
Example Join_dotdot : filepath.Join ["post"; ".."; "index.html"] = "index.html".
Proof. reflexivity. Qed.
Example Join_up : filepath.Join ["../a"; "../../b"; ""] = "../../b".
Proof. reflexivity. Qed.
Example Clean_root : filepath.Clean "/../a//b/./c/.." = "/a/b".
Proof. reflexivity. Qed.
Example Dir_out : filepath.Dir "public/post/hello-world/index.html" = "public/post/hello-world".
Proof. reflexivity. Qed.
Example Dir_plain : filepath.Dir "index.html" = ".".
Proof. reflexivity. Qed.
Example TrimSuffix_md : strings.TrimSuffix "a.md.md" ".md" = "a.md".
Proof. reflexivity. Qed.
Example TrimSuffix_no : strings.TrimSuffix "a.md" ".txt" = "a.md".
Proof. reflexivity. Qed.
Example ReplaceAll_dash : strings.ReplaceAll "my-first_post" "-" " " = "my first_post".
Proof. reflexivity. Qed.

Example fixture_load_hello :
  LoadPostFromFile Fixture.site "posts/hello-world.md"
  = (mkPostData "Hello" (mkTime 63835516800 0) "hello-world" "<p>Hi</p>", None).
Proof. reflexivity. Qed.

Example fixture_load_first :
  LoadPostFromFile Fixture.site "posts/my-first_post.md"
  = (mkPostData "My First Post" (mkTime 1500 0) "my-first_post" "<p>First</p>", None).
Proof. reflexivity. Qed.

Example fixture_home :
  LoadBlogPosts Fixture.site
  = ([mkPostData "Hello" (mkTime 63835516800 0) "hello-world" "<p>Hi</p>";
      mkPostData "Open" (mkTime 1600 0) "open"
        ("<p>---" +:+ Fixture.nl +:+ "title: Lost" +:+ Fixture.nl +:+ "date: tomorrow"
         +:+ Fixture.nl +:+ "---" +:+ Fixture.nl +:+ "Body</p>");
      mkPostData "My First Post" (mkTime 1500 0) "my-first_post" "<p>First</p>"], None).
Proof. reflexivity. Qed.

Example fixture_epoch : Fixture.parse_date "1970-01-01" = Some (mkTime 62135596800 0).
Proof. reflexivity. Qed.

Example fixture_open_block :
  Fixture.Parse ("---" +:+ Fixture.nl +:+ "title: Lost" +:+ Fixture.nl +:+ "Body")
  = ("---" +:+ Fixture.nl +:+ "title: Lost" +:+ Fixture.nl +:+ "Body",
     PostFrontmatter_zero, None).
Proof. reflexivity. Qed.

Example fixture_glob_sorted :
  Fixture.Glob site_percent "posts/*.md"
  = (["posts/100%.md"; "posts/hello-world.md"; "posts/my-first_post.md"; "posts/open.md"],
     None).
Proof. reflexivity. Qed.

(** ** The post loader *)

Section Loader.
Context `{Collaborators}.

Lemma ReplaceAll_go_byte (old new : ascii) (s : string) (fuel : nat) :
  String.length s <= fuel ->
  strings.ReplaceAll_go fuel s (String old "") (String new "")
  = string_map (fun c => if Ascii.eqb old c then new else c) s.
Proof.
  revert s. induction fuel as [|fuel IH]; intros [|c s] Hlen; simpl in *; try reflexivity.
  - lia.
  - destruct (Ascii.eqb old c); simpl; rewrite IH by lia; reflexivity.
Qed.

Lemma ReplaceAll_byte (old new : ascii) (s : string) :
  strings.ReplaceAll s (String old "") (String new "")
  = string_map (fun c => if Ascii.eqb old c then new else c) s.
Proof. unfold strings.ReplaceAll. apply ReplaceAll_go_byte. lia. Qed.

Lemma string_map_map (f g : ascii -> ascii) (s : string) :
  string_map g (string_map f s) = string_map (fun c => g (f c)) s.
Proof. induction s as [|c s IH]; simpl; [reflexivity | now rewrite IH]. Qed.

Lemma string_map_ext (f g : ascii -> ascii) (s : string) :
  (forall c, f c = g c) -> string_map f s = string_map g s.
Proof. intros E. induction s as [|c s IH]; simpl; [reflexivity | now rewrite IH, E]. Qed.

(** [CleanTitle] title-cases the humanized file name. *)
Lemma CleanTitle_humanized (filename : string) :
  CleanTitle filename = cases_Title (humanized filename).
Proof.
  unfold CleanTitle, humanized. f_equal.
  rewrite !ReplaceAll_byte, string_map_map.
  apply string_map_ext. intros c. unfold spaced.
  destruct (Ascii.eqb_spec "-" c) as [<-|Hd]; [reflexivity|].
  destruct (Ascii.eqb_spec "_" c) as [<-|Hu]; [reflexivity|].
  destruct (Ascii.eqb_spec c "-") as [->|_]; [congruence|].
  destruct (Ascii.eqb_spec c "_") as [->|_]; [congruence|].
  reflexivity.
Qed.

(** The loader on a file that was read: a stat error or a conversion
    error ends it, and otherwise the record is put together from the
    front matter, the file name and the modification time. *)
Lemma LoadPostFromFile_read (fs : FS) (filePath mdBytes : string) :
  os_ReadFile fs filePath = (mdBytes, None) ->
  LoadPostFromFile fs filePath =
    match os_Stat fs filePath with
    | (_, Some e) => (PostData_zero, Some e)
    | (fileInfo, None) =>
        match goldmark_Convert (fst (parseFrontmatter mdBytes)) with
        | (_, Some e) => (PostData_zero, Some e)
        | (html, None) =>
            let fm := snd (parseFrontmatter mdBytes) in
            let filename := filepath.Base filePath in
            (mkPostData
               (if String.eqb (fm_Title fm) "" then CleanTitle filename else fm_Title fm)
               (if IsZero (fm_Date fm) then ModTime fileInfo else fm_Date fm)
               (strings.TrimSuffix filename (filepath.Ext filename))
               html, None)
        end
    end.
Proof.
  intros Hread. unfold LoadPostFromFile. rewrite Hread.
  destruct (parseFrontmatter mdBytes) as [remainingMd fm]; simpl.
  destruct (os_Stat fs filePath) as [fileInfo [e|]]; [reflexivity|].
  destruct (goldmark_Convert remainingMd) as [html [e|]]; reflexivity.
Qed.

Lemma LoadPostFromFile_read_error (fs : FS) (filePath mdBytes : string) (e : error) :
  os_ReadFile fs filePath = (mdBytes, Some e) ->
  LoadPostFromFile fs filePath = (PostData_zero, Some e).
Proof. intros Hread. unfold LoadPostFromFile. now rewrite Hread. Qed.

(** C3. When parsing the front matter of a document fails, the
    loader does not fail on that account: the Markdown converter
    receives the bytes as they were read, the front matter counts as
    empty, so that the title is the cleaned file name and the date
    the modification time, and loading succeeds; the only errors
    left are those of the stat and of the conversion. *)
Theorem frontmatter_failure_is_soft (fs : FS) (filePath mdBytes rest : string)
  (fm : PostFrontmatter) (e : error) :
  os_ReadFile fs filePath = (mdBytes, None) ->
  frontmatter_Parse mdBytes = (rest, fm, Some e) ->
  parseFrontmatter mdBytes = (mdBytes, PostFrontmatter_zero) /\
  match os_Stat fs filePath, goldmark_Convert mdBytes with
  | (fileInfo, None), (html, None) =>
      let filename := filepath.Base filePath in
      LoadPostFromFile fs filePath
      = (mkPostData (CleanTitle filename) (ModTime fileInfo)
           (strings.TrimSuffix filename (filepath.Ext filename)) html, None)
  | (_, Some e'), _ => LoadPostFromFile fs filePath = (PostData_zero, Some e')
  | (_, None), (_, Some e') => LoadPostFromFile fs filePath = (PostData_zero, Some e')
  end.
Proof.
  intros Hread Hparse.
  assert (Hsoft : parseFrontmatter mdBytes = (mdBytes, PostFrontmatter_zero)).
  { unfold parseFrontmatter. now rewrite Hparse. }
  split; [exact Hsoft|].
  rewrite (LoadPostFromFile_read _ _ _ Hread), Hsoft. simpl.
  destruct (os_Stat fs filePath) as [fileInfo [e'|]]; [reflexivity|].
  destruct (goldmark_Convert mdBytes) as [html [e'|]]; reflexivity.
Qed.

(** C6. The title of a loaded post is the front-matter title when
    that is not empty, and otherwise the humanized file name
    (extension stripped, dashes and underscores replaced by spaces)
    in title case. *)
Theorem title_of_loaded_post (fs : FS) (filePath : string) (post : PostData) :
  LoadPostFromFile fs filePath = (post, None) ->
  exists mdBytes,
    os_ReadFile fs filePath = (mdBytes, None) /\
    let fm := snd (parseFrontmatter mdBytes) in
    Title post =
      if String.eqb (fm_Title fm) ""
      then cases_Title (humanized (filepath.Base filePath))
      else fm_Title fm.
Proof.
  intros Hload.
  destruct (os_ReadFile fs filePath) as [mdBytes [e|]] eqn:Hread.
  - rewrite (LoadPostFromFile_read_error _ _ _ _ Hread) in Hload. discriminate.
  - exists mdBytes. split; [reflexivity|].
    rewrite (LoadPostFromFile_read _ _ _ Hread) in Hload.
    destruct (os_Stat fs filePath) as [fileInfo [e|]]; [discriminate|].
    destruct (goldmark_Convert _) as [html [e|]]; [discriminate|].
    simpl in Hload. injection Hload as <-. simpl.
    now rewrite CleanTitle_humanized.
Qed.

(** C7. A file that is read and stat'ed, and whose body converts,
    loads as a post whose date is the front-matter date when that is
    not the zero time, and otherwise the file's modification time;
    and when the stat fails, the load fails with the stat's error
    although the file was read. *)
Theorem date_of_loaded_post (fs : FS) (filePath mdBytes : string) :
  os_ReadFile fs filePath = (mdBytes, None) ->
  let fm := snd (parseFrontmatter mdBytes) in
  match os_Stat fs filePath with
  | (_, Some e) => LoadPostFromFile fs filePath = (PostData_zero, Some e)
  | (fileInfo, None) =>
      match goldmark_Convert (fst (parseFrontmatter mdBytes)) with
      | (_, Some e) => LoadPostFromFile fs filePath = (PostData_zero, Some e)
      | (_, None) =>
          exists post,
            LoadPostFromFile fs filePath = (post, None)
            /\ Date post = if IsZero (fm_Date fm) then ModTime fileInfo else fm_Date fm
      end
  end.
Proof.
  intros Hread. simpl. rewrite (LoadPostFromFile_read _ _ _ Hread).
  destruct (os_Stat fs filePath) as [fileInfo [e|]]; [reflexivity|].
  destruct (goldmark_Convert _) as [html [e|]]; [reflexivity|].
  eexists. split; reflexivity.
Qed.
End Loader.

(** ** The collection builder's loop *)

Section Collection.
Context `{Collaborators}.

Lemma loadPosts_loop_all (fs : FS) (files : list string) (posts : list PostData) :
  Forall (loads fs) files ->
  loadPosts_loop fs files posts
  = (posts ++ map (fun file => fst (LoadPostFromFile fs file)) files, None).
Proof.
  intros Hall. revert posts.
  induction Hall as [|file files Hfile _ IH]; intros posts; simpl.
  - now rewrite app_nil_r.
  - unfold loads in Hfile.
    destruct (LoadPostFromFile fs file) as [post err]; simpl in *; subst err.
    rewrite IH, <- app_assoc. reflexivity.
Qed.

Lemma loadPosts_loop_first_failure (fs : FS) (loaded : list string) (file : string)
  (rest : list string) (e : error) (posts : list PostData) :
  Forall (loads fs) loaded ->
  snd (LoadPostFromFile fs file) = Some e ->
  loadPosts_loop fs (loaded ++ file :: rest) posts = ([], Some e).
Proof.
  intros Hall Hfail. revert posts.
  induction Hall as [|g loaded Hg _ IH]; intros posts; simpl.
  - destruct (LoadPostFromFile fs file) as [post err]; simpl in *; now subst err.
  - unfold loads in Hg.
    destruct (LoadPostFromFile fs g) as [post err]; simpl in *; subst err. apply IH.
Qed.

Lemma loadPosts_loop_ok (fs : FS) (files : list string) (posts result : list PostData) :
  loadPosts_loop fs files posts = (result, None) -> Forall (loads fs) files.
Proof.
  revert posts. induction files as [|file files IH]; intros posts Hloop; [constructor|].
  simpl in Hloop.
  destruct (LoadPostFromFile fs file) as [post [e|]] eqn:Hfile; [discriminate|].
  constructor; [unfold loads; now rewrite Hfile | eauto].
Qed.

(** C4. One file that fails to load makes the whole collection
    build fail, with the error of the first such file and with no
    posts returned; the build succeeds exactly when every matched
    file loads. *)
Theorem load_failure_aborts_collection (fs : FS) (pattern : string) (files : list string) :
  filepath_Glob fs pattern = (files, None) ->
  (snd (loadPostsFromDirectory fs pattern) = None <-> Forall (loads fs) files) /\
  (forall loaded file rest e,
      files = loaded ++ file :: rest ->
      Forall (loads fs) loaded ->
      snd (LoadPostFromFile fs file) = Some e ->
      loadPostsFromDirectory fs pattern = ([], Some e)).
Proof.
  intros Hglob. unfold loadPostsFromDirectory. rewrite Hglob. split.
  - split.
    + destruct (loadPosts_loop fs files []) as [posts [e|]] eqn:Hloop; [discriminate|].
      intros _. eapply loadPosts_loop_ok, Hloop.
    + intros Hall. now rewrite (loadPosts_loop_all _ _ _ Hall).
  - intros loaded file rest e -> Hall Hfail.
    now rewrite (loadPosts_loop_first_failure _ _ _ _ _ _ Hall Hfail).
Qed.
End Collection.

(** ** Looking up a single post *)

Section Lookup.
Context `{Collaborators}.

Lemma PostHandler_slug {W} `{ResponseWriter W} (fs : FS) (w : W) (slug : string) :
  PostHandler fs w (postRequest slug) =
    let w := Header_Set w "Content-Type" "text/html; charset=utf-8" in
    let '(post, err) := LoadPost fs slug in
    match err with
    | Some _ => Returned (http_Error w "Post not found" StatusNotFound)
    | None =>
        let '(tmpl, err) :=
          template_ParseFiles fs
            [filepath.Join ["templates"; "base.gohtml"];
             filepath.Join ["templates"; "post.gohtml"]] in
        match err with
        | Some _ => Panicked w
        | None =>
            let '(w, err) := tmpl_Execute w tmpl (ArgPost post) in
            match err with
            | Some _ =>
                Returned (http_Error w "Error executing template" StatusInternalServerError)
            | None => Returned w
            end
        end
    end.
Proof. reflexivity. Qed.

(** Whatever makes [LoadPost] fail, a fresh live response ends as a
    404 with the body [Post not found]. *)
Lemma PostHandler_load_error (fs : FS) (slug : string) (post : PostData) (e : error) :
  LoadPost fs slug = (post, Some e) ->
  exists w, PostHandler fs liveResponse_new (postRequest slug) = Returned w
            /\ live_status w = StatusNotFound
            /\ live_body w = "Post not found" +:+ String "010" "".
Proof.
  intros Hload. rewrite PostHandler_slug. simpl. rewrite Hload.
  eexists. split; [reflexivity|]. split; reflexivity.
Qed.

(** C5. A post found under [posts] is loaded from there; one found
    only under [thoughts] is loaded from there; and for a slug found
    in neither directory the lookup ends in a not-exist error, which
    the live handler answers with 404. *)
Theorem lookup_primary_then_secondary (fs : FS) (slug : string) :
  (snd (os_Stat fs (primaryPath slug)) = None ->
   LoadPost fs slug = LoadPostFromFile fs (primaryPath slug)) /\
  (os_IsNotExist (snd (os_Stat fs (primaryPath slug))) = true ->
   snd (os_Stat fs (secondaryPath slug)) = None ->
   LoadPost fs slug = LoadPostFromFile fs (secondaryPath slug)) /\
  (os_IsNotExist (snd (os_Stat fs (primaryPath slug))) = true ->
   os_IsNotExist (snd (os_Stat fs (secondaryPath slug))) = true ->
   os_IsNotExist (snd (LoadPost fs slug)) = true /\
   exists w, PostHandler fs liveResponse_new (postRequest slug) = Returned w
             /\ live_status w = StatusNotFound).
Proof.
  unfold LoadPost, primaryPath, secondaryPath.
  destruct (os_Stat fs (filepath.Join ["posts"; slug +:+ ".md"])) as [i1 err1] eqn:H1.
  destruct (os_Stat fs (filepath.Join ["thoughts"; slug +:+ ".md"])) as [i2 err2] eqn:H2.
  simpl. split; [|split].
  - intros ->. reflexivity.
  - intros -> ->. reflexivity.
  - intros Hno1 Hno2. rewrite Hno1, Hno2. split; [assumption|].
    destruct err2 as [e2|]; [|discriminate].
    destruct (PostHandler_load_error fs slug PostData_zero e2) as (w & Hw & Hs & _).
    + unfold LoadPost. rewrite H1, H2, Hno1, Hno2. reflexivity.
    + eauto.
Qed.

(** C10. The lookup turns to [thoughts] only on a not-exist error of
    the stat under [posts]: after any other stat error it loads the
    path under [posts] all the same, and [thoughts] plays no part. *)
Theorem fallback_only_on_not_exist (fs : FS) (slug : string) (e : error) :
  snd (os_Stat fs (primaryPath slug)) = Some e ->
  os_IsNotExist (Some e) = false ->
  LoadPost fs slug = LoadPostFromFile fs (primaryPath slug).
Proof.
  intros Hstat Hkind. unfold LoadPost, primaryPath in *.
  destruct (os_Stat fs _) as [i err]. simpl in Hstat. subst err.
  now rewrite Hkind.
Qed.
End Lookup.

(** ** The properties at work on the small site *)

Lemma frontmatter_failure_is_soft_witness :
  snd (Fixture.Parse (fst (Fixture.ReadFile Fixture.site "posts/open.md"))) <> None /\
  LoadPostFromFile Fixture.site "posts/open.md"
  = (mkPostData "Open" (mkTime 1600 0) "open"
       ("<p>---" +:+ Fixture.nl +:+ "title: Lost" +:+ Fixture.nl +:+ "date: tomorrow"
        +:+ Fixture.nl +:+ "---" +:+ Fixture.nl +:+ "Body</p>"), None).
Proof.
  split; [discriminate|].
  exact (proj2 (frontmatter_failure_is_soft (H:=Fixture.collaborators) Fixture.site "posts/open.md" _ _ _ _
                  eq_refl eq_refl)).
Defined.

Lemma title_of_loaded_post_witness :
  Title (fst (LoadPostFromFile Fixture.site "posts/my-first_post.md")) = "My First Post" /\
  Fixture.TitleCase (humanized "my-first_post.md") = "My First Post" /\
  Title (fst (LoadPostFromFile Fixture.site "posts/hello-world.md")) = "Hello".
Proof.
  destruct (title_of_loaded_post (H:=Fixture.collaborators) Fixture.site "posts/my-first_post.md" _ eq_refl)
    as (md1 & Hread1 & Htitle1).
  destruct (title_of_loaded_post (H:=Fixture.collaborators) Fixture.site "posts/hello-world.md" _ eq_refl)
    as (md2 & Hread2 & Htitle2).
  injection Hread1 as <-. injection Hread2 as <-.
  split; [exact Htitle1|]. split; [reflexivity | exact Htitle2].
Defined.

Lemma date_of_loaded_post_witness :
  (exists post, LoadPostFromFile Fixture.site "posts/hello-world.md" = (post, None)
                /\ Date post = mkTime 63835516800 0) /\
  (exists post, LoadPostFromFile Fixture.site "posts/my-first_post.md" = (post, None)
                /\ Date post = mkTime 1500 0) /\
  snd (Fixture.Stat Fixture.site "posts/my-first_post.md") = None /\
  ModTime (fst (Fixture.Stat Fixture.site "posts/my-first_post.md")) = mkTime 1500 0 /\
  fst (Fixture.ReadFile Fixture.site_nostat "posts/ghost.md") = "Boo" /\
  LoadPostFromFile Fixture.site_nostat "posts/ghost.md"
  = (PostData_zero, Some (ErrPermission "posts/ghost.md")).
Proof.
  split; [exact (date_of_loaded_post (H:=Fixture.collaborators) Fixture.site
                   "posts/hello-world.md" _ eq_refl)|].
  split; [exact (date_of_loaded_post (H:=Fixture.collaborators) Fixture.site
                   "posts/my-first_post.md" _ eq_refl)|].
  split; [reflexivity|]. split; [reflexivity|]. split; [reflexivity|].
  exact (date_of_loaded_post (H:=Fixture.collaborators) Fixture.site_nostat
           "posts/ghost.md" _ eq_refl).
Defined.

Lemma load_failure_aborts_collection_witness :
  fst (Fixture.Glob Fixture.site_broken "posts/*.md")
  = ["posts/broken.md"; "posts/hello-world.md"; "posts/my-first_post.md"; "posts/open.md"] /\
  loadPostsFromDirectory Fixture.site_broken "posts/*.md"
  = ([], Some (ErrPermission "posts/broken.md")) /\
  snd (loadPostsFromDirectory Fixture.site "posts/*.md") = None.
Proof.
  split; [reflexivity|]. split.
  - refine (proj2 (load_failure_aborts_collection (H:=Fixture.collaborators) Fixture.site_broken "posts/*.md" _ eq_refl)
              [] "posts/broken.md"
              ["posts/hello-world.md"; "posts/my-first_post.md"; "posts/open.md"]
              _ eq_refl _ eq_refl).
    constructor.
  - apply (proj1 (load_failure_aborts_collection (H:=Fixture.collaborators) Fixture.site "posts/*.md" _ eq_refl)).
    repeat constructor.
Defined.

Lemma lookup_primary_then_secondary_witness :
  LoadPost Fixture.site "hello-world" = LoadPostFromFile Fixture.site "posts/hello-world.md" /\
  LoadPost Fixture.site "idea" = LoadPostFromFile Fixture.site "thoughts/idea.md" /\
  snd (LoadPost Fixture.site "idea") = None /\
  snd (LoadPost Fixture.site "nowhere") = Some (ErrNotExist "thoughts/nowhere.md") /\
  exists w, PostHandler Fixture.site liveResponse_new (postRequest "nowhere") = Returned w
            /\ live_status w = 404%Z.
Proof.
  split; [exact (proj1 (lookup_primary_then_secondary (H:=Fixture.collaborators) Fixture.site "hello-world") eq_refl)|].
  split; [exact (proj1 (proj2 (lookup_primary_then_secondary (H:=Fixture.collaborators) Fixture.site "idea"))
                   eq_refl eq_refl)|].
  split; [reflexivity|]. split; [reflexivity|].
  exact (proj2 (proj2 (proj2 (lookup_primary_then_secondary (H:=Fixture.collaborators) Fixture.site "nowhere"))
                  eq_refl eq_refl)).
Defined.

Lemma fallback_only_on_not_exist_witness :
  snd (Fixture.Stat Fixture.site_denied "thoughts/idea.md") = None /\
  LoadPost Fixture.site_denied "idea" = LoadPostFromFile Fixture.site_denied "posts/idea.md" /\
  LoadPost Fixture.site_denied "idea" = (PostData_zero, Some (ErrPermission "posts/idea.md")).
Proof.
  split; [reflexivity|].
  split; [|reflexivity].
  exact (fallback_only_on_not_exist (H:=Fixture.collaborators) Fixture.site_denied "idea" (ErrPermission "posts/idea.md")
           eq_refl eq_refl).
Defined.

(** ** Rendering errors under the server *)

Section Rendering.
Context `{Collaborators}.

(** C2, as the code has it.  Under the server, a listing page whose
    posts fail to load, whatever the error (that of a Markdown
    conversion included), is answered with 500, and so is, on every
    page, a template execution that fails before it has written a
    byte.  A template that does not parse is no 500: [template.Must]
    panics, and the handler has sent neither a status nor a byte by
    then. *)
Theorem rendering_errors_in_live_mode (fs : FS) :
  let failed (w : liveResponse) (msg : string) :=
    live_status w = StatusInternalServerError /\ live_body w = msg +:+ String "010" "" in
  let unsent (w : liveResponse) := wroteHeader w = false /\ live_body w = "" in
  (forall loadPosts title page e,
     snd (loadPosts fs) = Some e ->
     exists w, postsHandler fs liveResponse_new loadPosts title page = Returned w
               /\ failed w "Error loading posts")
  /\ (forall loadPosts title page posts tmpl e,
        loadPosts fs = (posts, None) ->
        template_ParseFiles fs (templateFiles page) = (tmpl, None) ->
        template_Execute tmpl (ArgListing (mkTemplateData title posts)) = ("", Some e) ->
        exists w, postsHandler fs liveResponse_new loadPosts title page = Returned w
                  /\ failed w "Error executing template")
  /\ (forall slug post tmpl e,
        LoadPost fs slug = (post, None) ->
        template_ParseFiles fs (templateFiles "post.gohtml") = (tmpl, None) ->
        template_Execute tmpl (ArgPost post) = ("", Some e) ->
        exists w, PostHandler fs liveResponse_new (postRequest slug) = Returned w
                  /\ failed w "Error executing template")
  /\ (forall r content tmpl e,
        RenderMarkdown fs "nav/about.md" = Some (content, None) ->
        template_ParseFiles fs (templateFiles "about.gohtml") = (tmpl, None) ->
        template_Execute tmpl (ArgPage (mkPageData "About Me" content)) = ("", Some e) ->
        exists w, AboutHandler fs liveResponse_new r = Returned w
                  /\ failed w "Error executing template")
  /\ (forall loadPosts title page posts tmpl e,
        loadPosts fs = (posts, None) ->
        template_ParseFiles fs (templateFiles page) = (tmpl, Some e) ->
        exists w, postsHandler fs liveResponse_new loadPosts title page = Panicked w
                  /\ unsent w)
  /\ (forall slug post tmpl e,
        LoadPost fs slug = (post, None) ->
        template_ParseFiles fs (templateFiles "post.gohtml") = (tmpl, Some e) ->
        exists w, PostHandler fs liveResponse_new (postRequest slug) = Panicked w
                  /\ unsent w)
  /\ (forall r content tmpl e,
        RenderMarkdown fs "nav/about.md" = Some (content, None) ->
        template_ParseFiles fs (templateFiles "about.gohtml") = (tmpl, Some e) ->
        exists w, AboutHandler fs liveResponse_new r = Panicked w /\ unsent w).
Proof.
  unfold templateFiles. cbv zeta. repeat apply conj.
  - intros loadPosts title page e Hload. unfold postsHandler.
    destruct (loadPosts fs) as [posts err]. simpl in Hload. subst err.
    eexists. split; [reflexivity|]. split; reflexivity.
  - intros loadPosts title page posts tmpl e Hload Hparse Hexec.
    unfold postsHandler, tmpl_Execute. rewrite Hload, Hparse, Hexec.
    eexists. split; [reflexivity|]. split; reflexivity.
  - intros slug post tmpl e Hload Hparse Hexec.
    rewrite PostHandler_slug. unfold tmpl_Execute. cbv zeta. rewrite Hload, Hparse, Hexec.
    eexists. split; [reflexivity|]. split; reflexivity.
  - intros r content tmpl e Hrender Hparse Hexec.
    unfold AboutHandler, tmpl_Execute. rewrite Hrender, Hparse, Hexec.
    eexists. split; [reflexivity|]. split; reflexivity.
  - intros loadPosts title page posts tmpl e Hload Hparse.
    unfold postsHandler. rewrite Hload, Hparse.
    eexists. split; [reflexivity|]. split; reflexivity.
  - intros slug post tmpl e Hload Hparse.
    rewrite PostHandler_slug. cbv zeta. rewrite Hload, Hparse.
    eexists. split; [reflexivity|]. split; reflexivity.
  - intros r content tmpl e Hrender Hparse.
    unfold AboutHandler. rewrite Hrender, Hparse.
    eexists. split; [reflexivity|]. split; reflexivity.
Qed.
End Rendering.

Lemma rendering_errors_in_live_mode_witness :
  snd (LoadBlogPosts Fixture.site_broken) = Some (ErrPermission "posts/broken.md")
  /\ (exists w, HomeHandler Fixture.site_broken liveResponse_new (mkRequest None) = Returned w
                /\ live_status w = 500%Z
                /\ live_body w = "Error loading posts" +:+ String "010" "")
  /\ (exists w, PostHandler site_bang liveResponse_new (postRequest "bang") = Returned w
                /\ live_status w = 500%Z
                /\ live_body w = "Error executing template" +:+ String "010" "")
  /\ (exists w, AboutHandler site_bang liveResponse_new (mkRequest None) = Returned w
                /\ live_status w = 500%Z
                /\ live_body w = "Error executing template" +:+ String "010" "")
  /\ (exists w, HomeHandler site_untemplated liveResponse_new (mkRequest None) = Panicked w
                /\ wroteHeader w = false /\ live_body w = "")
  /\ (exists w, PostHandler site_untemplated liveResponse_new (postRequest "a") = Panicked w
                /\ wroteHeader w = false /\ live_body w = "")
  /\ (exists w, AboutHandler site_untemplated liveResponse_new (mkRequest None) = Panicked w
                /\ wroteHeader w = false /\ live_body w = "").
Proof.
  pose proof (rendering_errors_in_live_mode (H:=Fixture.collaborators) Fixture.site_broken)
    as (Hload & _).
  pose proof (rendering_errors_in_live_mode (H:=Fixture.collaborators) site_bang)
    as (_ & _ & Hpost & Habout & _).
  pose proof (rendering_errors_in_live_mode (H:=Fixture.collaborators) site_untemplated)
    as (_ & _ & _ & _ & Hlisting' & Hpost' & Habout').
  split; [computed|]. repeat apply conj.
  - exact (Hload LoadBlogPosts "Home" "home.gohtml" (ErrPermission "posts/broken.md") eq_refl).
  - exact (Hpost "bang" _ _ (ErrOther "execution failed") eq_refl eq_refl eq_refl).
  - exact (Habout (mkRequest None) _ _ (ErrOther "execution failed") eq_refl eq_refl eq_refl).
  - exact (Hlisting' LoadBlogPosts "Home" "home.gohtml" _ _
             (ErrNotExist "templates/base.gohtml") eq_refl eq_refl).
  - exact (Hpost' "a" _ _ (ErrNotExist "templates/base.gohtml") eq_refl eq_refl).
  - exact (Habout' (mkRequest None) _ _ (ErrNotExist "templates/base.gohtml") eq_refl eq_refl).
Defined.

(** C2, as the spec has it, fails where a template cannot be parsed:
    on a site without its templates a request for a post that loads is
    not answered with a 500, nor with any status; the handler
    panics. *)
Lemma template_failure_is_no_500 :
  snd (LoadPost site_untemplated "a") = None
  /\ snd (Fixture.ParseFiles site_untemplated (templateFiles "post.gohtml"))
     = Some (ErrNotExist "templates/base.gohtml")
  /\ (exists w, PostHandler site_untemplated liveResponse_new (postRequest "a") = Panicked w
                /\ wroteHeader w = false)
  /\ ~ (exists w, PostHandler site_untemplated liveResponse_new (postRequest "a") = Returned w
                  /\ (500 <= live_status w < 600)%Z).
Proof.
  assert (Hrun : exists w, PostHandler site_untemplated liveResponse_new (postRequest "a")
                           = Panicked w /\ wroteHeader w = false).
  { eexists. split; reflexivity. }
  split; [computed|]. split; [computed|]. split; [exact Hrun|].
  destruct Hrun as (w & Hw & _). intros (w' & Hw' & _). congruence.
Qed.

(** ** Static generation *)

Section Generation.
Context `{Collaborators}.

Lemma same_sources_refl (fs : FS) : same_sources fs fs.
Proof. constructor; reflexivity. Qed.

Lemma LoadPostFromFile_same (fs0 fs : FS) (p : string) :
  same_sources fs0 fs -> p ∈ sourcePaths fs0 ->
  LoadPostFromFile fs p = LoadPostFromFile fs0 p.
Proof.
  intros Hsame Hp. unfold LoadPostFromFile.
  now rewrite (same_read _ _ Hsame p Hp), (same_stat _ _ Hsame p Hp).
Qed.

Lemma loadPosts_loop_same (fs0 fs : FS) (files : list string) (posts : list PostData) :
  same_sources fs0 fs -> files ⊆ sourcePaths fs0 ->
  loadPosts_loop fs files posts = loadPosts_loop fs0 files posts.
Proof.
  intros Hsame. revert posts. induction files as [|file files IH]; intros posts Hsub;
    [reflexivity|]. simpl.
  rewrite (LoadPostFromFile_same fs0 fs file Hsame) by (apply Hsub; left).
  destruct (LoadPostFromFile fs0 file) as [post [e|]]; [reflexivity|].
  apply IH. intros p Hp. apply Hsub. now right.
Qed.

Lemma contentFiles_sources (fs : FS) : contentFiles fs ⊆ sourcePaths fs.
Proof.
  intros p Hp. unfold sourcePaths. right. apply elem_of_app. now left.
Qed.

Lemma LoadBlogPosts_same (fs0 fs : FS) :
  same_sources fs0 fs -> LoadBlogPosts fs = LoadBlogPosts fs0.
Proof.
  intros Hsame. unfold LoadBlogPosts, loadPostsFromDirectory.
  rewrite (same_posts _ _ Hsame).
  destruct (filepath_Glob fs0 "posts/*.md") as [files [e|]] eqn:Hglob; [reflexivity|].
  rewrite (loadPosts_loop_same fs0 fs files [] Hsame); [reflexivity|].
  intros p Hp. apply contentFiles_sources. unfold contentFiles. rewrite Hglob.
  apply elem_of_app. now left.
Qed.

Lemma LoadThoughtsPosts_same (fs0 fs : FS) :
  same_sources fs0 fs -> LoadThoughtsPosts fs = LoadThoughtsPosts fs0.
Proof.
  intros Hsame. unfold LoadThoughtsPosts, loadPostsFromDirectory.
  rewrite (same_thoughts _ _ Hsame).
  destruct (filepath_Glob fs0 "thoughts/*.md") as [files [e|]] eqn:Hglob; [reflexivity|].
  rewrite (loadPosts_loop_same fs0 fs files [] Hsame); [reflexivity|].
  intros p Hp. apply contentFiles_sources. unfold contentFiles. rewrite Hglob.
  apply elem_of_app. now right.
Qed.

Lemma LoadPost_same (fs0 fs : FS) (slug : string) :
  same_sources fs0 fs ->
  primaryPath slug ∈ sourcePaths fs0 -> secondaryPath slug ∈ sourcePaths fs0 ->
  LoadPost fs slug = LoadPost fs0 slug.
Proof.
  intros Hsame H1 H2. unfold LoadPost. fold (primaryPath slug) (secondaryPath slug).
  rewrite (same_stat _ _ Hsame _ H1), (same_stat _ _ Hsame _ H2).
  now rewrite !(LoadPostFromFile_same fs0 fs _ Hsame) by assumption.
Qed.

Section AnyWriter.
Context {W : Type} `{ResponseWriter W}.

Lemma postsHandler_same (fs0 fs : FS) (w : W) loadPosts (title page : string) :
  same_sources fs0 fs -> loadPosts fs = loadPosts fs0 -> page ∈ templatePages ->
  postsHandler fs w loadPosts title page = postsHandler fs0 w loadPosts title page.
Proof.
  intros Hsame Hload Hpage. unfold postsHandler. rewrite Hload.
  fold (templateFiles page). now rewrite (same_templates _ _ Hsame page Hpage).
Qed.

Lemma HomeHandler_same (fs0 fs : FS) (w : W) (r : Request) :
  same_sources fs0 fs -> HomeHandler fs w r = HomeHandler fs0 w r.
Proof.
  intros Hsame. apply postsHandler_same; [assumption | now apply LoadBlogPosts_same |].
  unfold templatePages. repeat constructor.
Qed.

Lemma ThoughtsHandler_same (fs0 fs : FS) (w : W) (r : Request) :
  same_sources fs0 fs -> ThoughtsHandler fs w r = ThoughtsHandler fs0 w r.
Proof.
  intros Hsame. apply postsHandler_same; [assumption | now apply LoadThoughtsPosts_same |].
  unfold templatePages. repeat constructor.
Qed.

Lemma AboutHandler_same (fs0 fs : FS) (w : W) (r : Request) :
  same_sources fs0 fs -> AboutHandler fs w r = AboutHandler fs0 w r.
Proof.
  intros Hsame. unfold AboutHandler, RenderMarkdown.
  rewrite (same_read _ _ Hsame "nav/about.md") by (unfold sourcePaths; left).
  fold (templateFiles "about.gohtml").
  rewrite (same_templates _ _ Hsame "about.gohtml") by (unfold templatePages; repeat constructor).
  reflexivity.
Qed.

Lemma PostHandler_same (fs0 fs : FS) (w : W) (file : string) :
  same_sources fs0 fs -> file ∈ contentFiles fs0 ->
  PostHandler fs w (requestFor file) = PostHandler fs0 w (requestFor file).
Proof.
  intros Hsame Hfile. unfold PostHandler.
  destruct (req_URL (requestFor file)) as [u|] eqn:Hurl; [|reflexivity].
  destruct (String.length (Path u) <? String.length "/post/"); [reflexivity|].
  assert (Hpaths : lookupPaths (requestFor file) ⊆ sourcePaths fs0).
  { intros p Hp. unfold sourcePaths. right. apply elem_of_app. right.
    apply list_elem_of_In, in_flat_map. exists file.
    split; now apply list_elem_of_In. }
  unfold lookupPaths in Hpaths. rewrite Hurl in Hpaths.
  rewrite (LoadPost_same fs0 fs _ Hsame) by (apply Hpaths; repeat constructor).
  fold (templateFiles "post.gohtml").
  rewrite (same_templates _ _ Hsame "post.gohtml") by (unfold templatePages; repeat constructor).
  reflexivity.
Qed.
End AnyWriter.

Lemma orReturn_ok (step rest : Disk -> run (option error)) (d d' : Disk) :
  orReturn step rest d = Completed None d' ->
  exists dm, step d = Completed None dm /\ rest dm = Completed None d'.
Proof.
  unfold orReturn. destruct (step d) as [[e|] dm|dm]; try discriminate.
  intros Hrest. now exists dm.
Qed.

(** One page: the handler's bytes, as on the first disk, go to
    [outputDir/filename], and the inputs stay as they were. *)
Lemma generatePage_ok (fs0 : FS) (outputDir filename : string)
  (handler : FS -> PageWriter -> outcome PageWriter) (d d' : Disk) :
  output_apart fs0 outputDir ->
  same_sources fs0 (disk_fs d) ->
  filepath.Join [outputDir; filename] ∈ outputPaths fs0 outputDir ->
  handler (disk_fs d) freshWriter = handler fs0 freshWriter ->
  generatePage outputDir filename (fun fs w => (handler fs w, None)) d = Completed None d' ->
  written d' = written d
               ++ [(filepath.Join [outputDir; filename], bytesOf (handler fs0 freshWriter))]
  /\ same_sources fs0 (disk_fs d').
Proof.
  intros Hapart Hsame Hout Hhandler Hgen. unfold generatePage in Hgen.
  fold freshWriter in Hgen. rewrite Hhandler in Hgen.
  destruct (handler fs0 freshWriter) as [w|w]; [|discriminate].
  destruct (Hapart _ Hsame) as [_ Hpaths].
  destruct (Hpaths _ Hout) as [Hmk Hwr].
  destruct (os_MkdirAll (disk_fs d) _) as [fs1 [e|]] eqn:Hmkdir; [discriminate|].
  simpl in Hmk.
  destruct (Hapart _ Hmk) as [_ Hpaths1].
  destruct (Hpaths1 _ Hout) as [_ Hwr1]. specialize (Hwr1 (buf (inner w))).
  destruct (os_WriteFile fs1 _ _) as [fs2 [e|]]; [discriminate|].
  injection Hgen as <-. simpl. split; [reflexivity | exact Hwr1].
Qed.

Lemma generatePostPages_ok (fs0 : FS) (outputDir : string) (files : list string)
  (d d' : Disk) :
  output_apart fs0 outputDir ->
  same_sources fs0 (disk_fs d) ->
  files ⊆ contentFiles fs0 ->
  generatePostPages outputDir files d = Completed None d' ->
  written d' = written d
               ++ map (fun file => (postOutputPath outputDir file,
                                    bytesOf (PostHandler fs0 freshWriter (requestFor file))))
                    files
  /\ same_sources fs0 (disk_fs d').
Proof.
  intros Hapart. revert d. induction files as [|file files IH]; intros d Hsame Hsub Hgen.
  - injection Hgen as <-. simpl. now rewrite app_nil_r.
  - simpl in Hgen. apply orReturn_ok in Hgen as (dm & Hpage & Hrest).
    assert (Hfile : file ∈ contentFiles fs0) by (apply Hsub; left).
    unfold generatePostPage in Hpage.
    destruct (url_Parse ("/post/" +:+ _)) as [reqURL perr] eqn:Hparse.
    assert (Hreq : mkRequest reqURL = requestFor file).
    { unfold requestFor, slugOf. now rewrite Hparse. }
    rewrite Hreq in Hpage.
    assert (Hout : filepath.Join [outputDir; filepath.Join ["post"; slugOf file; "index.html"]]
                   ∈ outputPaths fs0 outputDir).
    { unfold outputPaths. apply elem_of_app. right.
      apply list_elem_of_In, (in_map (postOutputPath outputDir)), list_elem_of_In, Hfile. }
    destruct (generatePage_ok fs0 outputDir _
                (fun fs w => PostHandler fs w (requestFor file)) d dm Hapart Hsame Hout
                (PostHandler_same fs0 _ _ file Hsame Hfile) Hpage) as [Hw Hs].
    destruct (IH dm Hs) as [Hw' Hs'].
    + intros p Hp. apply Hsub. now right.
    + assumption.
    + split; [|assumption]. rewrite Hw', Hw, <- app_assoc. reflexivity.
Qed.

Lemma generateDirectory_ok (fs0 : FS) (outputDir pattern : string) (d d' : Disk) :
  output_apart fs0 outputDir ->
  same_sources fs0 (disk_fs d) ->
  filepath_Glob (disk_fs d) pattern = filepath_Glob fs0 pattern ->
  fst (filepath_Glob fs0 pattern) ⊆ contentFiles fs0 ->
  generateDirectory outputDir pattern d = Completed None d' ->
  written d' = written d
               ++ map (fun file => (postOutputPath outputDir file,
                                    bytesOf (PostHandler fs0 freshWriter (requestFor file))))
                    (fst (filepath_Glob fs0 pattern))
  /\ same_sources fs0 (disk_fs d').
Proof.
  intros Hapart Hsame Hglob Hsub Hgen. unfold generateDirectory in Hgen.
  rewrite Hglob in Hgen.
  destruct (filepath_Glob fs0 pattern) as [files [e|]]; [discriminate|].
  now apply generatePostPages_ok.
Qed.

(** A completed run, started on a disk that shows the inputs of
    [fs0], has written the site of [fs0] and left the inputs alone. *)
Lemma GenerateStaticSite_ok (fs0 : FS) (outputDir : string) (d d' : Disk) :
  output_apart fs0 outputDir ->
  same_sources fs0 (disk_fs d) ->
  GenerateStaticSite outputDir d = Completed None d' ->
  written d' = written d ++ expectedSite fs0 outputDir
  /\ same_sources fs0 (disk_fs d').
Proof.
  intros Hapart Hsame Hgen. unfold GenerateStaticSite in Hgen.
  apply orReturn_ok in Hgen as (d1 & Hmk & Hgen).
  assert (Hd1 : written d1 = written d /\ same_sources fs0 (disk_fs d1)).
  { destruct (Hapart _ Hsame) as [Hm _].
    destruct (os_MkdirAll (disk_fs d) outputDir) as [fs1 err].
    injection Hmk as -> <-. now split. }
  destruct Hd1 as [Hw1 Hs1].
  assert (Hnamed : forall name, name ∈ ["index.html"; "about.html"; "thoughts.html"] ->
                   filepath.Join [outputDir; name] ∈ outputPaths fs0 outputDir).
  { intros name Hname. unfold outputPaths. apply elem_of_app. left.
    apply list_elem_of_In, (in_map (fun name => filepath.Join [outputDir; name])),
      list_elem_of_In, Hname. }
  apply orReturn_ok in Hgen as (d2 & Hhome & Hgen).
  apply (generatePage_ok fs0 outputDir "index.html"
           (fun fs w => HomeHandler fs w (mkRequest None))) in Hhome as [Hw2 Hs2];
    [|assumption|assumption|apply Hnamed; repeat constructor|now apply HomeHandler_same].
  apply orReturn_ok in Hgen as (d3 & Habout & Hgen).
  apply (generatePage_ok fs0 outputDir "about.html"
           (fun fs w => AboutHandler fs w (mkRequest None))) in Habout as [Hw3 Hs3];
    [|assumption|assumption|apply Hnamed; repeat constructor|now apply AboutHandler_same].
  apply orReturn_ok in Hgen as (d4 & Hthoughts & Hgen).
  apply (generatePage_ok fs0 outputDir "thoughts.html"
           (fun fs w => ThoughtsHandler fs w (mkRequest None))) in Hthoughts as [Hw4 Hs4];
    [|assumption|assumption|apply Hnamed; repeat constructor|now apply ThoughtsHandler_same].
  apply orReturn_ok in Hgen as (d5 & Hposts & Hgen).
  apply (generateDirectory_ok fs0) in Hposts as [Hw5 Hs5];
    [|assumption|assumption|apply (same_posts _ _ Hs4)
     |unfold contentFiles; intros p Hp; apply elem_of_app; auto].
  apply (generateDirectory_ok fs0) in Hgen as [Hw6 Hs6];
    [|assumption|assumption|apply (same_thoughts _ _ Hs5)
     |unfold contentFiles; intros p Hp; apply elem_of_app; auto].
  split; [|assumption].
  rewrite Hw6, Hw5, Hw4, Hw3, Hw2, Hw1. unfold expectedSite, contentFiles.
  rewrite map_app, <- !app_assoc. reflexivity.
Qed.

(** C9. Generating twice, the second time on the disk the first run
    left, writes the same files with the same bytes, provided the
    output tree lies apart from the inputs (so that the inputs are
    unchanged between the runs). *)
Theorem generation_is_idempotent (fs0 : FS) (outputDir : string) (d1 d2 : Disk) :
  output_apart fs0 outputDir ->
  GenerateStaticSite outputDir (mkDisk fs0 []) = Completed None d1 ->
  GenerateStaticSite outputDir (mkDisk (disk_fs d1) []) = Completed None d2 ->
  written d2 = written d1.
Proof.
  intros Hapart Hgen1 Hgen2.
  destruct (GenerateStaticSite_ok fs0 outputDir (mkDisk fs0 []) d1 Hapart
              (same_sources_refl fs0) Hgen1) as [Hw1 Hs1].
  destruct (GenerateStaticSite_ok fs0 outputDir (mkDisk (disk_fs d1) []) d2 Hapart Hs1 Hgen2)
    as [Hw2 _].
  simpl in *. congruence.
Qed.
End Generation.

(** ** The small site's output tree lies apart from its inputs *)

Lemma Fixture_lookup_store (fs : Fixture.Files) (p q : string) (f : Fixture.File) :
  p <> q -> Fixture.lookup (Fixture.store fs p f) q = Fixture.lookup fs q.
Proof.
  intros Hne. induction fs as [|[n g] fs IH]; simpl.
  - destruct (String.eqb_spec p q); [contradiction | reflexivity].
  - destruct (String.eqb_spec n p) as [->|Hnp]; simpl.
    + destruct (String.eqb_spec p q); [contradiction | reflexivity].
    + destruct (String.eqb_spec n q); [reflexivity | exact IH].
Qed.

Lemma Fixture_filter_store (P : string -> bool) (fs : Fixture.Files) (p : string)
  (f : Fixture.File) :
  P p = false ->
  filter (fun n => P n = true) (map fst (Fixture.store fs p f))
  = filter (fun n => P n = true) (map fst fs).
Proof.
  intros HP. induction fs as [|[n g] fs IH]; simpl.
  - rewrite filter_cons_False; [reflexivity | congruence].
  - destruct (String.eqb_spec n p) as [->|Hnp]; simpl; [reflexivity|].
    destruct (P n) eqn:HPn.
    + rewrite !filter_cons_True by assumption. now rewrite IH.
    + rewrite !filter_cons_False by congruence. exact IH.
Qed.

Lemma Fixture_store_same (fs0 fs : Fixture.Files) (p : string) (f : Fixture.File) :
  same_sources fs0 fs ->
  (forall q, q ∈ sourcePaths fs0 ++ flat_map templateFiles templatePages -> p <> q) ->
  Fixture.matches "posts/" ".md" p = false ->
  Fixture.matches "thoughts/" ".md" p = false ->
  same_sources (H:=Fixture.collaborators) fs0 (Fixture.store fs p f).
Proof.
  intros Hsame Hne Hposts Hthoughts.
  assert (Hread : forall q, p <> q ->
         Fixture.ReadFile (Fixture.store fs p f) q = Fixture.ReadFile fs q)
    by (intros q Hq; unfold Fixture.ReadFile; now rewrite Fixture_lookup_store).
  destruct Hsame as [Hp Ht Hr Hs Htm]. simpl in Hp, Ht, Hr, Hs, Htm.
  constructor; simpl.
  - rewrite <- Hp. unfold Fixture.Glob. simpl. now rewrite Fixture_filter_store.
  - rewrite <- Ht. unfold Fixture.Glob. simpl. now rewrite Fixture_filter_store.
  - intros q Hq. rewrite <- (Hr q Hq). apply Hread, Hne, elem_of_app. now left.
  - intros q Hq. rewrite <- (Hs q Hq). unfold Fixture.Stat.
    rewrite Fixture_lookup_store; [reflexivity | apply Hne, elem_of_app; now left].
  - intros page Hpage. rewrite <- (Htm page Hpage).
    unfold Fixture.ParseFiles, templateFiles.
    assert (Hin : forall n, n ∈ templateFiles page -> p <> n).
    { intros n Hn. apply Hne, elem_of_app. right.
      apply list_elem_of_In, in_flat_map. exists page.
      split; now apply list_elem_of_In. }
    unfold templateFiles in Hin.
    simpl. rewrite !Hread by (apply Hin; repeat constructor). reflexivity.
Qed.

Lemma Fixture_WriteFile_same (fs0 fs : Fixture.Files) (p bytes : string) :
  same_sources fs0 fs ->
  forallb (fun q => negb (String.eqb p q))
    (sourcePaths fs0 ++ flat_map templateFiles templatePages) = true ->
  Fixture.matches "posts/" ".md" p = false ->
  Fixture.matches "thoughts/" ".md" p = false ->
  same_sources fs0 (fst (os_WriteFile fs p bytes)).
Proof.
  intros Hsame Hfresh Hposts Hthoughts.
  assert (Hne : forall q, q ∈ sourcePaths fs0 ++ flat_map templateFiles templatePages -> p <> q).
  { intros q Hq ->. rewrite forallb_forall in Hfresh.
    specialize (Hfresh q (proj1 (list_elem_of_In _ _) Hq)).
    now rewrite String.eqb_refl in Hfresh. }
  simpl. unfold Fixture.WriteFile.
  destruct (Fixture.lookup fs p) as [[c m [e|] s]|]; simpl; try exact Hsame.
  all: now apply Fixture_store_same.
Qed.

Lemma Fixture_site_output_apart : output_apart Fixture.site "public".
Proof.
  intros fs Hsame. split; [exact Hsame|].
  intros p Hp. split; [exact Hsame|]. intros bytes.
  apply list_elem_of_In in Hp. vm_compute in Hp.
  repeat (destruct Hp as [<-|Hp];
          [apply Fixture_WriteFile_same; [exact Hsame | reflexivity..]|]).
  contradiction.
Qed.

Lemma generation_is_idempotent_witness :
  GenerateStaticSite "public" (mkDisk Fixture.site []) = Completed None site_generated /\
  GenerateStaticSite "public" (mkDisk (disk_fs site_generated) [])
  = Completed None site_regenerated /\
  written site_regenerated = written site_generated /\
  length (written site_generated) = 7.
Proof.
  assert (Hgen1 : GenerateStaticSite "public" (mkDisk Fixture.site [])
                  = Completed None site_generated) by computed.
  assert (Hgen2 : GenerateStaticSite "public" (mkDisk (disk_fs site_generated) [])
                  = Completed None site_regenerated) by computed.
  split; [exact Hgen1|]. split; [exact Hgen2|].
  split; [|computed].
  exact (generation_is_idempotent (H:=Fixture.collaborators) Fixture.site "public" _ _
           Fixture_site_output_apart Hgen1 Hgen2).
Defined.

(** ** [sort.Slice] sorts *)

Section SwapFacts.
Context {A : Type}.
Implicit Types d : list A.

Lemma Swap_length d i j : length (sort.Swap d i j) = length d.
Proof.
  unfold sort.Swap. destruct (d !! i), (d !! j); try reflexivity.
  now rewrite !length_insert.
Qed.

Lemma Swap_lookup d i j k :
  i < length d -> j < length d ->
  sort.Swap d i j !! k
  = if decide (k = i) then d !! j else if decide (k = j) then d !! i else d !! k.
Proof.
  intros Hi Hj. unfold sort.Swap.
  destruct (lookup_lt_is_Some_2 d i Hi) as [x Hx].
  destruct (lookup_lt_is_Some_2 d j Hj) as [y Hy].
  rewrite Hx, Hy.
  destruct (decide (k = i)) as [->|Hki].
  - rewrite list_lookup_insert_eq; [reflexivity | now rewrite length_insert].
  - rewrite list_lookup_insert_ne by congruence.
    destruct (decide (k = j)) as [->|Hkj].
    + now rewrite list_lookup_insert_eq.
    + now rewrite list_lookup_insert_ne by congruence.
Qed.

Lemma Swap_other d i j k : k <> i -> k <> j -> sort.Swap d i j !! k = d !! k.
Proof.
  intros Hi Hj. unfold sort.Swap. destruct (d !! i), (d !! j); try reflexivity.
  now rewrite !list_lookup_insert_ne by congruence.
Qed.

Lemma Swap_Permutation d i j : d ≡ₚ sort.Swap d i j.
Proof.
  unfold sort.Swap. destruct (d !! i) as [x|] eqn:Hx, (d !! j) as [y|] eqn:Hy;
    try reflexivity.
  symmetry. now apply Permutation_insert_swap.
Qed.

Lemma Swap_same d i : sort.Swap d i i = d.
Proof.
  unfold sort.Swap. destruct (d !! i) as [x|] eqn:Hx; [|reflexivity].
  rewrite list_insert_insert_eq. now apply list_insert_id.
Qed.

Lemma frame_refl a b d : frame a b d d.
Proof. now split. Qed.

Lemma frame_trans a b d1 d2 d3 : frame a b d1 d2 -> frame a b d2 d3 -> frame a b d1 d3.
Proof.
  intros [L1 H1] [L2 H2]. split; [congruence|].
  intros k Hk. now rewrite H2, H1.
Qed.

Lemma frame_weaken a b a' b' d d' :
  a' <= a -> b <= b' -> frame a b d d' -> frame a' b' d d'.
Proof. intros Ha Hb [L Hf]. split; [assumption|]. intros k Hk. apply Hf. lia. Qed.

Lemma Swap_frame a b d i j :
  a <= i < b -> a <= j < b -> frame a b d (sort.Swap d i j).
Proof.
  intros Hi Hj. split; [apply Swap_length|].
  intros k Hk. apply Swap_other; lia.
Qed.

(** The elements of a range after a permutation that kept the rest
    in place are the elements it had before. *)
Lemma frame_range_elements a b d d' (P : A -> Prop) :
  a <= b <= length d -> frame a b d d' -> d ≡ₚ d' ->
  (forall k x, a <= k < b -> d !! k = Some x -> P x) ->
  forall k x, a <= k < b -> d' !! k = Some x -> P x.
Proof.
  intros Hab [Hlen Hout] Hperm HP k x Hk Hx.
  assert (Htake : take a d' = take a d).
  { apply list_eq. intros i. destruct (decide (i < a)).
    - rewrite !lookup_take_lt by assumption. apply Hout. lia.
    - rewrite !lookup_take_ge by lia. reflexivity. }
  assert (Hdrop : drop b d' = drop b d).
  { apply list_eq. intros i. rewrite !lookup_drop. apply Hout. lia. }
  assert (Hmid : take (b - a) (drop a d) ≡ₚ take (b - a) (drop a d')).
  { rewrite <- (take_drop a d), <- (take_drop a d') in Hperm.
    rewrite Htake in Hperm. apply Permutation_app_inv_l in Hperm.
    rewrite <- (take_drop (b - a) (drop a d)), <- (take_drop (b - a) (drop a d')) in Hperm.
    rewrite !drop_drop in Hperm. replace (a + (b - a)) with b in Hperm by lia.
    rewrite Hdrop in Hperm. now apply Permutation_app_inv_r in Hperm. }
  assert (Hin : x ∈ take (b - a) (drop a d')).
  { apply list_elem_of_lookup. exists (k - a).
    rewrite lookup_take_lt by lia. rewrite lookup_drop.
    now replace (a + (k - a)) with k by lia. }
  rewrite <- Hmid in Hin. apply list_elem_of_lookup in Hin as [i Hi].
  assert (i < b - a).
  { apply lookup_lt_Some in Hi. rewrite length_take in Hi. lia. }
  rewrite lookup_take_lt, lookup_drop in Hi by assumption.
  apply (HP (a + i)); [lia | assumption].
Qed.
End SwapFacts.

Section OrderFacts.
Context {A : Type} (less : A -> A -> bool) (Hless : strict_weak less).
Implicit Types d : list A.

Lemma less_asym x y : less x y = true -> less y x = false.
Proof.
  intros Hxy. destruct (less y x) eqn:Hyx; [|reflexivity].
  pose proof (less_trans _ Hless _ _ _ Hxy Hyx) as Hxx.
  now rewrite (less_irrefl _ Hless) in Hxx.
Qed.

Lemma less_le_trans x y z : less x y = true -> less z y = false -> less x z = true.
Proof.
  intros Hxy Hzy. destruct (less x z) eqn:Hxz; [reflexivity|].
  pose proof (less_incomparable _ Hless _ _ _ Hxz Hzy). congruence.
Qed.

Lemma le_less_trans x y z : less y x = false -> less y z = true -> less x z = true.
Proof.
  intros Hyx Hyz. destruct (less x z) eqn:Hxz; [reflexivity|].
  pose proof (less_incomparable _ Hless _ _ _ Hyx Hxz). congruence.
Qed.

Lemma Less_true d i j :
  sort.Less less d i j = true ->
  exists x y, d !! i = Some x /\ d !! j = Some y /\ less x y = true.
Proof.
  unfold sort.Less. destruct (d !! i) as [x|], (d !! j) as [y|]; try discriminate.
  eauto.
Qed.

Lemma Less_false d i j x y :
  sort.Less less d i j = false -> d !! i = Some x -> d !! j = Some y -> less x y = false.
Proof. unfold sort.Less. intros H Hx Hy. now rewrite Hx, Hy in H. Qed.

Lemma Less_eq d i j x y :
  d !! i = Some x -> d !! j = Some y -> sort.Less less d i j = less x y.
Proof. unfold sort.Less. now intros -> ->. Qed.

(** *** Insertion sort *)

Lemma insert_down_spec a j : forall d m,
  a <= j -> j <= m -> m < length d ->
  (forall i k x y, a <= i -> i < k -> k <= m -> i <> j -> k <> j ->
     d !! i = Some x -> d !! k = Some y -> less y x = false) ->
  (forall k x y, j < k -> k <= m -> d !! j = Some x -> d !! k = Some y -> less y x = false) ->
  sorted_range less (sort.insert_down less d a j) a (S m)
  /\ frame a (S j) d (sort.insert_down less d a j)
  /\ d ≡ₚ sort.insert_down less d a j.
Proof.
  induction j as [|j IH]; intros d m Ha Hm Hlen Hrest Hafter.
  - simpl. split; [|split; [apply frame_refl | reflexivity]].
    intros i k x y Hi Hik Hk Hx Hy.
    destruct (decide (i = 0)) as [->|Hi0].
    + apply (Hafter k); auto; lia.
    + apply (Hrest i k); auto; lia.
  - simpl.
    destruct ((a <? S j) && sort.Less less d (S j) j) eqn:Hgo.
    + apply andb_true_iff in Hgo as [Haj HL]. apply Nat.ltb_lt in Haj.
      apply Less_true in HL as (x & y & Hx & Hy & Hxy).
      assert (Hsw : forall k, sort.Swap d (S j) j !! k
                = if decide (k = S j) then d !! j
                  else if decide (k = j) then d !! S j else d !! k).
      { intros k. apply Swap_lookup; lia. }
      destruct (IH (sort.Swap d (S j) j) m) as (Hs & Hf & Hp).
      * lia.
      * lia.
      * now rewrite Swap_length.
      * intros i k u v Hi Hik Hk Hij Hkj. rewrite !Hsw.
        repeat case_decide; try lia; intros Hu Hv;
          refine (Hrest _ _ u v _ _ _ _ _ Hu Hv); lia.
      * intros k u v Hjk Hk. rewrite !Hsw.
        repeat case_decide; try lia; intros Hu Hv.
        -- assert (u = x) by congruence. assert (v = y) by congruence. subst u v.
           now apply less_asym.
        -- refine (Hafter _ u v _ _ Hu Hv); lia.
      * split; [exact Hs|]. split.
        -- apply (frame_trans _ _ _ (sort.Swap d (S j) j)).
           ++ apply Swap_frame; lia.
           ++ apply (frame_weaken a (S j)); [lia | lia | exact Hf].
        -- now rewrite <- Hp, <- Swap_Permutation.
    + split; [|split; [apply frame_refl | reflexivity]].
      intros i k u v Hi Hik Hk Hu Hv.
      destruct (decide (i = S j)) as [->|Hij].
      { apply (Hafter k); auto; lia. }
      destruct (decide (k = S j)) as [->|Hkj].
      2:{ apply (Hrest i k); auto; lia. }
      apply andb_false_iff in Hgo as [Haj|HL].
      { apply Nat.ltb_ge in Haj. lia. }
      destruct (lookup_lt_is_Some_2 d j) as [w Hw]; [lia|].
      pose proof (Less_false _ _ _ _ _ HL Hv Hw) as Hvw.
      destruct (decide (i = j)) as [->|Hij'].
      { congruence. }
      assert (Huw : less w u = false) by (apply (Hrest i j); auto; lia).
      exact (less_incomparable _ Hless _ _ _ Hvw Huw).
Qed.

Lemma insertion_loop_spec a n : forall d i,
  a < i -> i + n <= length d ->
  sorted_range less d a i ->
  sorted_range less (sort.insertion_loop less d a i n) a (i + n)
  /\ frame a (i + n) d (sort.insertion_loop less d a i n)
  /\ d ≡ₚ sort.insertion_loop less d a i n.
Proof.
  induction n as [|n IH]; intros d i Hai Hlen Hs; simpl.
  - rewrite Nat.add_0_r. split; [exact Hs|]. split; [apply frame_refl | reflexivity].
  - destruct (insert_down_spec a i d i) as (Hs1 & Hf1 & Hp1); try lia.
    + intros j k x y Hj Hjk Hk Hji Hki. apply Hs; lia.
    + destruct (IH (sort.insert_down less d a i) (S i)) as (Hs2 & Hf2 & Hp2).
      * lia.
      * destruct Hf1 as [-> _]. lia.
      * exact Hs1.
      * replace (i + S n) with (S i + n) by lia.
        split; [exact Hs2|]. split.
        -- eapply frame_trans; [|exact Hf2].
           apply (frame_weaken a (S i)); [lia | lia | exact Hf1].
        -- now rewrite <- Hp2.
Qed.

Lemma insertionSort_spec d a b :
  a <= b -> b <= length d ->
  sorted_range less (sort.insertionSort less d a b) a b
  /\ frame a b d (sort.insertionSort less d a b)
  /\ d ≡ₚ sort.insertionSort less d a b.
Proof.
  intros Hab Hb. unfold sort.insertionSort.
  destruct (decide (b - (a + 1) = 0)) as [Hz|Hnz].
  - rewrite Hz. simpl. split; [|split; [apply frame_refl | reflexivity]].
    intros i k x y Hi Hik Hk. lia.
  - destruct (insertion_loop_spec a (b - (a + 1)) d (a + 1)) as (Hs & Hf & Hp); try lia.
    + intros i k x y Hi Hik Hk. lia.
    + replace (a + 1 + (b - (a + 1))) with b in * by lia. auto.
Qed.
End OrderFacts.

Section Stability.
Context {A : Type} (less : A -> A -> bool) (Hless : strict_weak less).
Implicit Types d : list A.

Lemma Swap_cons (z : A) d i j :
  sort.Swap (z :: d) (S i) (S j) = z :: sort.Swap d i j.
Proof.
  unfold sort.Swap. simpl. destruct (d !! i), (d !! j); reflexivity.
Qed.

Lemma filter_Swap_adjacent (f : A -> bool) : forall d j x y,
  d !! j = Some y -> d !! S j = Some x -> f x && f y = false ->
  List.filter f (sort.Swap d (S j) j) = List.filter f d.
Proof.
  induction d as [|z d IH]; intros j x y Hy Hx Hf; [discriminate|].
  destruct j as [|j].
  - destruct d as [|x' d]; [discriminate|]. simpl in Hy, Hx.
    injection Hy as ->. injection Hx as ->.
    unfold sort.Swap. simpl.
    destruct (f x), (f y); try discriminate; reflexivity.
  - rewrite Swap_cons. simpl. now rewrite (IH j x y).
Qed.

Lemma equivb_not_both w x y :
  less x y = true -> equivb less w x && equivb less w y = false.
Proof.
  intros Hxy. unfold equivb.
  destruct (less w x) eqn:Hwx; [reflexivity|].
  destruct (less x w) eqn:Hxw; [reflexivity|].
  destruct (less w y) eqn:Hwy; [reflexivity|].
  destruct (less y w) eqn:Hyw; [now rewrite andb_false_r|]. simpl.
  pose proof (less_incomparable _ Hless _ _ _ Hxw Hwy). congruence.
Qed.

Lemma same_order_refl d : same_order_of_equals less d d.
Proof. intros x. reflexivity. Qed.

Lemma same_order_trans d1 d2 d3 :
  same_order_of_equals less d1 d2 -> same_order_of_equals less d2 d3 ->
  same_order_of_equals less d1 d3.
Proof. intros H1 H2 x. now rewrite H2, H1. Qed.

Lemma insert_down_stable a j : forall d,
  same_order_of_equals less d (sort.insert_down less d a j).
Proof.
  induction j as [|j IH]; intros d; simpl; [apply same_order_refl|].
  destruct ((a <? S j) && sort.Less less d (S j) j) eqn:Hgo; [|apply same_order_refl].
  apply andb_true_iff in Hgo as [_ HL].
  apply (Less_true less) in HL as (x & y & Hx & Hy & Hxy).
  eapply same_order_trans; [|apply IH].
  intros w. apply (filter_Swap_adjacent _ d j x y Hy Hx).
  rewrite andb_comm. rewrite andb_comm. now apply equivb_not_both.
Qed.

Lemma insertion_loop_stable a n : forall d i,
  same_order_of_equals less d (sort.insertion_loop less d a i n).
Proof.
  induction n as [|n IH]; intros d i; simpl; [apply same_order_refl|].
  eapply same_order_trans; [apply insert_down_stable | apply IH].
Qed.

(** Insertion sort is stable. *)
Lemma insertionSort_stable d a b :
  same_order_of_equals less d (sort.insertionSort less d a b).
Proof. apply insertion_loop_stable. Qed.
End Stability.

Section Scans.
Lemma scan_up_spec (P : nat -> bool) (fuel : nat) : forall i j,
  S j - i <= fuel -> i <= S j ->
  i <= sort.scan_up P fuel i j <= S j
  /\ (forall k, i <= k < sort.scan_up P fuel i j -> P k = true)
  /\ (sort.scan_up P fuel i j <= j -> P (sort.scan_up P fuel i j) = false).
Proof.
  induction fuel as [|fuel IH]; intros i j Hfuel Hij; simpl.
  - split; [lia|]. split; [intros k Hk; lia | intros Hle; lia].
  - destruct (i <=? j) eqn:Hle; simpl.
    + apply Nat.leb_le in Hle. destruct (P i) eqn:HP.
      * destruct (IH (S i) j) as (Hb & Hall & Hstop); [lia | lia |].
        split; [lia|]. split; [|exact Hstop].
        intros k Hk. destruct (decide (k = i)) as [->|Hne]; [exact HP|].
        apply Hall. lia.
      * split; [lia|]. split; [intros k Hk; lia | intros _; exact HP].
    + apply Nat.leb_gt in Hle. split; [lia|]. split; [intros k Hk; lia | intros Hle'; lia].
Qed.

Lemma scan_down_spec (P : nat -> bool) (fuel : nat) : forall i j,
  S j - i <= fuel -> 1 <= i -> i <= S j ->
  i <= S (sort.scan_down P fuel i j) /\ sort.scan_down P fuel i j <= j
  /\ (forall k, sort.scan_down P fuel i j < k <= j -> P k = true)
  /\ (i <= sort.scan_down P fuel i j -> P (sort.scan_down P fuel i j) = false).
Proof.
  induction fuel as [|fuel IH]; intros i j Hfuel Hi Hij; simpl.
  - split; [lia|]. split; [lia|]. split; [intros k Hk; lia | intros Hle; lia].
  - destruct (i <=? j) eqn:Hle; simpl.
    + apply Nat.leb_le in Hle. destruct (P j) eqn:HP.
      * destruct (IH i (j - 1)) as (Hb & Hb' & Hall & Hstop); [lia | lia | lia |].
        split; [lia|]. split; [lia|]. split; [|exact Hstop].
        intros k Hk. destruct (decide (k = j)) as [->|Hne]; [exact HP|].
        apply Hall. lia.
      * split; [lia|]. split; [lia|].
        split; [intros k Hk; lia | intros _; exact HP].
    + apply Nat.leb_gt in Hle. split; [lia|]. split; [lia|].
      split; [intros k Hk; lia | intros Hle'; lia].
Qed.
End Scans.

Section Partition.
Context {A : Type} (less : A -> A -> bool).
Implicit Types d : list A.

Lemma below_goes_left equal d a k p x :
  d !! a = Some p -> d !! k = Some x -> below less equal d a k = goes_left less equal p x.
Proof.
  intros Hp Hx. unfold below, goes_left. destruct equal.
  - now rewrite (Less_eq less d a k p x).
  - now rewrite (Less_eq less d k a x p).
Qed.

Lemma above_goes_left equal d a k p x :
  d !! a = Some p -> d !! k = Some x -> above less equal d a k = negb (goes_left less equal p x).
Proof.
  intros Hp Hx. unfold above, goes_left. destruct equal.
  - rewrite (Less_eq less d a k p x) by assumption. now rewrite negb_involutive.
  - now rewrite (Less_eq less d k a x p).
Qed.

Lemma partition_loop_unfold fuel d a i j equal :
  sort.partition_loop less (S fuel) d a i j equal =
    let i' := sort.scan_up (below less equal d a) (S j - i) i j in
    let j' := sort.scan_down (above less equal d a) (S j - i') i' j in
    if j' <? i' then (d, i', j')
    else sort.partition_loop less fuel (sort.Swap d i' j') a (S i') (j' - 1) equal.
Proof. reflexivity. Qed.

Lemma partition_loop_spec (equal : bool) (p : A) (a b : nat) (fuel : nat) :
  forall d i j,
  S j - i < fuel -> a < i -> i <= S j -> j < b -> b <= length d ->
  d !! a = Some p ->
  (forall k x, a < k < i -> d !! k = Some x -> goes_left less equal p x = true) ->
  (forall k x, j < k < b -> d !! k = Some x -> goes_left less equal p x = false) ->
  exists d' i', sort.partition_loop less fuel d a i j equal = (d', i', i' - 1)
    /\ a < i' <= b
    /\ frame (S a) b d d' /\ d ≡ₚ d'
    /\ (forall k x, a < k < i' -> d' !! k = Some x -> goes_left less equal p x = true)
    /\ (forall k x, i' <= k < b -> d' !! k = Some x -> goes_left less equal p x = false).
Proof.
  induction fuel as [|fuel IH]; intros d i j Hfuel Hai Hij Hjb Hb Hp Hleft Hright; [lia|].
  rewrite partition_loop_unfold. cbv zeta.
  destruct (scan_up_spec (below less equal d a) (S j - i) i j) as (Hi' & Hup & Hupstop);
    [lia | lia |].
  set (i' := sort.scan_up (below less equal d a) (S j - i) i j) in *.
  destruct (scan_down_spec (above less equal d a) (S j - i') i' j) as (Hj1 & Hj2 & Hdown & Hdownstop);
    [lia | lia | lia |].
  set (j' := sort.scan_down (above less equal d a) (S j - i') i' j) in *.
  assert (Hleft' : forall k x, a < k < i' -> d !! k = Some x -> goes_left less equal p x = true).
  { intros k x Hk Hx. destruct (decide (k < i)) as [Hlt|Hge]; [apply (Hleft k); auto; lia|].
    rewrite <- (below_goes_left equal d a k p x Hp Hx). apply Hup. lia. }
  assert (Hright' : forall k x, j' < k < b -> d !! k = Some x -> goes_left less equal p x = false).
  { intros k x Hk Hx. destruct (decide (j < k)) as [Hlt|Hge]; [apply (Hright k); auto; lia|].
    apply negb_true_iff. rewrite <- (above_goes_left equal d a k p x Hp Hx).
    apply Hdown. lia. }
  destruct (j' <? i') eqn:Hcmp.
  - apply Nat.ltb_lt in Hcmp. exists d, i'.
    replace (i' - 1) with j' by lia.
    split; [reflexivity|]. split; [lia|]. split; [apply frame_refl|].
    split; [reflexivity|]. split; [exact Hleft'|].
    intros k x Hk Hx. apply (Hright' k); auto. lia.
  - apply Nat.ltb_ge in Hcmp.
    destruct (lookup_lt_is_Some_2 d i') as [xi Hxi]; [lia|].
    destruct (lookup_lt_is_Some_2 d j') as [xj Hxj]; [lia|].
    assert (Hqi : goes_left less equal p xi = false).
    { rewrite <- (below_goes_left equal d a i' p xi Hp Hxi). apply Hupstop. lia. }
    assert (Hqj : goes_left less equal p xj = true).
    { apply negb_false_iff. rewrite <- (above_goes_left equal d a j' p xj Hp Hxj).
      apply Hdownstop. lia. }
    assert (Hne : i' <> j') by (intros E; rewrite E in Hxi; congruence).
    assert (Hsw : forall k, sort.Swap d i' j' !! k
              = if decide (k = i') then d !! j'
                else if decide (k = j') then d !! i' else d !! k).
    { intros k. apply Swap_lookup; lia. }
    destruct (IH (sort.Swap d i' j') (S i') (j' - 1)) as (d' & i'' & Heq & Hb' & Hf & Hperm & HL & HR).
    + lia.
    + lia.
    + lia.
    + lia.
    + now rewrite Swap_length.
    + rewrite Hsw. repeat case_decide; try lia. exact Hp.
    + intros k x Hk. rewrite Hsw. repeat case_decide; try lia; intros Hx.
      * congruence.
      * apply (Hleft' k); auto. lia.
    + intros k x Hk. rewrite Hsw. repeat case_decide; try lia; intros Hx.
      * congruence.
      * apply (Hright' k); auto. lia.
    + exists d', i''. split; [exact Heq|]. split; [lia|]. split.
      * apply (frame_trans _ _ _ (sort.Swap d i' j')); [apply Swap_frame; lia | exact Hf].
      * split; [now rewrite <- Hperm, <- Swap_Permutation|]. split; assumption.
Qed.
End Partition.

Section PartitionSpec.
Context {A : Type} (less : A -> A -> bool) (Hless : strict_weak less).
Implicit Types d : list A.

Lemma partition_as_loop d a b pivot :
  (let '(d', mid, _) := sort.partition less d a b pivot in (d', mid))
  = (let '(d2, _, j) :=
       sort.partition_loop less (S (b - a)) (sort.Swap d a pivot) a (a + 1) (b - 1) false in
     (sort.Swap d2 j a, j)).
Proof.
  unfold sort.partition. rewrite partition_loop_unfold. cbv zeta.
  fold (below less false (sort.Swap d a pivot) a).
  fold (above less false (sort.Swap d a pivot) a).
  destruct (_ <? _); [reflexivity|].
  destruct (sort.partition_loop _ _ _ _ _ _ _) as [[d2 i] j]. reflexivity.
Qed.

(** [partition]: the pivot ends at the returned index, with the
    elements less than it before and the others after. *)
Lemma partition_spec d a b pivot p :
  a <= pivot -> pivot < b -> b <= length d -> d !! pivot = Some p ->
  exists d' mid flag,
    sort.partition less d a b pivot = (d', mid, flag)
    /\ a <= mid < b
    /\ frame a b d d' /\ d ≡ₚ d'
    /\ d' !! mid = Some p
    /\ (forall k x, a <= k < mid -> d' !! k = Some x -> less x p = true)
    /\ (forall k x, mid < k < b -> d' !! k = Some x -> less x p = false).
Proof.
  intros Ha Hb Hlen Hp.
  pose proof (partition_as_loop d a b pivot) as Hloop.
  assert (Hsw : forall k, sort.Swap d a pivot !! k
            = if decide (k = a) then d !! pivot
              else if decide (k = pivot) then d !! a else d !! k).
  { intros k. apply Swap_lookup; lia. }
  destruct (partition_loop_spec less false p a b (S (b - a)) (sort.Swap d a pivot)
              (a + 1) (b - 1)) as (d2 & i' & Heq & Hi' & Hf & Hperm & HL & HR).
  - lia.
  - lia.
  - lia.
  - lia.
  - now rewrite Swap_length.
  - rewrite Hsw. now rewrite decide_True.
  - intros k x Hk. lia.
  - intros k x Hk. lia.
  - rewrite Heq in Hloop.
    destruct (sort.partition less d a b pivot) as [[d' mid] flag].
    injection Hloop as -> ->.
    exists (sort.Swap d2 (i' - 1) a), (i' - 1), flag.
    assert (Hlen2 : length d2 = length d).
    { destruct Hf as [-> _]. apply Swap_length. }
    assert (Hpa : d2 !! a = Some p).
    { destruct Hf as [_ Hout]. rewrite Hout by lia. rewrite Hsw. now rewrite decide_True. }
    assert (Hsw2 : forall k, sort.Swap d2 (i' - 1) a !! k
              = if decide (k = i' - 1) then d2 !! a
                else if decide (k = a) then d2 !! (i' - 1) else d2 !! k).
    { intros k. apply Swap_lookup; lia. }
    split; [reflexivity|]. split; [lia|]. split.
    { apply (frame_trans _ _ _ (sort.Swap d a pivot)); [apply Swap_frame; lia|].
      apply (frame_trans _ _ _ d2);
        [apply (frame_weaken (S a) b); [lia | lia | exact Hf] | apply Swap_frame; lia]. }
    split. { now rewrite <- Swap_Permutation, <- Hperm, <- Swap_Permutation. }
    split. { rewrite Hsw2. now rewrite decide_True. }
    split.
    + intros k x Hk. rewrite Hsw2. repeat case_decide; try lia; intros Hx.
      * apply (HL (i' - 1)); [lia | exact Hx].
      * apply (HL k); [lia | exact Hx].
    + intros k x Hk. rewrite Hsw2. repeat case_decide; try lia; intros Hx.
      apply (HR k); [lia | exact Hx].
Qed.

(** [partitionEqual]: the elements not greater than the pivot come
    first, the greater ones from the returned index on. *)
Lemma partitionEqual_spec d a b pivot p :
  a <= pivot -> pivot < b -> b <= length d -> d !! pivot = Some p ->
  exists d' mid,
    sort.partitionEqual less d a b pivot = (d', mid)
    /\ a < mid <= b
    /\ frame a b d d' /\ d ≡ₚ d'
    /\ (forall k x, a <= k < mid -> d' !! k = Some x -> less p x = false)
    /\ (forall k x, mid <= k < b -> d' !! k = Some x -> less p x = true).
Proof.
  intros Ha Hb Hlen Hp. unfold sort.partitionEqual.
  assert (Hsw : forall k, sort.Swap d a pivot !! k
            = if decide (k = a) then d !! pivot
              else if decide (k = pivot) then d !! a else d !! k).
  { intros k. apply Swap_lookup; lia. }
  destruct (partition_loop_spec less true p a b (S (b - a)) (sort.Swap d a pivot)
              (a + 1) (b - 1)) as (d2 & i' & Heq & Hi' & Hf & Hperm & HL & HR).
  - lia.
  - lia.
  - lia.
  - lia.
  - now rewrite Swap_length.
  - rewrite Hsw. now rewrite decide_True.
  - intros k x Hk. lia.
  - intros k x Hk. lia.
  - rewrite Heq. exists d2, i'.
    split; [reflexivity|]. split; [lia|]. split.
    { apply (frame_trans _ _ _ (sort.Swap d a pivot)); [apply Swap_frame; lia|].
      apply (frame_weaken (S a) b); [lia | lia | exact Hf]. }
    split. { now rewrite <- Hperm, <- Swap_Permutation. }
    split.
    + intros k x Hk Hx. destruct (decide (k = a)) as [->|Hne].
      * destruct Hf as [_ Hout]. rewrite Hout in Hx by lia.
        rewrite Hsw in Hx. rewrite decide_True in Hx by reflexivity.
        assert (x = p) by congruence. subst x. apply (less_irrefl _ Hless).
      * apply negb_true_iff. apply (HL k); [lia | exact Hx].
    + intros k x Hk Hx. apply negb_false_iff. apply (HR k); [lia | exact Hx].
Qed.
End PartitionSpec.

Section Pivot.
Context {A : Type} (less : A -> A -> bool).
Implicit Types d : list A.

Lemma order2_in d a b swaps :
  let '(x, y, _) := sort.order2 less d a b swaps in
  (x = a /\ y = b) \/ (x = b /\ y = a).
Proof. unfold sort.order2. destruct (sort.Less less d b a); auto. Qed.

Lemma median_in d a b c swaps :
  let '(m, _) := sort.median less d a b c swaps in m = a \/ m = b \/ m = c.
Proof.
  unfold sort.median.
  pose proof (order2_in d a b swaps) as H1.
  destruct (sort.order2 less d a b swaps) as [[a1 b1] s1].
  pose proof (order2_in d b1 c s1) as H2.
  destruct (sort.order2 less d b1 c s1) as [[b2 c2] s2].
  pose proof (order2_in d a1 b2 s2) as H3.
  destruct (sort.order2 less d a1 b2 s2) as [[a3 b3] s3].
  lia.
Qed.

Lemma medianAdjacent_in d a swaps :
  let '(m, _) := sort.medianAdjacent less d a swaps in a - 1 <= m <= a + 1.
Proof.
  unfold sort.medianAdjacent.
  pose proof (median_in d (a - 1) a (a + 1) swaps) as H.
  destruct (sort.median less d (a - 1) a (a + 1) swaps) as [m s]. lia.
Qed.

(** The pivot [choosePivot] picks lies in the range. *)
Lemma choosePivot_range d a b :
  a < b -> let '(pivot, _) := sort.choosePivot less d a b in a <= pivot < b.
Proof.
  intros Hab. unfold sort.choosePivot. cbv zeta.
  assert (Hq : 4 * ((b - a) / 4) <= b - a) by (apply Nat.Div0.mul_div_le).
  set (q := (b - a) / 4) in *.
  destruct (8 <=? b - a) eqn:H8.
  - apply Nat.leb_le in H8. assert (2 <= q) by (unfold q; apply Nat.div_le_lower_bound; lia).
    destruct (sort.shortestNinther <=? b - a) eqn:H50.
    + apply Nat.leb_le in H50. unfold sort.shortestNinther in H50.
      assert (12 <= q) by (unfold q; apply Nat.div_le_lower_bound; lia).
      pose proof (medianAdjacent_in d (a + q * 1) 0) as Hi.
      destruct (sort.medianAdjacent less d (a + q * 1) 0) as [i s1].
      pose proof (medianAdjacent_in d (a + q * 2) s1) as Hj.
      destruct (sort.medianAdjacent less d (a + q * 2) s1) as [j s2].
      pose proof (medianAdjacent_in d (a + q * 3) s2) as Hk.
      destruct (sort.medianAdjacent less d (a + q * 3) s2) as [k s3].
      pose proof (median_in d i j k s3) as Hm.
      destruct (sort.median less d i j k s3) as [m s4].
      destruct (s4 =? 0); [lia|]. destruct (s4 =? sort.maxSwaps); lia.
    + pose proof (median_in d (a + q * 1) (a + q * 2) (a + q * 3) 0) as Hm.
      destruct (sort.median less d (a + q * 1) (a + q * 2) (a + q * 3) 0) as [m s4].
      destruct (s4 =? 0); [lia|]. destruct (s4 =? sort.maxSwaps); lia.
  - simpl. lia.
Qed.

Lemma reverse_loop_spec a b fuel : forall d i j,
  a <= i -> j < b -> b <= length d ->
  frame a b d (sort.reverse_loop fuel d i j) /\ d ≡ₚ sort.reverse_loop fuel d i j.
Proof.
  induction fuel as [|fuel IH]; intros d i j Hi Hj Hb; simpl.
  - split; [apply frame_refl | reflexivity].
  - destruct (i <? j) eqn:Hij; [|split; [apply frame_refl | reflexivity]].
    apply Nat.ltb_lt in Hij.
    destruct (IH (sort.Swap d i j) (S i) (j - 1)) as [Hf Hp];
      [lia | lia | now rewrite Swap_length |].
    split.
    + apply (frame_trans _ _ _ (sort.Swap d i j)); [apply Swap_frame; lia | exact Hf].
    + now rewrite <- Hp, <- Swap_Permutation.
Qed.

Lemma reverseRange_spec d a b :
  a < b -> b <= length d ->
  frame a b d (sort.reverseRange d a b) /\ d ≡ₚ sort.reverseRange d a b.
Proof. intros Hab Hb. apply reverse_loop_spec; lia. Qed.

Lemma bits_Len_pow (n : nat) : 0 < n -> 2 ^ sort.bits_Len n <= 2 * n.
Proof.
  intros Hn. unfold sort.bits_Len. destruct n as [|n]; [lia|].
  rewrite Nat.pow_succ_r'. pose proof (Nat.log2_spec (S n)). lia.
Qed.

Lemma breakPatterns_other (length : nat) (random : Z) :
  0 < length ->
  let other := Z.to_nat (Z.land random (sort.nextPowerOfTwo length - 1)) in
  (if length <=? other then other - length else other) < length.
Proof.
  intros Hn. cbv zeta. unfold sort.nextPowerOfTwo.
  rewrite Z.shiftl_1_l.
  replace (2 ^ Z.of_nat (sort.bits_Len length) - 1)%Z
    with (Z.ones (Z.of_nat (sort.bits_Len length)))
    by (rewrite Z.ones_equiv; lia).
  rewrite Z.land_ones by lia.
  pose proof (bits_Len_pow length Hn) as Hpow.
  assert (Hz : (2 ^ Z.of_nat (sort.bits_Len length) = Z.of_nat (2 ^ sort.bits_Len length))%Z).
  { rewrite Nat2Z.inj_pow. reflexivity. }
  pose proof (Z.mod_pos_bound random (2 ^ Z.of_nat (sort.bits_Len length))%Z) as Hmod.
  destruct (length <=? _) eqn:Hle.
  - apply Nat.leb_le in Hle. lia.
  - apply Nat.leb_gt in Hle. lia.
Qed.

Lemma breakPatterns_loop_spec a b n : forall d i random,
  b <= length d -> 8 <= b - a -> i + n <= 3 ->
  let idx := a + (b - a) / 4 * 2 - 1 in
  frame a b d (sort.breakPatterns_loop n d a (b - a) idx i random
                 (sort.nextPowerOfTwo (b - a)))
  /\ d ≡ₚ sort.breakPatterns_loop n d a (b - a) idx i random
            (sort.nextPowerOfTwo (b - a)).
Proof.
  induction n as [|n IH]; intros d i random Hb H8 Hi; cbv zeta; simpl.
  - split; [apply frame_refl | reflexivity].
  - pose proof (breakPatterns_other (b - a) (sort.xorshift_Next random)) as Hother.
    cbv zeta in Hother. specialize (Hother ltac:(lia)).
    set (other := if _ <=? _ then _ else _) in *.
    assert (Hq : 4 * ((b - a) / 4) <= b - a) by (apply Nat.Div0.mul_div_le).
    assert (2 <= (b - a) / 4) by (apply Nat.div_le_lower_bound; lia).
    set (q := (b - a) / 4) in *.
    destruct (IH (sort.Swap d (a + q * 2 - 1 - 1 + i) (a + other)) (S i)
                (sort.xorshift_Next random)) as [Hf Hp];
      [now rewrite Swap_length | lia | lia |].
    cbv zeta in Hf, Hp. fold q in Hf, Hp. split.
    + eapply frame_trans; [|exact Hf]. apply Swap_frame; lia.
    + exact (Permutation_trans (Swap_Permutation _ _ _) Hp).
Qed.

Lemma breakPatterns_spec d a b :
  b <= length d ->
  frame a b d (sort.breakPatterns d a b) /\ d ≡ₚ sort.breakPatterns d a b.
Proof.
  intros Hb. unfold sort.breakPatterns.
  destruct (8 <=? b - a) eqn:H8; [|split; [apply frame_refl | reflexivity]].
  apply Nat.leb_le in H8. apply (breakPatterns_loop_spec a b 3 d 0); lia.
Qed.
End Pivot.

Section Partial.
Context {A : Type} (less : A -> A -> bool) (Hless : strict_weak less).
Implicit Types d : list A.

Lemma lower_bounded_frame d d' a b :
  a <= b <= length d -> frame a b d d' -> d ≡ₚ d' ->
  lower_bounded less d a b -> lower_bounded less d' a b.
Proof.
  intros Hab Hf Hp Hlb L k x Ha HL Hk Hx.
  assert (HL' : d !! (a - 1) = Some L).
  { destruct Hf as [_ Hout]. rewrite <- Hout; [exact HL | lia]. }
  revert k x Hk Hx.
  apply (frame_range_elements a b d d' (fun x => less x L = false) Hab Hf Hp).
  intros k x Hk Hx. now apply (Hlb L k x).
Qed.

Lemma lower_bounded_sub d a b a' b' :
  a' = a -> b' <= b -> lower_bounded less d a b -> lower_bounded less d a' b'.
Proof. intros -> Hb Hlb L k x Ha HL Hk Hx. apply (Hlb L k x); auto. lia. Qed.

Lemma sorted_range_frame d d' a b lo hi :
  frame lo hi d d' -> (hi <= a \/ b <= lo) ->
  sorted_range less d a b -> sorted_range less d' a b.
Proof.
  intros [_ Hout] Hdisj Hs i k x y Hi Hik Hk Hx Hy.
  rewrite Hout in Hx by lia. rewrite Hout in Hy by lia.
  now apply (Hs i k x y).
Qed.

Lemma skip_ordered_spec a b fuel : forall d i,
  a < i -> i <= b -> b <= length d -> b - i <= fuel ->
  sorted_range less d a i ->
  let i' := sort.skip_ordered less fuel d i b in
  i <= i' <= b /\ sorted_range less d a i'.
Proof.
  induction fuel as [|fuel IH]; intros d i Hai Hib Hb Hfuel Hs; cbv zeta; simpl.
  - split; [lia | exact Hs].
  - destruct (i <? b) eqn:Hlt; simpl; [|split; [lia | exact Hs]].
    apply Nat.ltb_lt in Hlt.
    destruct (sort.Less less d i (i - 1)) eqn:HL; simpl; [split; [lia | exact Hs]|].
    destruct (IH d (S i)) as [Hr Hs']; try lia.
    + intros j k x y Hj Hjk Hk Hx Hy.
      destruct (decide (k = i)) as [->|Hne]; [|apply (Hs j k x y); auto; lia].
      destruct (lookup_lt_is_Some_2 d (i - 1)) as [w Hw]; [lia|].
      pose proof (Less_false less d i (i - 1) y w HL Hy Hw) as Hyw.
      destruct (decide (j = i - 1)) as [->|Hne']; [congruence|].
      assert (Hwx : less w x = false) by (apply (Hs j (i - 1) x w); auto; lia).
      exact (less_incomparable _ Hless _ _ _ Hyw Hwx).
    + cbv zeta in Hr, Hs'. split; [lia | exact Hs'].
Qed.

(** With nothing smaller before the range, shifting left stops
    inside the range: it is the insertion of [insertionSort]. *)
Lemma shift_left_insert_down a b j : forall d,
  a <= j -> j < b -> b <= length d -> lower_bounded less d a b ->
  sort.shift_left less d j = sort.insert_down less d a j.
Proof.
  induction j as [|j IH]; intros d Ha Hj Hb Hlb; simpl; [reflexivity|].
  destruct (sort.Less less d (S j) j) eqn:HL; simpl.
  - destruct (a <? S j) eqn:Haj; simpl.
    + apply Nat.ltb_lt in Haj. apply IH; [lia | lia | now rewrite Swap_length |].
      apply (lower_bounded_frame d); [lia | apply Swap_frame; lia | apply Swap_Permutation
                                     | exact Hlb].
    + apply Nat.ltb_ge in Haj. assert (a = S j) as -> by lia.
      apply (Less_true less) in HL as (x & y & Hx & Hy & Hxy).
      assert (less x y = false).
      { apply (Hlb y (S j) x); auto; try lia. now replace (S j - 1) with j by lia. }
      congruence.
  - now rewrite andb_false_r.
Qed.

Lemma shift_right_spec b fuel : forall d j,
  1 <= j -> b <= length d ->
  frame (j - 1) b d (sort.shift_right less fuel d j b)
  /\ d ≡ₚ sort.shift_right less fuel d j b.
Proof.
  induction fuel as [|fuel IH]; intros d j Hj Hb; simpl.
  - split; [apply frame_refl | reflexivity].
  - destruct (j <? b) eqn:Hlt; [|split; [apply frame_refl | reflexivity]].
    apply Nat.ltb_lt in Hlt.
    destruct (sort.Less less d j (j - 1)); simpl; [|split; [apply frame_refl | reflexivity]].
    destruct (IH (sort.Swap d j (j - 1)) (S j)) as [Hf Hp];
      [lia | now rewrite Swap_length |].
    split.
    + apply (frame_trans _ _ _ (sort.Swap d j (j - 1))); [apply Swap_frame; lia|].
      apply (frame_weaken (S j - 1) b); [lia | lia | exact Hf].
    + exact (Permutation_trans (Swap_Permutation _ _ _) Hp).
Qed.

Lemma partialInsertionSort_loop_unfold steps d a b i :
  sort.partialInsertionSort_loop less (S steps) d a b i =
    let i := sort.skip_ordered less (b - i) d i b in
    if i =? b then (d, true)
    else if b - a <? sort.shortestShifting then (d, false)
    else
      let d := sort.Swap d i (i - 1) in
      let d := if 2 <=? i - a then sort.shift_left less d (i - 1) else d in
      let d := if 2 <=? b - i then sort.shift_right less (b - (i + 1)) d (i + 1) b else d in
      sort.partialInsertionSort_loop less steps d a b i.
Proof. reflexivity. Qed.

Lemma partialInsertionSort_loop_spec a b steps : forall d i,
  a < i -> i <= b -> b <= length d ->
  lower_bounded less d a b -> sorted_range less d a i ->
  let '(d', ok) := sort.partialInsertionSort_loop less steps d a b i in
  frame a b d d' /\ d ≡ₚ d' /\ (ok = true -> sorted_range less d' a b).
Proof.
  induction steps as [|steps IH]; intros d i Hai Hib Hb Hlb Hs.
  - simpl. split; [apply frame_refl|]. split; [reflexivity | discriminate].
  - rewrite partialInsertionSort_loop_unfold. cbv zeta.
    destruct (skip_ordered_spec a b (b - i) d i) as [Hi' Hs']; try lia; [exact Hs|].
    cbv zeta in Hi', Hs'.
    set (i' := sort.skip_ordered less (b - i) d i b) in *.
    destruct (i' =? b) eqn:Hend.
    { apply Nat.eqb_eq in Hend. rewrite Hend in Hs'.
      split; [apply frame_refl|]. split; [reflexivity | intros _; exact Hs']. }
    apply Nat.eqb_neq in Hend.
    destruct (b - a <? sort.shortestShifting).
    { split; [apply frame_refl|]. split; [reflexivity | discriminate]. }
    set (d1 := sort.Swap d i' (i' - 1)).
    assert (Hf1 : frame a b d d1) by (apply Swap_frame; lia).
    assert (Hp1 : d ≡ₚ d1) by apply Swap_Permutation.
    assert (Hlb1 : lower_bounded less d1 a b).
    { apply (lower_bounded_frame d); auto. lia. }
    assert (Hlen1 : length d1 = length d) by apply Swap_length.
    set (d2 := if 2 <=? i' - a then sort.shift_left less d1 (i' - 1) else d1).
    assert (H2 : frame a i' d1 d2 /\ d1 ≡ₚ d2 /\ sorted_range less d2 a i').
    { unfold d2. destruct (2 <=? i' - a) eqn:H2a.
      - apply Nat.leb_le in H2a.
        rewrite (shift_left_insert_down a b (i' - 1) d1) by (auto; lia).
        destruct (insert_down_spec less Hless a (i' - 1) d1 (i' - 1)) as (Hs2 & Hf2 & Hp2);
          try lia.
        + intros j k x y Hj Hjk Hk Hne1 Hne2 Hx Hy.
          unfold d1 in Hx, Hy. rewrite Swap_other in Hx by lia.
          rewrite Swap_other in Hy by lia. apply (Hs' j k x y); auto; lia.
        + replace (S (i' - 1)) with i' in * by lia. auto.
      - apply Nat.leb_gt in H2a. split; [apply frame_refl|]. split; [reflexivity|].
        intros j k x y Hj Hjk Hk. lia. }
    destruct H2 as (Hf2 & Hp2 & Hs2).
    assert (Hlen2 : length d2 = length d) by (destruct Hf2 as [-> _]; exact Hlen1).
    set (d3 := if 2 <=? b - i' then sort.shift_right less (b - (i' + 1)) d2 (i' + 1) b else d2).
    assert (H3 : frame i' b d2 d3 /\ d2 ≡ₚ d3).
    { unfold d3. destruct (2 <=? b - i'); [|split; [apply frame_refl | reflexivity]].
      destruct (shift_right_spec b (b - (i' + 1)) d2 (i' + 1)) as [Hf3 Hp3]; [lia | lia |].
      replace (i' + 1 - 1) with i' in Hf3 by lia. auto. }
    destruct H3 as (Hf3 & Hp3).
    assert (Hf13 : frame a b d1 d3).
    { apply (frame_trans _ _ _ d2).
      - apply (frame_weaken a i'); [lia | lia | exact Hf2].
      - apply (frame_weaken i' b); [lia | lia | exact Hf3]. }
    assert (Hp13 : d1 ≡ₚ d3) by (now rewrite Hp2).
    specialize (IH d3 i').
    destruct (sort.partialInsertionSort_loop less steps d3 a b i') as [d' ok].
    destruct IH as (Hf & Hp & Hok).
    + lia.
    + lia.
    + destruct Hf3 as [-> _]. lia.
    + apply (lower_bounded_frame d1); auto. lia.
    + apply (sorted_range_frame d2 d3 a i' i' b); auto.
    + split; [|split; [|exact Hok]].
      * apply (frame_trans _ _ _ d1); [exact Hf1|].
        apply (frame_trans _ _ _ d3); [exact Hf13 | exact Hf].
      * now rewrite Hp1, Hp13.
Qed.

Lemma partialInsertionSort_spec d a b :
  a < b -> b <= length d -> lower_bounded less d a b ->
  let '(d', ok) := sort.partialInsertionSort less d a b in
  frame a b d d' /\ d ≡ₚ d' /\ (ok = true -> sorted_range less d' a b).
Proof.
  intros Hab Hb Hlb. unfold sort.partialInsertionSort, sort.maxSteps.
  apply partialInsertionSort_loop_spec; try lia; [exact Hlb|].
  intros i k x y Hi Hik Hk. lia.
Qed.
End Partial.

Section Heap.
Context {A : Type} (less : A -> A -> bool) (Hless : strict_weak less).
Implicit Types d : list A.

Lemma siftDown_loop_unfold fuel d root hi first :
  sort.siftDown_loop less (S fuel) d root hi first =
    if hi <=? 2 * root + 1 then d
    else
      let child :=
        if (2 * root + 1 + 1 <? hi)
           && sort.Less less d (first + (2 * root + 1)) (first + (2 * root + 1) + 1)
        then 2 * root + 1 + 1 else 2 * root + 1 in
      if negb (sort.Less less d (first + root) (first + child)) then d
      else sort.siftDown_loop less fuel (sort.Swap d (first + root) (first + child))
             child hi first.
Proof. reflexivity. Qed.

(** The child [siftDown] compares the root with is the greater one. *)
Lemma greater_child d first hi root x c :
  first + hi <= length d -> 2 * root + 1 < hi ->
  c = (if (2 * root + 1 + 1 <? hi)
          && sort.Less less d (first + (2 * root + 1)) (first + (2 * root + 1) + 1)
       then 2 * root + 1 + 1 else 2 * root + 1) ->
  d !! (first + c) = Some x ->
  (c = 2 * root + 1 \/ c = 2 * root + 2) /\ c < hi /\
  forall c' y, c' = 2 * root + 1 \/ c' = 2 * root + 2 -> c' < hi ->
    d !! (first + c') = Some y -> less x y = false.
Proof.
  intros Hlen Hchild Hc Hx.
  destruct (2 * root + 1 + 1 <? hi) eqn:Hhi; cbn [andb] in Hc.
  - apply Nat.ltb_lt in Hhi.
    destruct (sort.Less less d (first + (2 * root + 1)) (first + (2 * root + 1) + 1)) eqn:HL.
    + subst c. split; [lia|]. split; [lia|].
      apply (Less_true less) in HL as (u & v & Hu & Hv & Huv).
      replace (first + (2 * root + 1) + 1) with (first + (2 * root + 1 + 1)) in Hv by lia.
      assert (v = x) by congruence. subst v.
      intros c' y [->| ->] Hc' Hy.
      * assert (y = u) by congruence. subst y. now apply (less_asym less Hless).
      * replace (2 * root + 2) with (2 * root + 1 + 1) in Hy by lia.
        assert (y = x) by congruence. subst y. apply (less_irrefl _ Hless).
    + subst c. split; [lia|]. split; [lia|].
      intros c' y [->| ->] Hc' Hy.
      * assert (y = x) by congruence. subst y. apply (less_irrefl _ Hless).
      * apply (Less_false less d _ _ x y HL Hx).
        now replace (first + (2 * root + 1) + 1) with (first + (2 * root + 2)) by lia.
  - apply Nat.ltb_ge in Hhi. subst c. split; [lia|]. split; [lia|].
    intros c' y [->| ->] Hc' Hy; [|lia].
    assert (y = x) by congruence. subst y. apply (less_irrefl _ Hless).
Qed.

Lemma siftDown_loop_spec lo hi first fuel : forall d root,
  lo <= root -> hi - root <= fuel -> first + hi <= length d ->
  (forall r, lo <= r -> r < hi -> r <> root -> heap_at less d first hi r) ->
  (forall q c x y, lo <= q -> root = 2 * q + 1 \/ root = 2 * q + 2 ->
     c = 2 * root + 1 \/ c = 2 * root + 2 -> c < hi ->
     d !! (first + q) = Some x -> d !! (first + c) = Some y -> less x y = false) ->
  heap_from less (sort.siftDown_loop less fuel d root hi first) first lo hi
  /\ frame (first + root) (first + hi) d (sort.siftDown_loop less fuel d root hi first)
  /\ d ≡ₚ sort.siftDown_loop less fuel d root hi first.
Proof.
  induction fuel as [|fuel IH]; intros d root Hlo Hfuel Hlen Hheap Hparent.
  { simpl. split; [|split; [apply frame_refl | reflexivity]].
    intros r Hr1 Hr2. apply Hheap; auto; lia. }
  rewrite siftDown_loop_unfold.
  destruct (hi <=? 2 * root + 1) eqn:Hleaf.
  { apply Nat.leb_le in Hleaf. split; [|split; [apply frame_refl | reflexivity]].
    intros r Hr1 Hr2. destruct (decide (r = root)) as [->|Hne]; [|now apply Hheap].
    intros c x y Hc Hchi. lia. }
  apply Nat.leb_gt in Hleaf. cbv zeta.
  set (c := if _ && _ then _ else _).
  destruct (lookup_lt_is_Some_2 d (first + c)) as [y Hy].
  { unfold c. destruct (_ && _) eqn:E; [|lia].
    apply andb_true_iff in E as [E _]. apply Nat.ltb_lt in E. lia. }
  destruct (greater_child d first hi root y c Hlen Hleaf eq_refl Hy) as (Hc & Hchi & Hmax).
  destruct (lookup_lt_is_Some_2 d (first + root)) as [x Hx]; [lia|].
  rewrite (Less_eq less d (first + root) (first + c) x y Hx Hy).
  destruct (less x y) eqn:Hxy; cbn [negb].
  - assert (Hsw : forall k, sort.Swap d (first + root) (first + c) !! k
              = if decide (k = first + root) then d !! (first + c)
                else if decide (k = first + c) then d !! (first + root) else d !! k).
    { intros k. apply Swap_lookup; lia. }
    destruct (IH (sort.Swap d (first + root) (first + c)) c) as (Hh & Hf & Hp).
    + lia.
    + lia.
    + now rewrite Swap_length.
    + intros r Hr1 Hr2 Hrc cc u v Hcc Hcchi. rewrite !Hsw.
      destruct (decide (r = root)) as [->|Hrr].
      * rewrite decide_True by reflexivity.
        destruct (decide (cc = c)) as [->|Hccc].
        -- rewrite decide_False by lia. rewrite decide_True by reflexivity.
           intros Hu Hv. assert (u = y) by congruence. assert (v = x) by congruence.
           subst u v. now apply (less_asym less Hless).
        -- rewrite decide_False by lia. rewrite decide_False by lia.
           intros Hu Hv. assert (u = y) by congruence. subst u.
           apply (Hmax cc v); auto.
      * rewrite decide_False by lia. rewrite decide_False by lia.
        destruct (decide (cc = root)) as [->|Hcr].
        -- rewrite decide_True by reflexivity. intros Hu Hv.
           assert (v = y) by congruence. subst v.
           apply (Hparent r c u y); auto.
        -- rewrite decide_False by lia. rewrite decide_False by lia.
           intros Hu Hv. apply (Hheap r Hr1 Hr2 Hrr cc u v); auto.
    + intros q cc u v Hq Hqc Hcc Hcchi. rewrite !Hsw.
      assert (q = root) by lia. subst q.
      rewrite decide_True by reflexivity.
      rewrite decide_False by lia. rewrite decide_False by lia.
      intros Hu Hv. assert (u = y) by congruence. subst u.
      apply (Hheap c ltac:(lia) Hchi ltac:(lia) cc y v); auto.
    + split; [exact Hh|]. split.
      * apply (frame_trans _ _ _ (sort.Swap d (first + root) (first + c))).
        -- apply Swap_frame; lia.
        -- apply (frame_weaken (first + c) (first + hi)); [lia | lia | exact Hf].
      * exact (Permutation_trans (Swap_Permutation _ _ _) Hp).
  - split; [|split; [apply frame_refl | reflexivity]].
    intros r Hr1 Hr2. destruct (decide (r = root)) as [->|Hne]; [|now apply Hheap].
    intros cc u v Hcc Hcchi Hu Hv. assert (u = x) by congruence. subst u.
    pose proof (Hmax cc v Hcc Hcchi Hv) as Hyv.
    exact (less_incomparable _ Hless _ _ _ Hxy Hyv).
Qed.

Lemma siftDown_spec d lo hi first :
  first + hi <= length d ->
  heap_from less d first (S lo) hi ->
  heap_from less (sort.siftDown less d lo hi first) first lo hi
  /\ frame (first + lo) (first + hi) d (sort.siftDown less d lo hi first)
  /\ d ≡ₚ sort.siftDown less d lo hi first.
Proof.
  intros Hlen Hheap. unfold sort.siftDown.
  apply siftDown_loop_spec; [lia | lia | exact Hlen | |].
  - intros r Hr1 Hr2 Hne. apply Hheap; lia.
  - intros q c x y Hq Hroot. lia.
Qed.

Lemma heapify_spec hi first i : forall d,
  first + hi <= length d -> i < hi \/ i = 0 ->
  heap_from less d first (S i) hi ->
  heap_from less (sort.heapify less d i hi first) first 0 hi
  /\ frame first (first + hi) d (sort.heapify less d i hi first)
  /\ d ≡ₚ sort.heapify less d i hi first.
Proof.
  induction i as [|i IH]; intros d Hlen Hi Hheap.
  - simpl. destruct (siftDown_spec d 0 hi first Hlen Hheap) as (Hh & Hf & Hp).
    split; [exact Hh|]. split; [|exact Hp].
    apply (frame_weaken (first + 0) (first + hi)); [lia | lia | exact Hf].
  - cbn [sort.heapify].
    destruct (siftDown_spec d (S i) hi first Hlen Hheap) as (Hh & Hf & Hp).
    destruct (IH (sort.siftDown less d (S i) hi first)) as (Hh' & Hf' & Hp').
    + destruct Hf as [-> _]. exact Hlen.
    + lia.
    + exact Hh.
    + split; [exact Hh'|]. split.
      * apply (frame_trans _ _ _ (sort.siftDown less d (S i) hi first)); [|exact Hf'].
        apply (frame_weaken (first + S i) (first + hi)); [lia | lia | exact Hf].
      * now rewrite <- Hp'.
Qed.

(** The root of a heap is not less than any of its nodes. *)
Lemma heap_root_max d first n x :
  heap_from less d first 0 n -> first + n <= length d ->
  d !! first = Some x ->
  forall k y, k < n -> d !! (first + k) = Some y -> less x y = false.
Proof.
  intros Hheap Hlen Hx k. induction k as [k IH] using lt_wf_ind. intros y Hk Hy.
  destruct (decide (k = 0)) as [->|Hk0].
  { rewrite Nat.add_0_r in Hy. assert (y = x) by congruence. subst y.
    apply (less_irrefl _ Hless). }
  set (q := (k - 1) / 2).
  assert (Hq : k = 2 * q + 1 \/ k = 2 * q + 2).
  { unfold q. pose proof (Nat.div_mod_eq (k - 1) 2) as E.
    pose proof (Nat.mod_upper_bound (k - 1) 2). lia. }
  destruct (lookup_lt_is_Some_2 d (first + q)) as [z Hz]; [lia|].
  assert (Hxz : less x z = false) by (apply (IH q); auto; lia).
  assert (Hzy : less z y = false) by (apply (Hheap q ltac:(lia) ltac:(lia) k z y); auto).
  exact (less_incomparable _ Hless _ _ _ Hxz Hzy).
Qed.

Lemma heap_from_shrink d first n m :
  m <= n -> heap_from less d first 0 n -> heap_from less d first 0 m.
Proof.
  intros Hm Hheap r Hr1 Hr2 c x y Hc Hcm. apply (Hheap r); auto; lia.
Qed.

Lemma popAll_spec first hi n : forall d,
  n <= hi -> first + hi <= length d ->
  heap_from less d first 0 n ->
  sorted_range less d (first + n) (first + hi) ->
  (forall k m x y, k < n -> n <= m -> m < hi ->
     d !! (first + k) = Some x -> d !! (first + m) = Some y -> less y x = false) ->
  sorted_range less (sort.popAll less d n first) first (first + hi)
  /\ frame first (first + hi) d (sort.popAll less d n first)
  /\ d ≡ₚ sort.popAll less d n first.
Proof.
  induction n as [|i IH]; intros d Hn Hlen Hheap Hsorted Hsplit.
  - simpl. rewrite Nat.add_0_r in Hsorted.
    split; [exact Hsorted|]. split; [apply frame_refl | reflexivity].
  - cbn [sort.popAll].
    set (d1 := sort.Swap d first (first + i)).
    assert (Hsw : forall k, d1 !! k
              = if decide (k = first) then d !! (first + i)
                else if decide (k = first + i) then d !! first else d !! k).
    { intros k. apply Swap_lookup; lia. }
    assert (Hlen1 : length d1 = length d) by apply Swap_length.
    destruct (lookup_lt_is_Some_2 d first) as [x0 Hx0]; [lia|].
    assert (Hmax : forall k y, k < S i -> d !! (first + k) = Some y -> less x0 y = false).
    { apply (heap_root_max d first (S i) x0); auto; lia. }
    destruct (siftDown_spec d1 0 i first) as (Hh & Hf & Hp).
    + lia.
    + intros r Hr1 Hr2 c x y Hc Hci. rewrite !Hsw.
      rewrite decide_False by lia. rewrite decide_False by lia.
      rewrite decide_False by lia. rewrite decide_False by lia.
      apply (Hheap r ltac:(lia) ltac:(lia) c x y); auto; lia.
    + set (d2 := sort.siftDown less d1 0 i first) in *.
      rewrite Nat.add_0_r in Hf.
      assert (Hlen2 : length d2 = length d) by (destruct Hf as [-> _]; exact Hlen1).
      assert (Hout : forall k, ~ (first <= k < first + i) -> d2 !! k = d1 !! k)
        by (destruct Hf as [_ Hout]; exact Hout).
      assert (Hprefix : forall k x, first <= k < first + i -> d2 !! k = Some x ->
                exists k', k' < S i /\ d !! (first + k') = Some x).
      { apply (frame_range_elements first (first + i) d1 d2
                 (fun x => exists k', k' < S i /\ d !! (first + k') = Some x));
          [lia | exact Hf | exact Hp |].
        intros k x Hk. rewrite Hsw. destruct (decide (k = first)) as [->|Hkf].
        - intros Hx. exists i. split; [lia | exact Hx].
        - rewrite decide_False by lia. intros Hx. exists (k - first).
          split; [lia|]. now replace (first + (k - first)) with k by lia. }
      destruct (IH d2) as (Hs' & Hf' & Hp').
      * lia.
      * lia.
      * exact Hh.
      * intros j k x y Hj Hjk Hk. rewrite !Hout by lia. rewrite !Hsw.
        rewrite (decide_False (P := k = first)) by lia.
        rewrite (decide_False (P := k = first + i)) by lia.
        assert (Hroot : forall x, j = first + i -> d !! first = Some x ->
                  d !! k = Some y -> less y x = false).
        { intros x' -> Hx' Hy. assert (x' = x0) by congruence.
          subst x'. apply (Hsplit 0 (k - first) x0 y); try lia.
          - now rewrite Nat.add_0_r.
          - now replace (first + (k - first)) with k by lia. }
        destruct (decide (j = first)) as [Hjf|Hjf].
        -- assert (i = 0) as -> by lia. rewrite Nat.add_0_r.
           intros Hx Hy. apply Hroot; auto. lia.
        -- destruct (decide (j = first + i)) as [Hji|Hji].
           ++ intros Hx Hy. apply Hroot; auto.
           ++ intros Hx Hy. apply (Hsorted j k x y); auto; lia.
      * intros k m x y Hk Hm Hmhi Hx. rewrite (Hout (first + m)) by lia.
        rewrite Hsw. rewrite decide_False by lia.
        destruct (Hprefix (first + k) x ltac:(lia) Hx) as (k' & Hk' & Hx').
        destruct (decide (first + m = first + i)) as [E|Hmi].
        -- intros Hy. assert (y = x0) by congruence. subst y.
           apply (Hmax k' x); auto.
        -- intros Hy. apply (Hsplit k' m x y); auto; lia.
      * split; [exact Hs'|]. split.
        -- apply (frame_trans _ _ _ d1); [apply Swap_frame; lia|].
           apply (frame_trans _ _ _ d2); [|exact Hf'].
           apply (frame_weaken first (first + i)); [lia | lia | exact Hf].
        -- rewrite <- Hp', <- Hp. apply Swap_Permutation.
Qed.

(** [heapSort] sorts the range. *)
Lemma heapSort_spec d a b :
  a <= b -> b <= length d ->
  sorted_range less (sort.heapSort less d a b) a b
  /\ frame a b d (sort.heapSort less d a b)
  /\ d ≡ₚ sort.heapSort less d a b.
Proof.
  intros Hab Hb. unfold sort.heapSort. cbv zeta.
  destruct (heapify_spec (b - a) a ((b - a - 1) / 2) d) as (Hh & Hf & Hp).
  - lia.
  - destruct (decide (b - a = 0)) as [E|E]; [right; now rewrite E|left].
    apply Nat.Div0.div_lt_upper_bound. lia.
  - intros r Hr1 Hr2 c x y Hc Hchi.
    pose proof (Nat.div_mod_eq (b - a - 1) 2) as E.
    pose proof (Nat.mod_upper_bound (b - a - 1) 2). lia.
  - set (d1 := sort.heapify less d ((b - a - 1) / 2) (b - a) a) in *.
    destruct (popAll_spec a (b - a) (b - a) d1) as (Hs' & Hf' & Hp').
    + lia.
    + destruct Hf as [-> _]. lia.
    + exact Hh.
    + intros i k x y Hi Hik Hk. lia.
    + intros k m x y Hk Hm Hmhi. lia.
    + replace (a + (b - a)) with b in * by lia.
      split; [exact Hs'|]. split.
      * apply (frame_trans _ _ _ d1); assumption.
      * now rewrite <- Hp'.
Qed.
End Heap.

Section Pdqsort.
Context {A : Type} (less : A -> A -> bool) (Hless : strict_weak less).
Implicit Types d : list A.

Lemma all_in_frame_inside d d' u v lo hi (P : A -> Prop) :
  u <= lo -> hi <= v -> u <= v -> v <= length d ->
  frame lo hi d d' -> d ≡ₚ d' -> all_in d u v P -> all_in d' u v P.
Proof.
  intros Hu Hv Huv Hlen Hf Hp Hall. unfold all_in in *.
  apply (frame_range_elements u v d d' P); [lia | | exact Hp | exact Hall].
  apply (frame_weaken lo hi); auto.
Qed.

Lemma all_in_frame_outside d d' u v lo hi (P : A -> Prop) :
  frame lo hi d d' -> v <= lo \/ hi <= u -> all_in d u v P -> all_in d' u v P.
Proof.
  intros [_ Hout] Hdisj Hall k x Hk Hx. rewrite Hout in Hx by lia. now apply (Hall k).
Qed.

(** The two sides of a partition, each in order, make a range in order. *)
Lemma sorted_around_pivot d a mid b p :
  a <= mid -> mid < b ->
  d !! mid = Some p ->
  all_in d a mid (fun x => less x p = true) ->
  all_in d (S mid) b (fun x => less x p = false) ->
  sorted_range less d a mid -> sorted_range less d (S mid) b ->
  sorted_range less d a b.
Proof.
  intros Ha Hb Hp HL HR HsL HsR i k x y Hi Hik Hk Hx Hy.
  destruct (decide (k < mid)) as [Hkm|Hkm].
  { apply (HsL i k x y); auto. }
  destruct (decide (mid < i)) as [Him|Him].
  { apply (HsR i k x y); auto. }
  destruct (decide (i = mid)) as [->|Hne].
  { assert (x = p) by congruence. subst x. apply (HR k y); auto; lia. }
  assert (Hxp : less x p = true) by (apply (HL i x); auto; lia).
  destruct (decide (k = mid)) as [->|Hne'].
  { assert (y = p) by congruence. subst y. now apply (less_asym less Hless). }
  assert (Hyp : less y p = false) by (apply (HR k y); auto; lia).
  destruct (less y x) eqn:Hyx; [|reflexivity].
  pose proof (less_trans _ Hless _ _ _ Hyx Hxp). congruence.
Qed.

(** After [partitionEqual], the elements equal to the pivot are in
    order as they stand, and the rest are greater. *)
Lemma sorted_after_equals d a mid b p :
  a < mid -> mid <= b ->
  all_in d a mid (fun x => less p x = false /\ less x p = false) ->
  all_in d mid b (fun x => less p x = true) ->
  sorted_range less d mid b ->
  sorted_range less d a b.
Proof.
  intros Ha Hb HL HR HsR i k x y Hi Hik Hk Hx Hy.
  destruct (decide (mid <= i)) as [Him|Him].
  { apply (HsR i k x y); auto. }
  destruct (HL i x ltac:(lia) Hx) as [Hpx Hxp].
  destruct (decide (k < mid)) as [Hkm|Hkm].
  - destruct (HL k y ltac:(lia) Hy) as [Hpy Hyp].
    exact (less_incomparable _ Hless _ _ _ Hyp Hpx).
  - assert (Hpy : less p y = true) by (apply (HR k y); auto; lia).
    destruct (less y x) eqn:Hyx; [|reflexivity].
    pose proof (less_trans _ Hless _ _ _ Hpy Hyx). congruence.
Qed.

Lemma pdqsort_func_unfold fuel d a b limit wasBalanced wasPartitioned :
  sort.pdqsort_func less fuel d a b limit wasBalanced wasPartitioned =
    if b - a <=? sort.maxInsertion then sort.insertionSort less d a b
    else if limit =? 0 then sort.heapSort less d a b
    else
      match fuel with
      | O => d
      | S fuel' =>
          let '(d, limit) :=
            if negb wasBalanced then (sort.breakPatterns d a b, limit - 1)
            else (d, limit) in
          let '(pivot, hint) := sort.choosePivot less d a b in
          let '(d, pivot, hint) :=
            match hint with
            | sort.decreasingHint =>
                (sort.reverseRange d a b, (b - 1) - (pivot - a), sort.increasingHint)
            | _ => (d, pivot, hint)
            end in
          let '(d, sorted) :=
            match wasBalanced && wasPartitioned, hint with
            | true, sort.increasingHint => sort.partialInsertionSort less d a b
            | _, _ => (d, false)
            end in
          if sorted then d
          else if (0 <? a) && negb (sort.Less less d (a - 1) pivot) then
            let '(d, mid) := sort.partitionEqual less d a b pivot in
            sort.pdqsort_func less fuel' d mid b limit wasBalanced wasPartitioned
          else
            let '(d, mid, alreadyPartitioned) := sort.partition less d a b pivot in
            if mid - a <? b - mid then
              let d := sort.pdqsort_func less fuel' d a mid limit true true in
              sort.pdqsort_func less fuel' d (mid + 1) b limit
                ((b - a) / 8 <=? mid - a) alreadyPartitioned
            else
              let d := sort.pdqsort_func less fuel' d (mid + 1) b limit true true in
              sort.pdqsort_func less fuel' d a mid limit
                ((b - a) / 8 <=? b - mid) alreadyPartitioned
      end.
Proof. destruct fuel; reflexivity. Qed.

Lemma rearranged_refl a b d : rearranged a b d d.
Proof. split; [apply frame_refl | reflexivity]. Qed.

Lemma rearranged_trans a b d1 d2 d3 :
  rearranged a b d1 d2 -> rearranged a b d2 d3 -> rearranged a b d1 d3.
Proof.
  intros [F1 P1] [F2 P2]. split; [eapply frame_trans; eauto | now rewrite P1].
Qed.

Lemma rearranged_weaken a b a' b' d d' :
  a' <= a -> b <= b' -> rearranged a b d d' -> rearranged a' b' d d'.
Proof. intros Ha Hb [F P]. split; [eapply frame_weaken; eauto | exact P]. Qed.

Lemma rearranged_length a b d d' : rearranged a b d d' -> length d' = length d.
Proof. intros [[L _] _]. exact L. Qed.

Lemma rearranged_lower_bounded a b d d' :
  a <= b -> b <= length d -> rearranged a b d d' ->
  lower_bounded less d a b -> lower_bounded less d' a b.
Proof. intros Hab Hb [F P]. apply lower_bounded_frame; auto. Qed.

(** [pdqsort_func] sorts the range it is given, provided no element
    of the range is less than the element before the range. *)
Lemma pdqsort_func_spec fuel : forall d a b limit wasBalanced wasPartitioned,
  a <= b -> b <= length d -> b - a <= fuel ->
  lower_bounded less d a b ->
  sorted_range less (sort.pdqsort_func less fuel d a b limit wasBalanced wasPartitioned) a b
  /\ rearranged a b d (sort.pdqsort_func less fuel d a b limit wasBalanced wasPartitioned).
Proof.
  induction fuel as [|fuel IH]; intros d a b limit wb wp Hab Hb Hfuel Hlb;
    rewrite pdqsort_func_unfold.
  { destruct (b - a <=? sort.maxInsertion) eqn:Hsmall.
    - destruct (insertionSort_spec less Hless d a b Hab Hb) as (Hs & Hf & Hp).
      split; [exact Hs | split; assumption].
    - apply Nat.leb_gt in Hsmall. unfold sort.maxInsertion in Hsmall. lia. }
  destruct (b - a <=? sort.maxInsertion) eqn:Hsmall.
  { destruct (insertionSort_spec less Hless d a b Hab Hb) as (Hs & Hf & Hp).
    split; [exact Hs | split; assumption]. }
  apply Nat.leb_gt in Hsmall. unfold sort.maxInsertion in Hsmall.
  destruct (limit =? 0).
  { destruct (heapSort_spec less Hless d a b Hab Hb) as (Hs & Hf & Hp).
    split; [exact Hs | split; assumption]. }
  (* breakPatterns *)
  set (step0 := if negb wb then (sort.breakPatterns d a b, limit - 1) else (d, limit)).
  assert (H0 : rearranged a b d (fst step0)).
  { unfold step0. destruct (negb wb); simpl; [|apply rearranged_refl].
    destruct (breakPatterns_spec d a b Hb). now split. }
  destruct step0 as [d0 limit0]. simpl in H0.
  assert (Hlen0 : length d0 = length d) by (eapply rearranged_length; eauto).
  (* choosePivot and reverseRange *)
  pose proof (choosePivot_range less d0 a b ltac:(lia)) as Hpivot.
  destruct (sort.choosePivot less d0 a b) as [pivot hint].
  set (step1 := match hint with
                | sort.decreasingHint =>
                    (sort.reverseRange d0 a b, b - 1 - (pivot - a), sort.increasingHint)
                | _ => (d0, pivot, hint)
                end).
  assert (H1 : rearranged a b d0 (fst (fst step1)) /\ a <= snd (fst step1) < b).
  { unfold step1. destruct hint; simpl; try (split; [apply rearranged_refl | lia]).
    destruct (reverseRange_spec d0 a b); [lia | lia |].
    split; [now split | lia]. }
  destruct step1 as [[d1 pivot1] hint1]. simpl in H1. destruct H1 as [H1 Hpivot1].
  assert (H01 : rearranged a b d d1) by (eapply rearranged_trans; eauto).
  assert (Hlen1 : length d1 = length d) by (eapply rearranged_length; eauto).
  assert (Hlb1 : lower_bounded less d1 a b) by (eapply rearranged_lower_bounded; eauto).
  (* partialInsertionSort *)
  set (step2 := match wb && wp, hint1 with
                | true, sort.increasingHint => sort.partialInsertionSort less d1 a b
                | _, _ => (d1, false)
                end).
  assert (H2 : rearranged a b d1 (fst step2)
               /\ (snd step2 = true -> sorted_range less (fst step2) a b)).
  { unfold step2.
    destruct (wb && wp); [|split; [apply rearranged_refl | discriminate]].
    destruct hint1; try (split; [apply rearranged_refl | discriminate]).
    pose proof (partialInsertionSort_spec less Hless d1 a b ltac:(lia) ltac:(lia) Hlb1) as Hpi.
    destruct (sort.partialInsertionSort less d1 a b) as [dp ok]. simpl.
    destruct Hpi as (Hf & Hp & Hok). split; [now split | exact Hok]. }
  destruct step2 as [d2 sorted]. simpl in H2. destruct H2 as [H2 Hsorted].
  assert (H02 : rearranged a b d d2) by (eapply rearranged_trans; eauto).
  assert (Hlen2 : length d2 = length d) by (eapply rearranged_length; eauto).
  assert (Hlb2 : lower_bounded less d2 a b) by (eapply rearranged_lower_bounded; eauto).
  destruct sorted.
  { split; [now apply Hsorted | exact H02]. }
  destruct (lookup_lt_is_Some_2 d2 pivot1) as [p Hp]; [lia|].
  destruct ((0 <? a) && negb (sort.Less less d2 (a - 1) pivot1)) eqn:Hequal.
  - (* partitionEqual *)
    apply andb_true_iff in Hequal as [Ha0 HLp]. apply Nat.ltb_lt in Ha0.
    apply negb_true_iff in HLp.
    destruct (lookup_lt_is_Some_2 d2 (a - 1)) as [L HL]; [lia|].
    pose proof (Less_false less d2 (a - 1) pivot1 L p HLp HL Hp) as HLp'.
    destruct (partitionEqual_spec less Hless d2 a b pivot1 p)
      as (d3 & mid & Heq & Hmid & Hf3 & Hp3 & Hleft & Hright); try lia; [exact Hp|].
    rewrite Heq.
    assert (H23 : rearranged a b d2 d3) by now split.
    assert (Hlen3 : length d3 = length d) by (rewrite (rearranged_length _ _ _ _ H23); lia).
    assert (Hlb3 : lower_bounded less d3 a b).
    { apply (rearranged_lower_bounded a b d2); auto; lia. }
    assert (HL3 : d3 !! (a - 1) = Some L).
    { destruct Hf3 as [_ Hout]. rewrite Hout; [exact HL | lia]. }
    assert (Hequals : all_in d3 a mid (fun x => less p x = false /\ less x p = false)).
    { intros k x Hk Hx. split; [apply (Hleft k); auto|].
      assert (HxL : less x L = false) by (apply (Hlb3 L k x); auto; lia).
      exact (less_incomparable _ Hless _ _ _ HxL HLp'). }
    destruct (IH d3 mid b limit0 wb wp) as (Hs4 & H34); try lia.
    { intros L' k x Hm HL' Hk Hx.
      destruct (Hequals (mid - 1) L' ltac:(lia) HL') as [HpL' _].
      assert (Hpx : less p x = true) by (apply (Hright k); auto).
      destruct (less x L') eqn:HxL'; [|reflexivity].
      pose proof (less_trans _ Hless _ _ _ Hpx HxL'). congruence. }
    set (d4 := sort.pdqsort_func less fuel d3 mid b limit0 wb wp) in *.
    split.
    + apply (sorted_after_equals d4 a mid b p); try lia.
      * apply (all_in_frame_outside d3 d4 a mid mid b); [apply H34 | lia | exact Hequals].
      * apply (all_in_frame_inside d3 d4 mid b mid b); try lia; [apply H34 | apply H34 |].
        exact Hright.
      * exact Hs4.
    + apply (rearranged_trans _ _ _ d2); [exact H02|].
      apply (rearranged_trans _ _ _ d3); [exact H23|].
      apply (rearranged_weaken mid b); [lia | lia | exact H34].
  - (* partition *)
    clear Hequal.
    destruct (partition_spec less d2 a b pivot1 p)
      as (d3 & mid & flag & Heq & Hmid & Hf3 & Hp3 & Hpm & Hleft & Hright); try lia;
      [exact Hp|].
    rewrite Heq.
    assert (H23 : rearranged a b d2 d3) by now split.
    assert (Hlen3 : length d3 = length d) by (rewrite (rearranged_length _ _ _ _ H23); lia).
    assert (Hlb3 : lower_bounded less d3 a b).
    { apply (rearranged_lower_bounded a b d2); auto; lia. }
    assert (HleftA : all_in d3 a mid (fun x => less x p = true)) by exact Hleft.
    assert (HrightA : all_in d3 (S mid) b (fun x => less x p = false)).
    { intros k x Hk Hx. apply (Hright k); auto; lia. }
    replace (mid + 1) with (S mid) by lia.
    assert (Hfinish : forall d5,
              rearranged a b d3 d5 -> d5 !! mid = Some p ->
              all_in d5 a mid (fun x => less x p = true) ->
              all_in d5 (S mid) b (fun x => less x p = false) ->
              sorted_range less d5 a mid -> sorted_range less d5 (S mid) b ->
              sorted_range less d5 a b /\ rearranged a b d d5).
    { intros d5 H35 Hp5 HL5 HR5 HsL HsR. split.
      - apply (sorted_around_pivot d5 a mid b p); auto; lia.
      - apply (rearranged_trans _ _ _ d2); [exact H02|].
        apply (rearranged_trans _ _ _ d3); [exact H23 | exact H35]. }
    destruct (mid - a <? b - mid).
    + destruct (IH d3 a mid limit0 true true) as (Hs4 & H34); try lia.
      { apply (lower_bounded_sub less d3 a b); auto; lia. }
      set (d4 := sort.pdqsort_func less fuel d3 a mid limit0 true true) in *.
      assert (Hlen4 : length d4 = length d) by (rewrite (rearranged_length _ _ _ _ H34); lia).
      assert (Hp4 : d4 !! mid = Some p).
      { destruct H34 as [[_ Hout] _]. rewrite Hout; [exact Hpm | lia]. }
      assert (HR4 : all_in d4 (S mid) b (fun x => less x p = false)).
      { apply (all_in_frame_outside d3 d4 (S mid) b a mid); [apply H34 | lia | exact HrightA]. }
      destruct (IH d4 (S mid) b limit0 ((b - a) / 8 <=? mid - a) flag) as (Hs5 & H45);
        try lia.
      { intros L k x _ HL Hk Hx. replace (S mid - 1) with mid in HL by lia.
        assert (L = p) by congruence. subst L. apply (HR4 k); auto. }
      set (d5 := sort.pdqsort_func less fuel d4 (S mid) b limit0 _ flag) in *.
      apply Hfinish.
      * apply (rearranged_trans _ _ _ d4).
        -- apply (rearranged_weaken a mid); [lia | lia | exact H34].
        -- apply (rearranged_weaken (S mid) b); [lia | lia | exact H45].
      * destruct H45 as [[_ Hout] _]. rewrite Hout; [exact Hp4 | lia].
      * apply (all_in_frame_outside d4 d5 a mid (S mid) b); [apply H45 | lia |].
        apply (all_in_frame_inside d3 d4 a mid a mid); try lia; [apply H34 | apply H34 |].
        exact HleftA.
      * apply (all_in_frame_inside d4 d5 (S mid) b (S mid) b); try lia;
          [apply H45 | apply H45 | exact HR4].
      * apply (sorted_range_frame less d4 d5 a mid (S mid) b); [apply H45 | lia | exact Hs4].
      * exact Hs5.
    + destruct (IH d3 (S mid) b limit0 true true) as (Hs4 & H34); try lia.
      { intros L k x _ HL Hk Hx. replace (S mid - 1) with mid in HL by lia.
        assert (L = p) by congruence. subst L. apply (HrightA k); auto. }
      set (d4 := sort.pdqsort_func less fuel d3 (S mid) b limit0 true true) in *.
      assert (Hlen4 : length d4 = length d) by (rewrite (rearranged_length _ _ _ _ H34); lia).
      assert (Hp4 : d4 !! mid = Some p).
      { destruct H34 as [[_ Hout] _]. rewrite Hout; [exact Hpm | lia]. }
      assert (HL4 : all_in d4 a mid (fun x => less x p = true)).
      { apply (all_in_frame_outside d3 d4 a mid (S mid) b); [apply H34 | lia | exact HleftA]. }
      destruct (IH d4 a mid limit0 ((b - a) / 8 <=? b - mid) flag) as (Hs5 & H45); try lia.
      { apply (lower_bounded_sub less d4 a b); auto; try lia.
        apply (rearranged_lower_bounded a b d3); auto; try lia.
        apply (rearranged_weaken (S mid) b); [lia | lia | exact H34]. }
      set (d5 := sort.pdqsort_func less fuel d4 a mid limit0 _ flag) in *.
      apply Hfinish.
      * apply (rearranged_trans _ _ _ d4).
        -- apply (rearranged_weaken (S mid) b); [lia | lia | exact H34].
        -- apply (rearranged_weaken a mid); [lia | lia | exact H45].
      * destruct H45 as [[_ Hout] _]. rewrite Hout; [exact Hp4 | lia].
      * apply (all_in_frame_inside d4 d5 a mid a mid); try lia;
          [apply H45 | apply H45 | exact HL4].
      * apply (all_in_frame_outside d4 d5 (S mid) b a mid); [apply H45 | lia |].
        apply (all_in_frame_inside d3 d4 (S mid) b (S mid) b); try lia;
          [apply H34 | apply H34 | exact HrightA].
      * exact Hs5.
      * apply (sorted_range_frame less d4 d5 (S mid) b a mid); [apply H45 | lia | exact Hs4].
Qed.
End Pdqsort.

Section SliceFacts.
Context {A : Type} (less : A -> A -> bool).

Lemma sorted_range_StronglySorted (l : list A) :
  sorted_range less l 0 (length l) ->
  StronglySorted (fun x y => less y x = false) l.
Proof.
  induction l as [|x l IH]; intros Hs; constructor.
  - apply IH. intros i k u v Hi Hik Hk Hu Hv.
    apply (Hs (S i) (S k) u v); simpl; auto; lia.
  - apply Forall_forall. intros y Hy. apply list_elem_of_lookup in Hy as [k Hk].
    apply (Hs 0 (S k) x y); simpl; auto; try lia.
    apply lookup_lt_Some in Hk. lia.
Qed.

(** [sort.Slice] returns its input in order. *)
Lemma Slice_sorted (l : list A) :
  strict_weak less ->
  StronglySorted (fun x y => less y x = false) (sort.Slice less l) /\ l ≡ₚ sort.Slice less l.
Proof.
  intros Hless. unfold sort.Slice.
  destruct (pdqsort_func_spec less Hless (length l) l 0 (length l)
              (sort.bits_Len (length l)) true true) as (Hs & Hf & Hp); try lia.
  { intros L k x Ha. lia. }
  split; [|exact Hp].
  apply sorted_range_StronglySorted.
  rewrite (proj1 Hf). exact Hs.
Qed.

(** Up to twelve elements, [sort.Slice] is an insertion sort, which
    keeps equivalent elements in their order. *)
Lemma Slice_stable_small (l : list A) :
  strict_weak less -> length l <= 12 ->
  same_order_of_equals less l (sort.Slice less l).
Proof.
  intros Hless Hlen. unfold sort.Slice. rewrite pdqsort_func_unfold.
  replace (length l - 0 <=? sort.maxInsertion) with true
    by (symmetry; apply Nat.leb_le; unfold sort.maxInsertion; lia).
  now apply insertionSort_stable.
Qed.
End SliceFacts.

Lemma After_strict_weak : strict_weak After.
Proof.
  constructor; unfold After.
  - intros [s n]. simpl. now rewrite !Z.ltb_irrefl, Z.eqb_refl.
  - intros [s1 n1] [s2 n2] [s3 n3]. simpl. intros H1 H2.
    apply orb_true_iff. apply orb_true_iff in H1, H2.
    rewrite andb_true_iff in *. rewrite !Z.ltb_lt, !Z.eqb_eq in *. lia.
  - intros [s1 n1] [s2 n2] [s3 n3]. simpl. intros H1 H2.
    apply orb_false_iff. apply orb_false_iff in H1, H2.
    rewrite andb_false_iff in *. rewrite !Z.ltb_ge, !Z.eqb_neq in *. lia.
Qed.

Lemma byDateDesc_strict_weak : strict_weak byDateDesc.
Proof.
  destruct After_strict_weak as [Hi Ht Hn]. constructor; unfold byDateDesc.
  - intros x. apply Hi.
  - intros x y z. apply Ht.
  - intros x y z. apply Hn.
Qed.

(** ** The collection is sorted by date *)

Lemma sameDate_spec (t : Time) (q : PostData) : sameDate t q = true <-> Date q = t.
Proof.
  unfold sameDate, After. destruct t as [s n], (Date q) as [s' n']. simpl.
  rewrite andb_true_iff, !negb_true_iff, !orb_false_iff, !andb_false_iff.
  rewrite !Z.ltb_ge, !Z.eqb_neq. split.
  - intros H. f_equal; lia.
  - intros E. injection E as -> ->. lia.
Qed.

Section SortedCollection.
Context `{Collaborators}.

(** C1, as the code has it. The collection builder returns the loaded
    records sorted by date, most recent first, none lost and none
    added; records with identical dates keep the order in which they
    were loaded when at most twelve records are loaded. *)
Theorem collection_sorted_by_date (fs : FS) (pattern : string) (posts : list PostData) :
  loadPostsFromDirectory fs pattern = (posts, None) ->
  let loaded :=
    map (fun file => fst (LoadPostFromFile fs file)) (fst (filepath_Glob fs pattern)) in
  StronglySorted (fun p q => After (Date q) (Date p) = false) posts
  /\ posts ≡ₚ loaded
  /\ (length loaded <= 12 ->
      forall t, List.filter (sameDate t) posts = List.filter (sameDate t) loaded).
Proof.
  unfold loadPostsFromDirectory.
  destruct (filepath_Glob fs pattern) as [files [e|]]; [discriminate|].
  destruct (loadPosts_loop fs files []) as [loaded [e|]] eqn:Hloop; [discriminate|].
  intros Hposts. injection Hposts as <-. simpl.
  pose proof (loadPosts_loop_ok fs files [] loaded Hloop) as Hall.
  rewrite (loadPosts_loop_all fs files [] Hall) in Hloop. simpl in Hloop.
  injection Hloop as <-.
  destruct (Slice_sorted byDateDesc
              (map (fun file => fst (LoadPostFromFile fs file)) files)
              byDateDesc_strict_weak) as [Hsorted Hperm].
  split; [exact Hsorted|]. split; [now symmetry|].
  intros Hlen t.
  pose proof (Slice_stable_small byDateDesc _ byDateDesc_strict_weak Hlen
                (mkPostData "" t "" "")) as Hstable.
  exact Hstable.
Qed.
End SortedCollection.

Lemma collection_sorted_by_date_witness :
  map Slug (fst (loadPostsFromDirectory Fixture.site12 "posts/*.md"))
  = ["d"; "g"; "a"; "b"; "c"; "e"; "f"; "h"; "i"; "j"; "k"; "l"]
  /\ StronglySorted (fun p q => After (Date q) (Date p) = false)
       (fst (loadPostsFromDirectory Fixture.site12 "posts/*.md"))
  /\ forall t,
       List.filter (sameDate t) (fst (loadPostsFromDirectory Fixture.site12 "posts/*.md"))
       = List.filter (sameDate t)
           (map (fun file => fst (LoadPostFromFile Fixture.site12 file))
              (fst (Fixture.Glob Fixture.site12 "posts/*.md"))).
Proof.
  split; [vm_compute; reflexivity|].
  assert (Hload : loadPostsFromDirectory Fixture.site12 "posts/*.md"
                  = (fst (loadPostsFromDirectory Fixture.site12 "posts/*.md"), None))
    by (vm_compute; reflexivity).
  destruct (collection_sorted_by_date (H:=Fixture.collaborators) Fixture.site12 "posts/*.md" _
              Hload) as (Hsorted & _ & Hstable).
  split; [exact Hsorted|].
  apply Hstable. vm_compute. lia.
Defined.

(** C1, as the claim has it, fails with thirteen posts: the two posts
    of the same date are loaded as [a], [b] and returned as [b], [a]. *)
Lemma stable_sort_counterexample :
  let loaded := map (fun file => fst (LoadPostFromFile Fixture.site13 file))
                  (fst (Fixture.Glob Fixture.site13 "posts/*.md")) in
  let posts := fst (loadPostsFromDirectory Fixture.site13 "posts/*.md") in
  snd (loadPostsFromDirectory Fixture.site13 "posts/*.md") = None
  /\ length loaded = 13
  /\ map Slug (List.filter (sameDate (mkTime 5 0)) loaded) = ["a"; "b"]
  /\ map Slug (List.filter (sameDate (mkTime 5 0)) posts) = ["b"; "a"]
  /\ ~ (forall t, List.filter (sameDate t) posts = List.filter (sameDate t) loaded).
Proof.
  cbv zeta. split; [vm_compute; reflexivity|]. split; [vm_compute; reflexivity|].
  split; [vm_compute; reflexivity|]. split; [vm_compute; reflexivity|].
  intros Hstable. specialize (Hstable (mkTime 5 0)).
  apply (f_equal (map Slug)) in Hstable. vm_compute in Hstable. discriminate.
Qed.

(** * Further properties of the code *)

(** ** File names, extensions and slugs *)

Lemma append_cons (c : ascii) (s t : string) : String c s +:+ t = String c (s +:+ t).
Proof. reflexivity. Qed.

Lemma append_nil (t : string) : "" +:+ t = t.
Proof. reflexivity. Qed.

Lemma string_app_length (s t : string) :
  String.length (s +:+ t) = String.length s + String.length t.
Proof. induction s as [|c s IH]; simpl; [reflexivity | now rewrite IH]. Qed.

Lemma string_eqb_length (s t : string) :
  String.length s <> String.length t -> String.eqb s t = false.
Proof. intros Hne. apply String.eqb_neq. intros ->. contradiction. Qed.

Lemma string_app_assoc (s t u : string) : (s +:+ t) +:+ u = s +:+ (t +:+ u).
Proof.
  induction s as [|c s IH]; [reflexivity|]. rewrite !append_cons. now rewrite IH.
Qed.

Lemma string_of_list_ascii_app (l k : list ascii) :
  string_of_list_ascii (l ++ k) = string_of_list_ascii l +:+ string_of_list_ascii k.
Proof.
  induction l as [|c l IH]; [reflexivity|]. simpl. rewrite append_cons. now rewrite IH.
Qed.

Lemma list_ascii_of_string_app (s t : string) :
  list_ascii_of_string (s +:+ t) = list_ascii_of_string s ++ list_ascii_of_string t.
Proof.
  induction s as [|c s IH]; [reflexivity|]. rewrite append_cons. simpl. now rewrite IH.
Qed.

Lemma TrimSuffix_app (pre suffix : string) :
  strings.TrimSuffix (pre +:+ suffix) suffix = pre.
Proof.
  induction pre as [|c pre IH].
  - rewrite append_nil. destruct suffix as [|c s]; [reflexivity|].
    unfold strings.TrimSuffix. now rewrite String.eqb_refl.
  - rewrite append_cons. cbn [strings.TrimSuffix].
    rewrite string_eqb_length by (simpl; rewrite string_app_length; lia).
    replace (String.length (String c (pre +:+ suffix)) <=? String.length suffix)%nat
      with false
      by (symmetry; apply Nat.leb_gt; simpl; rewrite string_app_length; lia).
    now rewrite IH.
Qed.

Lemma Ext_scan_suffix (backwards : list ascii) : forall acc,
  exists pre, rev backwards ++ acc = pre ++ filepath.Ext_scan backwards acc.
Proof.
  induction backwards as [|c r IH]; intros acc; simpl.
  - exists acc. now rewrite app_nil_r.
  - destruct (filepath.IsPathSeparator c).
    + exists ((rev r ++ [c]) ++ acc). now rewrite app_nil_r.
    + destruct (Ascii.eqb c ".").
      * exists (rev r). now rewrite <- app_assoc.
      * destruct (IH (c :: acc)) as [pre Hpre]. exists pre.
        now rewrite <- app_assoc.
Qed.

(** [filepath.Ext] returns a suffix of the path. *)
Lemma Ext_suffix (path : string) : exists stem, path = stem +:+ filepath.Ext path.
Proof.
  unfold filepath.Ext.
  destruct (Ext_scan_suffix (rev (list_ascii_of_string path)) []) as [pre Hpre].
  rewrite rev_involutive, app_nil_r in Hpre.
  exists (string_of_list_ascii pre).
  rewrite <- string_of_list_ascii_app, <- Hpre.
  now rewrite string_of_list_ascii_of_string.
Qed.

(** X2. A file name is its slug followed by its extension: stripping
    the extension [filepath.Ext] finds, as the loader and the generator
    do, and putting it back gives the name again. *)
Theorem slug_then_extension (filename : string) :
  strings.TrimSuffix filename (filepath.Ext filename) +:+ filepath.Ext filename = filename.
Proof.
  destruct (Ext_suffix filename) as [stem Hstem].
  rewrite Hstem at 1. rewrite TrimSuffix_app. now rewrite <- Hstem.
Qed.

Lemma elements_plain (s : string) : forall cur,
  has_separator s = false -> filepath.elements s cur = [cur +:+ s].
Proof.
  induction s as [|c s IH]; intros cur Hs; simpl.
  - f_equal. induction cur as [|d cur IHc]; [reflexivity|].
    rewrite append_cons. now rewrite <- IHc.
  - simpl in Hs. apply orb_false_iff in Hs as [Hc Hs]. rewrite Hc.
    rewrite IH by assumption. now rewrite string_app_assoc.
Qed.

Lemma has_separator_app (s t : string) :
  has_separator (s +:+ t) = has_separator s || has_separator t.
Proof.
  induction s as [|c s IH]; [reflexivity|]. rewrite append_cons. simpl.
  now rewrite IH, orb_assoc.
Qed.

Lemma last_element_plain (name : list ascii) : forall rest acc,
  forallb (fun c => negb (filepath.IsPathSeparator c)) name = true ->
  filepath.last_element (rev name ++ "/"%char :: rest) acc = name ++ acc.
Proof.
  induction name as [|c name IH] using rev_ind; intros rest acc Hname.
  - reflexivity.
  - rewrite forallb_app in Hname. apply andb_true_iff in Hname as [Hname Hc].
    simpl in Hc. rewrite andb_true_r in Hc. apply negb_true_iff in Hc.
    rewrite rev_app_distr. simpl. rewrite Hc.
    rewrite IH by assumption. now rewrite <- app_assoc.
Qed.

Lemma has_separator_forallb (s : string) :
  has_separator s = false ->
  forallb (fun c => negb (filepath.IsPathSeparator c)) (list_ascii_of_string s) = true.
Proof.
  induction s as [|c s IH]; simpl; [reflexivity|]. intros Hs.
  apply orb_false_iff in Hs as [Hc Hs]. now rewrite Hc, IH.
Qed.

Lemma elements_app (s t : string) : forall cur,
  has_separator s = false ->
  filepath.elements (s +:+ "/" +:+ t) cur = (cur +:+ s) :: filepath.elements t "".
Proof.
  induction s as [|c s IH]; intros cur Hs.
  - rewrite append_nil. simpl. f_equal.
    induction cur as [|d cur IHc]; [reflexivity|]. rewrite append_cons. now rewrite <- IHc.
  - rewrite append_cons. simpl in *. apply orb_false_iff in Hs as [Hc Hs]. rewrite Hc.
    rewrite IH by assumption. now rewrite string_app_assoc.
Qed.

Lemma Clean_step_plain (rooted : bool) (kept : list string) (e : string) :
  plain_element e -> filepath.Clean_step rooted kept e = e :: kept.
Proof.
  intros (_ & H1 & H2 & H3). unfold filepath.Clean_step.
  apply String.eqb_neq in H1, H2, H3. now rewrite H1, H2, H3.
Qed.

(** A plain file name under a plain directory is clean already. *)
Lemma Join_plain (dir name : string) :
  plain_element dir -> plain_element name ->
  filepath.Join [dir; name] = dir +:+ "/" +:+ name.
Proof.
  intros Hdir Hname. unfold filepath.Join. cbn [filepath.drop_empty].
  destruct Hdir as (Hsep & Hne & Hdot & Hdd).
  rewrite (proj2 (String.eqb_neq dir "") Hne).
  cbn [filepath.join_with]. unfold filepath.Clean.
  destruct dir as [|c dir]; [contradiction|].
  rewrite append_cons. rewrite <- append_cons.
  rewrite elements_app by assumption. rewrite append_nil.
  rewrite elements_plain by apply Hname. rewrite append_nil.
  cbn [fold_left]. rewrite !Clean_step_plain by (assumption || now repeat split).
  simpl in Hsep. apply orb_false_iff in Hsep as [Hc _]. rewrite Hc.
  reflexivity.
Qed.

Lemma md_plain (slug : string) : has_separator slug = false -> plain_element (slug +:+ ".md").
Proof.
  intros Hslug. split; [now rewrite has_separator_app, Hslug|].
  assert (Hlen : 3 <= String.length (slug +:+ ".md")) by (rewrite string_app_length; simpl; lia).
  repeat split; intros E; rewrite E in Hlen; simpl in Hlen; lia.
Qed.

Lemma strip_separators_plain (name : list ascii) (rest : list ascii) :
  name <> [] -> forallb (fun c => negb (filepath.IsPathSeparator c)) name = true ->
  filepath.strip_separators (rev name ++ rest) = rev name ++ rest.
Proof.
  intros Hne Hname. destruct name as [|c name] using rev_ind; [contradiction|].
  rewrite forallb_app in Hname. apply andb_true_iff in Hname as [_ Hc].
  simpl in Hc. rewrite andb_true_r in Hc. apply negb_true_iff in Hc.
  rewrite rev_app_distr. simpl. now rewrite Hc.
Qed.

(** The base of a plain file name under a directory is the file name. *)
Lemma Base_plain (dir name : string) :
  plain_element name -> filepath.Base (dir +:+ "/" +:+ name) = name.
Proof.
  intros (Hsep & Hne & _). unfold filepath.Base.
  destruct (dir +:+ "/" +:+ name) as [|c rest] eqn:Epath.
  { apply (f_equal String.length) in Epath. rewrite !string_app_length in Epath.
    simpl in Epath. lia. }
  rewrite <- Epath. clear Epath.
  rewrite !list_ascii_of_string_app. simpl. rewrite rev_app_distr. simpl.
  rewrite <- app_assoc. simpl.
  assert (Hl : list_ascii_of_string name <> []).
  { destruct name; [contradiction | discriminate]. }
  rewrite strip_separators_plain by (auto using has_separator_forallb).
  rewrite last_element_plain by (auto using has_separator_forallb).
  rewrite app_nil_r.
  destruct (list_ascii_of_string name) as [|d l] eqn:El; [contradiction|].
  rewrite <- (string_of_list_ascii_of_string name). now rewrite El.
Qed.

(** A name that ends in [.md] has the extension [.md]. *)
Lemma Ext_md_suffix (stem : string) : filepath.Ext (stem +:+ ".md") = ".md".
Proof.
  unfold filepath.Ext. rewrite list_ascii_of_string_app. simpl.
  rewrite rev_app_distr. reflexivity.
Qed.

(** The slug of a plain slug's file is the slug. *)
Lemma slug_of_md_path (dir slug : string) :
  plain_element dir -> has_separator slug = false ->
  let file := filepath.Join [dir; slug +:+ ".md"] in
  let filename := filepath.Base file in
  strings.TrimSuffix filename (filepath.Ext filename) = slug.
Proof.
  intros Hdir Hslug. cbv zeta.
  rewrite Join_plain by (auto using md_plain).
  rewrite Base_plain by (auto using md_plain).
  now rewrite Ext_md_suffix, TrimSuffix_app.
Qed.

Lemma posts_plain : plain_element "posts".
Proof. repeat split; discriminate. Qed.

Lemma thoughts_plain : plain_element "thoughts".
Proof. repeat split; discriminate. Qed.

Section SlugRoundTrip.
Context `{Collaborators}.

Lemma LoadPostFromFile_Slug (fs : FS) (filePath : string) (post : PostData) :
  LoadPostFromFile fs filePath = (post, None) ->
  Slug post = strings.TrimSuffix (filepath.Base filePath)
                (filepath.Ext (filepath.Base filePath)).
Proof.
  intros Hload.
  destruct (os_ReadFile fs filePath) as [mdBytes [e|]] eqn:Hread.
  - rewrite (LoadPostFromFile_read_error _ _ _ _ Hread) in Hload. discriminate.
  - rewrite (LoadPostFromFile_read _ _ _ Hread) in Hload.
    destruct (os_Stat fs filePath) as [fileInfo [e|]]; [discriminate|].
    destruct (goldmark_Convert _) as [html [e|]]; [discriminate|].
    simpl in Hload. injection Hload as <-. reflexivity.
Qed.

(** X13. The post found for a slug without a path separator carries
    that slug: what [LoadPost] derives back from the file name it built
    is the slug it was asked for. *)
Theorem LoadPost_returns_the_slug (fs : FS) (slug : string) (post : PostData) :
  has_separator slug = false ->
  LoadPost fs slug = (post, None) ->
  Slug post = slug.
Proof.
  intros Hslug. unfold LoadPost.
  destruct (os_Stat fs (filepath.Join ["posts"; slug +:+ ".md"])) as [i1 err1].
  destruct (os_IsNotExist err1).
  - destruct (os_Stat fs (filepath.Join ["thoughts"; slug +:+ ".md"])) as [i2 err2].
    destruct (os_IsNotExist err2) eqn:E2.
    { intros Hload. injection Hload as _ ->. discriminate E2. }
    intros Hload. rewrite (LoadPostFromFile_Slug _ _ _ Hload).
    apply (slug_of_md_path "thoughts" slug thoughts_plain Hslug).
  - intros Hload. rewrite (LoadPostFromFile_Slug _ _ _ Hload).
    apply (slug_of_md_path "posts" slug posts_plain Hslug).
Qed.
End SlugRoundTrip.

Lemma LoadPost_returns_the_slug_witness :
  Slug (fst (LoadPost Fixture.site "hello-world")) = "hello-world"
  /\ Slug (fst (LoadPost Fixture.site "idea")) = "idea".
Proof.
  split.
  - apply (LoadPost_returns_the_slug (H:=Fixture.collaborators) Fixture.site "hello-world");
      reflexivity.
  - apply (LoadPost_returns_the_slug (H:=Fixture.collaborators) Fixture.site "idea");
      reflexivity.
Defined.

(** ** More on the loader and the collection *)

Section LoaderErrors.
Context `{Collaborators}.

(** X1. [LoadPostFromFile] fails exactly when reading the file, the
    stat, or the conversion of the body fails; its error is the first
    of these in that order, and with an error comes the zero record. *)
Theorem LoadPostFromFile_first_error (fs : FS) (filePath : string) :
  let '(mdBytes, readErr) := os_ReadFile fs filePath in
  let '(_, statErr) := os_Stat fs filePath in
  let '(_, convertErr) := goldmark_Convert (fst (parseFrontmatter mdBytes)) in
  snd (LoadPostFromFile fs filePath)
  = match readErr, statErr with
    | Some e, _ => Some e
    | None, Some e => Some e
    | None, None => convertErr
    end
  /\ (snd (LoadPostFromFile fs filePath) <> None ->
      fst (LoadPostFromFile fs filePath) = PostData_zero).
Proof.
  destruct (os_ReadFile fs filePath) as [mdBytes [e|]] eqn:Hread.
  - rewrite (LoadPostFromFile_read_error _ _ _ _ Hread).
    destruct (os_Stat fs filePath) as [i s], (goldmark_Convert _) as [h c]. now split.
  - rewrite (LoadPostFromFile_read _ _ _ Hread).
    destruct (os_Stat fs filePath) as [i [e|]].
    + destruct (goldmark_Convert _) as [h c]. now split.
    + destruct (goldmark_Convert _) as [h [e|]]; simpl; split; congruence.
Qed.

(** X3. [RenderMarkdown] and [LoadPostFromFile] convert alike: for a
    file the loader loads, [RenderMarkdown] returns the HTML the
    loader put into the record. *)
Theorem RenderMarkdown_agrees_with_loader (fs : FS) (filePath : string) (post : PostData) :
  LoadPostFromFile fs filePath = (post, None) ->
  RenderMarkdown fs filePath = Some (Content post, None).
Proof.
  intros Hload. unfold RenderMarkdown.
  destruct (os_ReadFile fs filePath) as [mdBytes [e|]] eqn:Hread.
  - rewrite (LoadPostFromFile_read_error _ _ _ _ Hread) in Hload. discriminate.
  - rewrite (LoadPostFromFile_read _ _ _ Hread) in Hload.
    unfold parseFrontmatter in Hload.
    destruct (frontmatter_Parse mdBytes) as [[rest fm] perr].
    destruct (os_Stat fs filePath) as [i [e|]]; [discriminate|].
    destruct perr as [e|]; simpl in Hload.
    + destruct (goldmark_Convert mdBytes) as [html [e'|]]; [discriminate|].
      now injection Hload as <-.
    + destruct (goldmark_Convert rest) as [html [e'|]]; [discriminate|].
      now injection Hload as <-.
Qed.

(** X4. What [CleanTitle] hands to the title caser is the file name
    without its extension in which every dash and underscore has
    become a space: it has the length of that stem and holds neither a
    dash nor an underscore. *)
Theorem CleanTitle_replaces_dashes (filename : string) :
  exists spaced_stem,
    CleanTitle filename = cases_Title spaced_stem
    /\ String.length spaced_stem + String.length (filepath.Ext filename)
       = String.length filename
    /\ forall i c, String.get i spaced_stem = Some c -> c <> "-"%char /\ c <> "_"%char.
Proof.
  exists (humanized filename). split; [apply CleanTitle_humanized|]. unfold humanized.
  assert (Hlen : forall f s, String.length (string_map f s) = String.length s).
  { intros f s. induction s as [|c s IH]; simpl; [reflexivity | now rewrite IH]. }
  split.
  - rewrite Hlen. destruct (Ext_suffix filename) as [stem Hstem].
    remember (filepath.Ext filename) as ext. rewrite Hstem.
    rewrite TrimSuffix_app, string_app_length. reflexivity.
  - generalize (strings.TrimSuffix filename (filepath.Ext filename)). intros s.
    induction s as [|d s IH]; intros i c Hget; [destruct i; discriminate|].
    destruct i as [|i]; [|exact (IH i c Hget)].
    simpl in Hget. injection Hget as <-. unfold spaced.
    destruct (Ascii.eqb_spec d "-") as [->|Hd]; [split; discriminate|].
    destruct (Ascii.eqb_spec d "_") as [->|Hu]; [split; discriminate|].
    simpl. split; assumption.
Qed.
End LoaderErrors.

Lemma RenderMarkdown_agrees_with_loader_witness :
  RenderMarkdown Fixture.site "posts/hello-world.md" = Some ("<p>Hi</p>", None).
Proof.
  exact (RenderMarkdown_agrees_with_loader (H:=Fixture.collaborators) Fixture.site
           "posts/hello-world.md" _ eq_refl).
Defined.

Lemma After_total (t u : Time) : After t u = false -> t <> u -> After u t = true.
Proof.
  destruct t as [s n], u as [s' n']. unfold After. simpl. intros Hle Hne.
  apply orb_false_iff in Hle as [H1 H2]. apply andb_false_iff in H2.
  rewrite Z.ltb_ge in H1. rewrite Z.eqb_neq, Z.ltb_ge in H2.
  apply orb_true_iff. rewrite andb_true_iff, Z.ltb_lt, Z.eqb_eq, Z.ltb_lt.
  destruct (Z.eq_dec s s') as [->|Hs].
  - right. split; [reflexivity|]. destruct (Z.eq_dec n n') as [->|Hn]; [congruence | lia].
  - left. lia.
Qed.

Section CollectionShape.
Context `{Collaborators}.

Lemma loadPostsFromDirectory_loaded (fs : FS) (pattern : string) (posts : list PostData) :
  loadPostsFromDirectory fs pattern = (posts, None) ->
  exists files,
    filepath_Glob fs pattern = (files, None)
    /\ Forall (loads fs) files
    /\ posts = sort.Slice byDateDesc (map (fun file => fst (LoadPostFromFile fs file)) files).
Proof.
  unfold loadPostsFromDirectory.
  destruct (filepath_Glob fs pattern) as [files [e|]]; [discriminate|].
  destruct (loadPosts_loop fs files []) as [loaded [e|]] eqn:Hloop; [discriminate|].
  intros Hposts. injection Hposts as <-. exists files.
  pose proof (loadPosts_loop_ok fs files [] loaded Hloop) as Hall.
  rewrite (loadPosts_loop_all fs files [] Hall) in Hloop. simpl in Hloop.
  injection Hloop as <-. auto.
Qed.

(** X5. A collection that builds has exactly one record for every
    matched file: its slugs are, up to order, the matched file names
    without their extensions. *)
Theorem collection_has_every_file_once (fs : FS) (pattern : string) (posts : list PostData) :
  loadPostsFromDirectory fs pattern = (posts, None) ->
  let files := fst (filepath_Glob fs pattern) in
  length posts = length files
  /\ map Slug posts
     ≡ₚ map (fun file => strings.TrimSuffix (filepath.Base file)
                           (filepath.Ext (filepath.Base file))) files.
Proof.
  intros Hload. destruct (loadPostsFromDirectory_loaded _ _ _ Hload) as (files & Hglob & Hall & ->).
  rewrite Hglob. simpl.
  destruct (Slice_sorted byDateDesc (map (fun file => fst (LoadPostFromFile fs file)) files)
              byDateDesc_strict_weak) as [_ Hperm].
  split.
  - rewrite <- Hperm. now rewrite length_map.
  - rewrite <- Hperm. rewrite map_map.
    assert (Heq : map (fun file => Slug (fst (LoadPostFromFile fs file))) files
                  = map (fun file => strings.TrimSuffix (filepath.Base file)
                                       (filepath.Ext (filepath.Base file))) files).
    { apply map_ext_in. intros file Hin.
      rewrite Forall_forall in Hall. specialize (Hall file (proj2 (list_elem_of_In _ _) Hin)).
      unfold loads in Hall.
      destruct (LoadPostFromFile fs file) as [post err] eqn:Hfile. simpl in *. subst err.
      apply (LoadPostFromFile_Slug _ _ _ Hfile). }
    now rewrite Heq.
Qed.

(** X6. When the loaded records have pairwise different dates, the
    collection is strictly descending: every record is dated after
    all records that follow it. *)
Theorem distinct_dates_strictly_descending (fs : FS) (pattern : string)
  (posts : list PostData) :
  loadPostsFromDirectory fs pattern = (posts, None) ->
  NoDup (map Date posts) ->
  StronglySorted (fun p q => After (Date p) (Date q) = true) posts.
Proof.
  intros Hload Hnodup.
  destruct (loadPostsFromDirectory_loaded _ _ _ Hload) as (files & _ & _ & Hposts).
  destruct (Slice_sorted byDateDesc (map (fun file => fst (LoadPostFromFile fs file)) files)
              byDateDesc_strict_weak) as [Hsorted _].
  rewrite <- Hposts in Hsorted. clear Hposts Hload.
  induction Hsorted as [|p posts Hs IH Hall]; constructor.
  - apply IH. now inversion Hnodup.
  - simpl in Hnodup. apply NoDup_cons in Hnodup as [Hnotin _].
    rewrite Forall_forall in *. intros q Hq.
    apply After_total; [exact (Hall q Hq)|].
    intros E. apply Hnotin. rewrite <- E.
    apply list_elem_of_In, in_map, list_elem_of_In, Hq.
Qed.
End CollectionShape.

Lemma collection_has_every_file_once_witness :
  map Slug (fst (loadPostsFromDirectory Fixture.site "posts/*.md"))
  ≡ₚ ["hello-world"; "my-first_post"; "open"]
  /\ length (fst (loadPostsFromDirectory Fixture.site "posts/*.md")) = 3.
Proof.
  destruct (collection_has_every_file_once (H:=Fixture.collaborators) Fixture.site
              "posts/*.md" _ eq_refl) as [Hlen Hslugs].
  split; [exact Hslugs | exact Hlen].
Defined.

Lemma distinct_dates_strictly_descending_witness :
  StronglySorted (fun p q => After (Date p) (Date q) = true)
    (fst (loadPostsFromDirectory Fixture.site "posts/*.md")).
Proof.
  apply (distinct_dates_strictly_descending (H:=Fixture.collaborators) Fixture.site
           "posts/*.md" _ eq_refl).
  vm_compute.
  repeat (constructor;
          [intros Hin; repeat (apply elem_of_cons in Hin as [Hin|Hin]; [discriminate Hin|]);
           inversion Hin|]).
  constructor.
Defined.

(** ** The handlers, served and generated *)

Section LiveAndStatic.
Context `{Collaborators}.

(** X10. The static pages are the served pages: on the same disk and
    request, each of the four handlers returns in static generation
    exactly when it returns under the server, with the same bytes, and
    panics exactly when it panics there. *)
Theorem static_pages_are_served_bodies (fs : FS) (r : Request) :
  served_alike (HomeHandler fs freshWriter r) (HomeHandler fs liveResponse_new r)
  /\ served_alike (ThoughtsHandler fs freshWriter r) (ThoughtsHandler fs liveResponse_new r)
  /\ served_alike (AboutHandler fs freshWriter r) (AboutHandler fs liveResponse_new r)
  /\ served_alike (PostHandler fs freshWriter r) (PostHandler fs liveResponse_new r).
Proof.
  assert (Hlisting : forall loadPosts title templateName,
             served_alike (postsHandler fs freshWriter loadPosts title templateName)
                          (postsHandler fs liveResponse_new loadPosts title templateName)).
  { intros loadPosts title templateName. unfold postsHandler.
    destruct (loadPosts fs) as [posts [e|]]; [reflexivity|].
    destruct (template_ParseFiles fs _) as [tmpl [e|]]; [exact I|].
    unfold tmpl_Execute.
    destruct (template_Execute tmpl _) as [[|c out] [e|]]; reflexivity. }
  split; [apply Hlisting|]. split; [apply Hlisting|]. split.
  - unfold AboutHandler.
    destruct (RenderMarkdown fs "nav/about.md") as [[content [e|]]|]; [reflexivity| |exact I].
    destruct (template_ParseFiles fs _) as [tmpl [e|]]; [exact I|].
    unfold tmpl_Execute.
    destruct (template_Execute tmpl _) as [[|c out] [e|]]; reflexivity.
  - unfold PostHandler.
    destruct (req_URL r) as [u|]; [|exact I].
    destruct (String.length (Path u) <? String.length "/post/"); [exact I|].
    destruct (LoadPost fs _) as [post [e|]]; [reflexivity|].
    destruct (template_ParseFiles fs _) as [tmpl [e|]]; [exact I|].
    unfold tmpl_Execute.
    destruct (template_Execute tmpl _) as [[|c out] [e|]]; reflexivity.
Qed.

(** X11. A post that loads and renders is served with status 200, as
    [text/html], with the bytes the template wrote as the body. *)
Theorem PostHandler_serves_the_post (fs : FS) (slug : string) (post : PostData)
  (tmpl : Template) (out : string) :
  LoadPost fs slug = (post, None) ->
  template_ParseFiles fs (templateFiles "post.gohtml") = (tmpl, None) ->
  template_Execute tmpl (ArgPost post) = (out, None) ->
  exists w, PostHandler fs liveResponse_new (postRequest slug) = Returned w
            /\ live_status w = StatusOK
            /\ live_body w = out
            /\ live_header w !! "Content-Type" = Some "text/html; charset=utf-8".
Proof.
  unfold templateFiles. intros Hload Hparse Hexec.
  rewrite PostHandler_slug. unfold tmpl_Execute. simpl. rewrite Hload, Hparse, Hexec.
  eexists. split; [reflexivity|]. repeat split; reflexivity.
Qed.

(** X12. A template that fails after it has written part of the page:
    the server has sent status 200 by then, so the 500 of the error
    path is lost and the body is the partial page followed by the error
    text; static generation writes these same bytes to the file. *)
Theorem late_template_error_keeps_200 (fs : FS) (slug : string) (post : PostData)
  (tmpl : Template) (out : string) (e : error) :
  LoadPost fs slug = (post, None) ->
  template_ParseFiles fs (templateFiles "post.gohtml") = (tmpl, None) ->
  template_Execute tmpl (ArgPost post) = (out, Some e) ->
  out <> "" ->
  (exists w, PostHandler fs liveResponse_new (postRequest slug) = Returned w
             /\ live_status w = StatusOK
             /\ live_body w = out +:+ "Error executing template" +:+ String "010" "")
  /\ (exists w, PostHandler fs freshWriter (postRequest slug) = Returned w
                /\ status (inner w) = StatusInternalServerError
                /\ buf (inner w) = out +:+ "Error executing template" +:+ String "010" "").
Proof.
  unfold templateFiles. intros Hload Hparse Hexec Hout.
  rewrite !PostHandler_slug. unfold tmpl_Execute. simpl. rewrite Hload, Hparse, Hexec.
  destruct out as [|c out]; [now destruct Hout|].
  split; eexists; (split; [reflexivity|]); split; reflexivity.
Qed.

Lemma loadPostsFromDirectory_fails (fs : FS) (pattern : string) (files : list string)
  (file : string) :
  filepath_Glob fs pattern = (files, None) ->
  file ∈ files -> ~ loads fs file ->
  exists e, loadPostsFromDirectory fs pattern = ([], Some e).
Proof.
  intros Hglob Hin Hfile. unfold loadPostsFromDirectory. rewrite Hglob.
  destruct (loadPosts_loop fs files []) as [posts [e|]] eqn:Hloop; [eauto|].
  apply loadPosts_loop_ok in Hloop. rewrite Forall_forall in Hloop.
  destruct (Hfile (Hloop file Hin)).
Qed.

(** X15. One post that does not load takes the listing down: when a
    file matched under [posts] fails to load, the home page answers
    500 with [Error loading posts], whatever the other posts are; the
    same holds for the thoughts page and the files under [thoughts]. *)
Theorem one_bad_post_breaks_the_listing (fs : FS) (files : list string) (file : string)
  (r : Request) :
  file ∈ files -> ~ loads fs file ->
  (filepath_Glob fs "posts/*.md" = (files, None) ->
   exists w, HomeHandler fs liveResponse_new r = Returned w
             /\ live_status w = StatusInternalServerError
             /\ live_body w = "Error loading posts" +:+ String "010" "")
  /\ (filepath_Glob fs "thoughts/*.md" = (files, None) ->
      exists w, ThoughtsHandler fs liveResponse_new r = Returned w
                /\ live_status w = StatusInternalServerError
                /\ live_body w = "Error loading posts" +:+ String "010" "").
Proof.
  intros Hin Hfile. split; intros Hglob;
    destruct (loadPostsFromDirectory_fails _ _ _ _ Hglob Hin Hfile) as [e He].
  - unfold HomeHandler, postsHandler, LoadBlogPosts. rewrite He.
    eexists. split; [reflexivity|]. split; reflexivity.
  - unfold ThoughtsHandler, postsHandler, LoadThoughtsPosts. rewrite He.
    eexists. split; [reflexivity|]. split; reflexivity.
Qed.

(** X16. An about page that cannot be read is answered with 500
    and [Error loading about page], as plain text; in static
    generation that text is what the handler leaves for the page. *)
Theorem unreadable_about_page_answers_500 (fs : FS) (r : Request) (e : error) :
  snd (os_ReadFile fs "nav/about.md") = Some e ->
  (exists w, AboutHandler fs liveResponse_new r = Returned w
             /\ live_status w = StatusInternalServerError
             /\ live_body w = "Error loading about page" +:+ String "010" ""
             /\ live_header w !! "Content-Type" = Some "text/plain; charset=utf-8")
  /\ (exists w, AboutHandler fs freshWriter r = Returned w
                /\ buf (inner w) = "Error loading about page" +:+ String "010" "").
Proof.
  unfold AboutHandler, RenderMarkdown.
  destruct (os_ReadFile fs "nav/about.md") as [mdBytes err]. simpl. intros ->.
  split; eexists; (split; [reflexivity|]); repeat split; reflexivity.
Qed.

(** X18. Templates are parsed only once the content is loaded, and a
    template that does not parse is a panic: in each handler, content
    that loads followed by a failing [template.ParseFiles] panics, in
    static generation as in the server. *)
Theorem unparsed_template_panics (fs : FS) (slug : string) (e : error) :
  (snd (LoadBlogPosts fs) = None ->
   snd (template_ParseFiles fs (templateFiles "home.gohtml")) = Some e ->
   exists w, HomeHandler fs liveResponse_new (mkRequest None) = Panicked w)
  /\ (snd (LoadThoughtsPosts fs) = None ->
      snd (template_ParseFiles fs (templateFiles "thoughts.gohtml")) = Some e ->
      exists w, ThoughtsHandler fs liveResponse_new (mkRequest None) = Panicked w)
  /\ (snd (LoadPost fs slug) = None ->
      snd (template_ParseFiles fs (templateFiles "post.gohtml")) = Some e ->
      exists w, PostHandler fs liveResponse_new (postRequest slug) = Panicked w).
Proof.
  unfold templateFiles. split; [|split].
  - unfold HomeHandler, postsHandler. destruct (LoadBlogPosts fs) as [posts err]. simpl.
    intros ->. destruct (template_ParseFiles fs _) as [tmpl err]. simpl. intros ->. eauto.
  - unfold ThoughtsHandler, postsHandler. destruct (LoadThoughtsPosts fs) as [posts err]. simpl.
    intros ->. destruct (template_ParseFiles fs _) as [tmpl err]. simpl. intros ->. eauto.
  - rewrite PostHandler_slug. destruct (LoadPost fs slug) as [post err]. simpl.
    intros ->. destruct (template_ParseFiles fs _) as [tmpl err]. simpl. intros ->. eauto.
Qed.
End LiveAndStatic.

Lemma PostHandler_serves_the_post_witness :
  exists w, PostHandler Fixture.site liveResponse_new (postRequest "hello-world") = Returned w
            /\ live_status w = StatusOK
            /\ live_body w = "<html><h1>Hello</h1><p>Hi</p></html>"
            /\ live_header w !! "Content-Type" = Some "text/html; charset=utf-8".
Proof.
  exact (PostHandler_serves_the_post (H:=Fixture.collaborators) Fixture.site "hello-world"
           _ _ _ eq_refl eq_refl eq_refl).
Defined.

Lemma late_template_error_keeps_200_witness :
  (exists w, PostHandler site_boom liveResponse_new (postRequest "boom") = Returned w
             /\ live_status w = StatusOK
             /\ live_body w = "<html>" +:+ "Error executing template" +:+ String "010" "")
  /\ (exists w, PostHandler (W:=PageWriter) site_boom freshWriter (postRequest "boom") = Returned w
                /\ status (inner w) = StatusInternalServerError
                /\ buf (inner w) = "<html>" +:+ "Error executing template" +:+ String "010" "").
Proof.
  refine (late_template_error_keeps_200 (H:=Fixture.collaborators) site_boom "boom"
            _ _ "<html>" (ErrOther "execution failed") eq_refl eq_refl eq_refl _).
  discriminate.
Defined.

Lemma one_bad_post_breaks_the_listing_witness :
  exists w, HomeHandler Fixture.site_broken liveResponse_new (mkRequest None) = Returned w
            /\ live_status w = StatusInternalServerError
            /\ live_body w = "Error loading posts" +:+ String "010" "".
Proof.
  refine (proj1 (one_bad_post_breaks_the_listing (H:=Fixture.collaborators) Fixture.site_broken
                   ["posts/broken.md"; "posts/hello-world.md"; "posts/my-first_post.md";
                    "posts/open.md"]
                   "posts/broken.md" (mkRequest None) _ _) eq_refl).
  - repeat constructor.
  - unfold loads. vm_compute. discriminate.
Defined.

Lemma unreadable_about_page_answers_500_witness :
  Fixture.ReadFile Fixture.site12 "nav/about.md" = ("", Some (ErrNotExist "nav/about.md"))
  /\ (exists w, AboutHandler Fixture.site12 liveResponse_new (mkRequest None) = Returned w
                /\ live_status w = StatusInternalServerError
                /\ live_body w = "Error loading about page" +:+ String "010" "").
Proof.
  split; [reflexivity|].
  destruct (proj1 (unreadable_about_page_answers_500 (H:=Fixture.collaborators) Fixture.site12
                     (mkRequest None) (ErrNotExist "nav/about.md") eq_refl))
    as (w & Hw & Hstatus & Hbody & _).
  exists w. auto.
Defined.

Lemma unparsed_template_panics_witness :
  (exists w, HomeHandler site_untemplated liveResponse_new (mkRequest None) = Panicked w)
  /\ (exists w, ThoughtsHandler site_untemplated liveResponse_new (mkRequest None) = Panicked w)
  /\ (exists w, PostHandler site_untemplated liveResponse_new (postRequest "a") = Panicked w).
Proof.
  destruct (unparsed_template_panics (H:=Fixture.collaborators) site_untemplated "a"
              (ErrNotExist "templates/base.gohtml")) as (Hhome & Hthoughts & Hpost).
  split; [|split].
  - apply Hhome; reflexivity.
  - apply Hthoughts; reflexivity.
  - apply Hpost; reflexivity.
Defined.

(** ** What a generation run puts on the disk *)

Section Runs.
Context `{Collaborators}.

Lemma putPages_app (fs : FS) (pages pages' : list (string * string)) :
  putPages fs (pages ++ pages') = putPages (putPages fs pages) pages'.
Proof. apply fold_left_app. Qed.

Lemma all_put_app (fs : FS) (pages pages' : list (string * string)) :
  all_put fs (pages ++ pages') <-> all_put fs pages /\ all_put (putPages fs pages) pages'.
Proof.
  revert fs. induction pages as [|page pages IH]; intros fs; simpl.
  - tauto.
  - rewrite IH. tauto.
Qed.

Lemma orReturn_upto (fs0 : FS) (step rest : Disk -> run (option error))
  (pages pages' : list (string * string)) :
  writes_upto fs0 step pages -> writes_upto fs0 rest pages' ->
  writes_upto fs0 (orReturn step rest) (pages ++ pages').
Proof.
  intros Hstep Hrest d Hsame. unfold orReturn. specialize (Hstep d Hsame).
  destruct (step d) as [[e|] dm|dm].
  - destruct Hstep as (done & Hw & Hpre). exists done. split; [assumption|].
    now apply prefix_app_r.
  - destruct Hstep as (Hw & Hd & Hput & Hs). specialize (Hrest dm Hs).
    destruct (rest dm) as [[e|] d'|d'].
    + destruct Hrest as (done & Hw' & Hpre). exists (pages ++ done).
      split; [now rewrite Hw', Hw, app_assoc | now apply prefix_app].
    + destruct Hrest as (Hw' & Hd' & Hput' & Hs').
      split; [now rewrite Hw', Hw, app_assoc|].
      split; [now rewrite putPages_app, <- Hd|].
      split; [apply all_put_app; split; [assumption | now rewrite <- Hd] | assumption].
    + destruct Hrest as (done & Hw' & Hpre). exists (pages ++ done).
      split; [now rewrite Hw', Hw, app_assoc | now apply prefix_app].
  - destruct Hstep as (done & Hw & Hpre). exists done. split; [assumption|].
    now apply prefix_app_r.
Qed.


Lemma nothing_written (before pages : list (string * string)) :
  exists done, before = before ++ done /\ done `prefix_of` pages.
Proof. exists []. split; [now rewrite app_nil_r | apply prefix_nil]. Qed.

Lemma generatePage_upto (fs0 : FS) (outputDir filename : string)
  (handler : FS -> PageWriter -> outcome PageWriter) :
  output_apart fs0 outputDir ->
  filepath.Join [outputDir; filename] ∈ outputPaths fs0 outputDir ->
  (forall fs, same_sources fs0 fs -> handler fs freshWriter = handler fs0 freshWriter) ->
  writes_upto fs0 (generatePage outputDir filename (fun fs w => (handler fs w, None)))
    [(filepath.Join [outputDir; filename], bytesOf (handler fs0 freshWriter))].
Proof.
  intros Hapart Hout Hhandler d Hsame. unfold generatePage.
  fold freshWriter. rewrite (Hhandler _ Hsame).
  destruct (handler fs0 freshWriter) as [w|w]; [|apply (nothing_written (written d))].
  destruct (Hapart _ Hsame) as [_ Hpaths].
  destruct (Hpaths _ Hout) as [Hmk _].
  destruct (os_MkdirAll (disk_fs d) _) as [fs1 [e|]] eqn:Hmkdir;
    [apply (nothing_written (written d))|].
  simpl in Hmk.
  destruct (Hapart _ Hmk) as [_ Hpaths1].
  destruct (Hpaths1 _ Hout) as [_ Hwr1]. specialize (Hwr1 (buf (inner w))).
  destruct (os_WriteFile fs1 _ _) as [fs2 [e|]] eqn:Hwrite;
    [apply (nothing_written (written d))|].
  assert (Hput : putPage (disk_fs d)
                    (filepath.Join [outputDir; filename], buf (inner w)) = fs2)
    by (unfold putPage; cbn [fst snd]; rewrite Hmkdir; cbn [fst snd]; now rewrite Hwrite).
  cbn [bytesOf disk_fs written putPages fold_left all_put fst snd].
  split; [reflexivity|]. split; [exact (eq_sym Hput)|]. split; [|exact Hwr1].
  rewrite Hmkdir. cbn [fst snd]. rewrite Hwrite. auto.
Qed.


Lemma generatePostPage_request (outputDir file : string) :
  generatePostPage outputDir file
  = generatePage outputDir (filepath.Join ["post"; slugOf file; "index.html"])
      (fun fs w => (PostHandler fs w (requestFor file), None)).
Proof.
  unfold generatePostPage, requestFor, slugOf.
  now destruct (url_Parse ("/post/" +:+ _)) as [reqURL perr].
Qed.

Lemma postPage_output (fs0 : FS) (outputDir file : string) :
  file ∈ contentFiles fs0 ->
  filepath.Join [outputDir; filepath.Join ["post"; slugOf file; "index.html"]]
  ∈ outputPaths fs0 outputDir.
Proof.
  intros Hfile. unfold outputPaths. apply elem_of_app. right.
  apply list_elem_of_In, (in_map (postOutputPath outputDir)), list_elem_of_In, Hfile.
Qed.

Lemma generatePostPages_upto (fs0 : FS) (outputDir : string) (files : list string) :
  output_apart fs0 outputDir ->
  files ⊆ contentFiles fs0 ->
  writes_upto fs0 (generatePostPages outputDir files)
    (map (fun file => (postOutputPath outputDir file,
                       bytesOf (PostHandler fs0 freshWriter (requestFor file)))) files).
Proof.
  intros Hapart. induction files as [|file files IH]; intros Hsub.
  - intros d Hsame. simpl. rewrite app_nil_r. auto.
  - assert (Hfile : file ∈ contentFiles fs0) by (apply Hsub; left).
    change (generatePostPages outputDir (file :: files))
      with (orReturn (generatePostPage outputDir file) (generatePostPages outputDir files)).
    rewrite map_cons.
    apply (orReturn_upto fs0 _ _ [_]); [|apply IH; intros p Hp; apply Hsub; now right].
    rewrite generatePostPage_request.
    apply (generatePage_upto fs0 outputDir _ (fun fs w => PostHandler fs w (requestFor file)));
      [assumption | now apply postPage_output |].
    intros fs Hsame. now apply PostHandler_same.
Qed.


Lemma generateDirectory_upto (fs0 : FS) (outputDir pattern : string) :
  output_apart fs0 outputDir ->
  (forall fs, same_sources fs0 fs -> filepath_Glob fs pattern = filepath_Glob fs0 pattern) ->
  fst (filepath_Glob fs0 pattern) ⊆ contentFiles fs0 ->
  writes_upto fs0 (generateDirectory outputDir pattern)
    (map (fun file => (postOutputPath outputDir file,
                       bytesOf (PostHandler fs0 freshWriter (requestFor file))))
       (fst (filepath_Glob fs0 pattern))).
Proof.
  intros Hapart Hglob Hsub d Hsame. unfold generateDirectory.
  rewrite (Hglob _ Hsame).
  destruct (filepath_Glob fs0 pattern) as [files [e|]]; [apply (nothing_written (written d))|].
  now apply generatePostPages_upto.
Qed.


Lemma named_output (fs0 : FS) (outputDir name : string) :
  name ∈ ["index.html"; "about.html"; "thoughts.html"] ->
  filepath.Join [outputDir; name] ∈ outputPaths fs0 outputDir.
Proof.
  intros Hname. unfold outputPaths. apply elem_of_app. left.
  apply list_elem_of_In, (in_map (fun name => filepath.Join [outputDir; name])),
    list_elem_of_In, Hname.
Qed.

Lemma generatePages_upto (fs0 : FS) (outputDir : string) :
  output_apart fs0 outputDir ->
  writes_upto fs0 (generatePages outputDir) (expectedSite fs0 outputDir).
Proof.
  intros Hapart. unfold expectedSite, contentFiles, generatePages. rewrite map_app.
  apply (orReturn_upto fs0 _ _ [_]).
  { apply (generatePage_upto fs0 outputDir "index.html"
             (fun fs w => HomeHandler fs w (mkRequest None)));
      [assumption | apply named_output; repeat constructor |].
    intros fs Hsame. now apply HomeHandler_same. }
  apply (orReturn_upto fs0 _ _ [_]).
  { apply (generatePage_upto fs0 outputDir "about.html"
             (fun fs w => AboutHandler fs w (mkRequest None)));
      [assumption | apply named_output; repeat constructor |].
    intros fs Hsame. now apply AboutHandler_same. }
  apply (orReturn_upto fs0 _ _ [_]).
  { apply (generatePage_upto fs0 outputDir "thoughts.html"
             (fun fs w => ThoughtsHandler fs w (mkRequest None)));
      [assumption | apply named_output; repeat constructor |].
    intros fs Hsame. now apply ThoughtsHandler_same. }
  apply orReturn_upto.
  - apply generateDirectory_upto; [assumption | |].
    + intros fs Hsame. apply (same_posts _ _ Hsame).
    + unfold contentFiles. intros p Hp. apply elem_of_app. auto.
  - apply generateDirectory_upto; [assumption | |].
    + intros fs Hsame. apply (same_thoughts _ _ Hsame).
    + unfold contentFiles. intros p Hp. apply elem_of_app. auto.
Qed.


(** [GenerateStaticSite] creates the output directory and goes
    through the pages. *)
Lemma GenerateStaticSite_steps (outputDir : string) (d : Disk) :
  GenerateStaticSite outputDir d
  = match os_MkdirAll (disk_fs d) outputDir with
    | (fs, Some e) => Completed (Some e) (mkDisk fs (written d))
    | (fs, None) => generatePages outputDir (mkDisk fs (written d))
    end.
Proof.
  unfold GenerateStaticSite, generatePages, orReturn at 1.
  now destruct (os_MkdirAll (disk_fs d) outputDir) as [fs [e|]].
Qed.

(** *** Reading the pages back *)





(** ** Generation runs that do not complete *)

(** X9. However a generation run ends (with an error of the file
    system, or in a panic), the files it has written by then are the
    first files of the site, in the order and with the bytes a
    complete run writes them: an interrupted run leaves no page that a
    complete run would not have written. *)
Theorem interrupted_run_leaves_a_prefix (fs0 : FS) (outputDir : string) :
  output_apart fs0 outputDir ->
  written (disk_of (GenerateStaticSite outputDir (mkDisk fs0 [])))
  `prefix_of` expectedSite fs0 outputDir.
Proof.
  intros Hapart. rewrite GenerateStaticSite_steps. simpl.
  destruct (Hapart fs0 (same_sources_refl fs0)) as [Hstart _].
  destruct (os_MkdirAll fs0 outputDir) as [fs1 [e|]]; [apply prefix_nil|].
  pose proof (generatePages_upto fs0 outputDir Hapart (mkDisk fs1 []) Hstart) as Hrun.
  destruct (generatePages outputDir (mkDisk fs1 [])) as [[e|] d'|d']; simpl in *.
  - destruct Hrun as (done & -> & Hpre). exact Hpre.
  - destruct Hrun as (-> & _). reflexivity.
  - destruct Hrun as (done & -> & Hpre). exact Hpre.
Qed.

(** X7. A post that does not load does not stop the generation: its
    page step creates the page's directory and writes [Post not found]
    to the page's path, the handler's 404 being dropped.  The step
    does not panic, and the only errors it returns are those of
    [os.MkdirAll] and of [os.WriteFile], after which the page is not
    among the files written. *)
Theorem unloadable_post_gets_a_not_found_page (outputDir file : string) (d : Disk)
  (u : URL) (e : error) :
  req_URL (requestFor file) = Some u ->
  String.length "/post/" <= String.length (Path u) ->
  snd (LoadPost (disk_fs d) (strings.drop (String.length "/post/") (Path u))) = Some e ->
  let page := (postOutputPath outputDir file, "Post not found" +:+ String "010" "") in
  let made := os_MkdirAll (disk_fs d) (filepath.Dir (fst page)) in
  let wrote := os_WriteFile (fst made) (fst page) (snd page) in
  generatePostPage outputDir file d
  = match snd made, snd wrote with
    | Some e1, _ => Completed (Some e1) (mkDisk (fst made) (written d))
    | None, Some e2 => Completed (Some e2) (mkDisk (fst wrote) (written d))
    | None, None => Completed None (mkDisk (fst wrote) (written d ++ [page]))
    end.
Proof.
  intros Hurl Hlen Hload. rewrite generatePostPage_request.
  unfold generatePage, PostHandler, postOutputPath. cbv zeta. rewrite Hurl.
  apply Nat.ltb_ge in Hlen. rewrite Hlen.
  destruct (LoadPost (disk_fs d) _) as [post err]. cbn [snd] in Hload. subst err.
  cbn [fst snd].
  destruct (os_MkdirAll (disk_fs d) _) as [fs1 [e1|]]; [reflexivity|]. cbn [fst snd].
  change (buf (inner (http_Error (W:=PageWriter)
                        (Header_Set (mkResponseWriter (mkMock "" ∅ 0)) "Content-Type"
                           "text/html; charset=utf-8")
                        "Post not found" StatusNotFound)))
    with ("Post not found" +:+ String "010" "").
  destruct (os_WriteFile fs1 _ _) as [fs2 [e2|]]; reflexivity.
Qed.

Lemma generatePostPages_parsed (outputDir : string) (files : list string) (d d' : Disk) :
  generatePostPages outputDir files d = Completed None d' ->
  Forall (fun file => fst (url_Parse ("/post/" +:+ slugOf file)) <> None) files.
Proof.
  revert d. induction files as [|file files IH]; intros d Hgen; [constructor|].
  simpl in Hgen. apply orReturn_ok in Hgen as (dm & Hpage & Hrest).
  constructor; [|exact (IH _ Hrest)].
  unfold generatePostPage, generatePage, PostHandler in Hpage. unfold slugOf.
  destruct (url_Parse _) as [[u|] perr]; [discriminate|]. simpl in Hpage. discriminate.
Qed.

(** X8. A matched file whose slug does not parse as a URL keeps the
    generation of its directory from completing: [url.Parse] returns a
    nil URL, its error is discarded, and [PostHandler] panics on the
    request. *)
Theorem unparsable_slug_stops_generation (outputDir pattern : string) (d : Disk)
  (files : list string) (file : string) :
  filepath_Glob (disk_fs d) pattern = (files, None) ->
  file ∈ files ->
  fst (url_Parse ("/post/" +:+ slugOf file)) = None ->
  (forall d', generateDirectory outputDir pattern d <> Completed None d')
  /\ generatePostPage outputDir file d = Crashed d.
Proof.
  intros Hglob Hin Hparse. split.
  - intros d' Hgen. unfold generateDirectory in Hgen. rewrite Hglob in Hgen.
    apply generatePostPages_parsed in Hgen. rewrite Forall_forall in Hgen.
    exact (Hgen file Hin Hparse).
  - unfold generatePostPage, generatePage, PostHandler. unfold slugOf in Hparse.
    destruct (url_Parse _) as [reqURL perr]. simpl in Hparse. subst reqURL. reflexivity.
Qed.
End Runs.

(** ** The runs on the small site *)



Lemma site_percent_output_apart : output_apart site_percent "public".
Proof.
  intros fs Hsame. split; [exact Hsame|].
  intros p Hp. split; [exact Hsame|]. intros bytes.
  apply list_elem_of_In in Hp. vm_compute in Hp.
  repeat (destruct Hp as [<-|Hp];
          [apply Fixture_WriteFile_same; [exact Hsame | reflexivity..]|]).
  contradiction.
Qed.




Lemma interrupted_run_leaves_a_prefix_witness :
  written (disk_of (GenerateStaticSite "public" (mkDisk site_percent [])))
  `prefix_of` expectedSite site_percent "public"
  /\ (exists d, GenerateStaticSite "public" (mkDisk site_percent []) = Crashed d
                /\ map fst (written d)
                   = ["public/index.html"; "public/about.html"; "public/thoughts.html"])
  /\ length (expectedSite site_percent "public") = 8.
Proof.
  split; [|split].
  - exact (interrupted_run_leaves_a_prefix (H:=Fixture.collaborators) site_percent "public"
             site_percent_output_apart).
  - assert (Hrun : GenerateStaticSite "public" (mkDisk site_percent []) = site_percent_run)
      by computed.
    rewrite Hrun. unfold site_percent_run. eexists. split; [reflexivity|]. reflexivity.
  - computed.
Defined.

Lemma unloadable_post_gets_a_not_found_page_witness :
  snd (LoadPost Fixture.site_broken "broken") = Some (ErrPermission "posts/broken.md")
  /\ exists d', generatePostPage "public" "posts/broken.md" (mkDisk Fixture.site_broken [])
                = Completed None d'
                /\ written d' = [("public/post/broken/index.html",
                                  "Post not found" +:+ String "010" "")]
                /\ Fixture.ReadFile (disk_fs d') "public/post/broken/index.html"
                   = ("Post not found" +:+ String "010" "", None).
Proof.
  split; [computed|].
  assert (Hlen : String.length "/post/" <= String.length (Path (mkURL "/post/broken")))
    by (simpl; lia).
  pose proof (unloadable_post_gets_a_not_found_page (H:=Fixture.collaborators) "public"
                "posts/broken.md" (mkDisk (H:=Fixture.collaborators) Fixture.site_broken [])
                (mkURL "/post/broken") (ErrPermission "posts/broken.md") eq_refl Hlen eq_refl)
    as Hpage.
  assert (Hgen : generatePostPage "public" "posts/broken.md" (mkDisk Fixture.site_broken [])
                 = site_broken_page) by computed.
  unfold site_broken_page in Hgen.
  eexists. split; [exact Hgen|]. split; [computed | computed].
Defined.

Lemma unparsable_slug_stops_generation_witness :
  (forall d', generateDirectory "public" "posts/*.md" (mkDisk site_percent [])
              <> Completed None d')
  /\ generatePostPage "public" "posts/100%.md" (mkDisk site_percent [])
     = Crashed (mkDisk (H:=Fixture.collaborators) site_percent []).
Proof.
  apply (unparsable_slug_stops_generation (H:=Fixture.collaborators) "public" "posts/*.md"
           (mkDisk (H:=Fixture.collaborators) site_percent [])
           ["posts/100%.md"; "posts/hello-world.md"; "posts/my-first_post.md"; "posts/open.md"]
           "posts/100%.md").
  - reflexivity.
  - repeat constructor.
  - reflexivity.
Defined.

(** ** Slugs shared between the directories, and the order of dates *)

Lemma slugOf_md_path (dir slug : string) :
  plain_element dir -> has_separator slug = false ->
  slugOf (filepath.Join [dir; slug +:+ ".md"]) = slug.
Proof.
  intros Hdir Hslug. unfold slugOf.
  rewrite (Join_plain dir (slug +:+ ".md") Hdir (md_plain slug Hslug)).
  rewrite (Base_plain dir (slug +:+ ".md") (md_plain slug Hslug)).
  replace (dir +:+ "/" +:+ slug +:+ ".md") with ((dir +:+ "/" +:+ slug) +:+ ".md")
    by now rewrite !string_app_assoc.
  rewrite Ext_md_suffix. apply TrimSuffix_app.
Qed.

Section Shadow.
Context `{Collaborators}.

(** X14. A thought that shares its slug with a post is never shown:
    static generation writes the thought's page to the path of the
    post's page, asks [PostHandler] for the shared slug, and the lookup
    of that slug loads the file under [posts]. *)
Theorem thought_shadowed_by_post (fs : FS) (outputDir slug : string) :
  has_separator slug = false ->
  fst (url_Parse ("/post/" +:+ slug)) = Some (mkURL ("/post/" +:+ slug)) ->
  snd (os_Stat fs (primaryPath slug)) = None ->
  postOutputPath outputDir (secondaryPath slug) = postOutputPath outputDir (primaryPath slug)
  /\ requestFor (secondaryPath slug) = postRequest slug
  /\ LoadPost fs slug = LoadPostFromFile fs (primaryPath slug).
Proof.
  intros Hslug Hurl Hstat.
  assert (Hp : slugOf (primaryPath slug) = slug)
    by (apply slugOf_md_path; [exact posts_plain | exact Hslug]).
  assert (Ht : slugOf (secondaryPath slug) = slug)
    by (apply slugOf_md_path; [exact thoughts_plain | exact Hslug]).
  unfold postOutputPath, requestFor, postRequest. rewrite Hp, Ht, Hurl.
  split; [reflexivity|]. split; [reflexivity|].
  unfold LoadPost. fold (primaryPath slug).
  destruct (os_Stat fs (primaryPath slug)) as [info err]. simpl in Hstat. now subst err.
Qed.
End Shadow.

Lemma thought_shadowed_by_post_witness :
  postOutputPath "public" "thoughts/idea.md" = "public/post/idea/index.html"
  /\ postOutputPath "public" "posts/idea.md" = "public/post/idea/index.html"
  /\ Content (fst (LoadPost site_shadow "idea")) = "<p>Post</p>".
Proof.
  destruct (thought_shadowed_by_post (H:=Fixture.collaborators) site_shadow "public" "idea"
              eq_refl eq_refl eq_refl) as (Hpath & _ & Hload).
  split; [|split].
  - etransitivity; [exact Hpath | vm_compute; reflexivity].
  - vm_compute. reflexivity.
  - rewrite Hload. vm_compute. reflexivity.
Defined.

(** X17. The comparison the collection is sorted with is one
    [sort.Slice] can sort by: being dated after is irreflexive and
    transitive, so is being dated neither before nor after, and two
    posts of which neither is dated after the other carry the same
    date. *)
Theorem date_order_is_strict_weak :
  strict_weak byDateDesc
  /\ forall p q, byDateDesc p q = false -> byDateDesc q p = false -> Date p = Date q.
Proof.
  split; [exact byDateDesc_strict_weak|].
  unfold byDateDesc. intros p q Hpq Hqp.
  destruct (Date p) as [s n] eqn:Ep, (Date q) as [s' n'] eqn:Eq.
  unfold After in *. simpl in *.
  apply orb_false_iff in Hpq as [H1 H2], Hqp as [H3 H4].
  apply andb_false_iff in H2, H4.
  rewrite Z.ltb_ge in H1, H3. rewrite Z.eqb_neq, Z.ltb_ge in H2, H4.
  f_equal; lia.
Qed.

Section AnyOrder.
Context {A : Type} (less : A -> A -> bool).

(** X19. For every comparison that is a strict weak order,
    [sort.Slice] returns the elements it was given, each as often as
    it occurred, in an order in which no element is less than one
    before it; and it keeps the given order of equivalent elements in
    slices of at most twelve elements. *)
Theorem Slice_sorts_any_order (l : list A) :
  strict_weak less ->
  StronglySorted (fun x y => less y x = false) (sort.Slice less l)
  /\ l ≡ₚ sort.Slice less l
  /\ (length l <= 12 -> same_order_of_equals less l (sort.Slice less l)).
Proof.
  intros Hless. destruct (Slice_sorted less l Hless) as [Hs Hp].
  split; [exact Hs|]. split; [exact Hp|].
  intros Hlen. now apply Slice_stable_small.
Qed.
End AnyOrder.

Lemma ltb_strict_weak : strict_weak Nat.ltb.
Proof.
  constructor.
  - intros x. apply Nat.ltb_irrefl.
  - intros x y z. rewrite !Nat.ltb_lt. lia.
  - intros x y z. rewrite !Nat.ltb_ge. lia.
Qed.

Lemma Slice_sorts_any_order_witness :
  sort.Slice Nat.ltb [5; 3; 9; 1; 14; 7; 2; 20; 11; 3; 8; 6; 19; 4; 13; 1; 17; 10; 2; 15]
  = [1; 1; 2; 2; 3; 3; 4; 5; 6; 7; 8; 9; 10; 11; 13; 14; 15; 17; 19; 20]
  /\ StronglySorted (fun x y => Nat.ltb y x = false)
       (sort.Slice Nat.ltb
          [5; 3; 9; 1; 14; 7; 2; 20; 11; 3; 8; 6; 19; 4; 13; 1; 17; 10; 2; 15]).
Proof.
  split; [vm_compute; reflexivity|].
  exact (proj1 (Slice_sorts_any_order Nat.ltb _ ltb_strict_weak)).
Defined.
